(** * Weather collector: normalisation, cleaning and consolidation

    A shallow embedding of [lambda_function.py]: the nested lookup and the
    numeric formatting of [process_weather_data], the field cleaner
    [clean_value] and the read-modify-append routine
    [save_consolidated_data], together with the parts of the Python runtime
    they rely on (truthiness, [float()], [int()], [str()], [str.strip],
    [str.replace], the [csv] reader and writer in the default dialect).

    Conventions of the model:
    - a Python [str] is a list of characters; characters are the code points
      below 256;
    - a Python [float] is an exact decimal [m * 10^e], or an infinity, or
      NaN: rounding, overflow to infinity and the sign of zero are not
      represented;
    - a computation that can raise returns [result], and [try]/[except] is
      [catch] with the handled exception classes;
    - the stored object is the outcome of fetching and decoding it: its
      text, or the exception raised;
    - [str()] of an int raises [ValueError] over the interpreter's default
      limit of 4300 digits, and the [csv] reader raises [csv.Error] on a
      field over its default limit of 131072 characters;
    - memory and the interpreter's recursion limit are not represented. *)

From Stdlib Require Import Ascii String ZArith Bool Lia Arith List.
From Stdlib Require Import Permutation.
From Equations Require Import Equations.
Import ListNotations.

Set Warnings "-register-all".
Local Open Scope Z_scope.

(** ** Exceptions and results *)

Inductive exn : Type :=
| AttributeError | TypeError | ValueError | OverflowError | IndexError
| KeyError | NoSuchKey | CsvError | UnicodeDecodeError.

Definition exn_eqb (a b : exn) : bool :=
  match a, b with
  | AttributeError, AttributeError | TypeError, TypeError
  | ValueError, ValueError | OverflowError, OverflowError
  | IndexError, IndexError | KeyError, KeyError | NoSuchKey, NoSuchKey
  | CsvError, CsvError | UnicodeDecodeError, UnicodeDecodeError => true
  | _, _ => false
  end.

(** [isinstance(e, cls)]: the class itself, or a subclass of it
    ([UnicodeDecodeError] is a [ValueError]). *)
Definition exn_isinstance (e cls : exn) : bool :=
  exn_eqb e cls
  || match e, cls with
     | UnicodeDecodeError, ValueError => true
     | _, _ => false
     end.

(** The exception is caught by [except (classes)]. *)
Definition handled (e : exn) (classes : list exn) : bool :=
  existsb (exn_isinstance e) classes.

Inductive result (A : Type) : Type :=
| Ok (a : A)
| Raise (e : exn).
Arguments Ok {A} a.
Arguments Raise {A} e.

Definition bind {A B} (m : result A) (k : A -> result B) : result B :=
  match m with
  | Ok a => k a
  | Raise e => Raise e
  end.

Notation "x <- m ;; k" := (bind m (fun x => k))
  (at level 61, m at next level, right associativity).

(** [try: m except classes: h] *)
Definition catch {A} (m : result A) (classes : list exn) (h : result A)
  : result A :=
  match m with
  | Ok a => Ok a
  | Raise e => if handled e classes then h else Raise e
  end.

Definition raises {A} (m : result A) : Prop := exists e, m = Raise e.
Definition returns {A} (m : result A) : Prop := exists a, m = Ok a.

(** ** Strings *)

Definition str := list ascii.

Definition lit (s : string) : str := list_ascii_of_string s.

Definition ascii_eqb (a b : ascii) : bool := Ascii.eqb a b.

Fixpoint str_eqb (a b : str) : bool :=
  match a, b with
  | [], [] => true
  | x :: a', y :: b' => ascii_eqb x y && str_eqb a' b'
  | _, _ => false
  end.

Definition chr (n : nat) : ascii := ascii_of_nat n.
Definition ord (c : ascii) : nat := nat_of_ascii c.

Definition c_lf : ascii := chr 10.
Definition c_cr : ascii := chr 13.
Definition c_space : ascii := chr 32.
Definition c_quote : ascii := chr 34.
Definition c_comma : ascii := chr 44.
Definition c_backtick : ascii := chr 96.
Definition c_underscore : ascii := chr 95.
Definition c_pipe : ascii := chr 124.

(** [c in s] for a single character. *)
Definition has_char (c : ascii) (s : str) : bool := existsb (ascii_eqb c) s.

(** [str.isspace] on one character, for the code points below 256. *)
Definition is_space (c : ascii) : bool :=
  let n := ord c in
  ((9 <=? n) && (n <=? 13) || (28 <=? n) && (n <=? 32)
   || (n =? 133) || (n =? 160))%nat.

Fixpoint lstrip_by (p : ascii -> bool) (s : str) : str :=
  match s with
  | [] => []
  | c :: s' => if p c then lstrip_by p s' else s
  end.

Definition rstrip_by (p : ascii -> bool) (s : str) : str :=
  rev (lstrip_by p (rev s)).

Definition strip_by (p : ascii -> bool) (s : str) : str :=
  rstrip_by p (lstrip_by p s).

(** [s.strip()] *)
Definition strip (s : str) : str := strip_by is_space s.

(** [s.strip(chars)] *)
Definition strip_chars (chars : str) (s : str) : str :=
  strip_by (fun c => has_char c chars) s.

(** [s.replace(c, new)] for a one-character pattern. *)
Fixpoint replace_char (c : ascii) (new : str) (s : str) : str :=
  match s with
  | [] => []
  | x :: s' =>
      if ascii_eqb x c then new ++ replace_char c new s'
      else x :: replace_char c new s'
  end.

(** ** Floats and values *)

(** A float: the exact decimal [m * 10^e], an infinity or NaN. *)
Inductive pyfloat : Type :=
| FFin (m e : Z)
| FInf (negative : bool)
| FNan.

Fixpoint strip10 (fuel : nat) (m e : Z) : Z * Z :=
  match fuel with
  | O => (m, e)
  | S fuel' =>
      if m =? 0 then (0, 0)
      else if m mod 10 =? 0 then strip10 fuel' (m / 10) (e + 1)
      else (m, e)
  end.

(** The canonical form: no trailing zero in the mantissa, zero is [0e0]. *)
Definition fnorm (m e : Z) : pyfloat :=
  let '(m', e') := strip10 (S (Z.to_nat (Z.log2 (Z.abs m)))) m e in
  FFin m' e'.

Inductive value : Type :=
| VNone
| VBool (b : bool)
| VInt (n : Z)
| VFloat (f : pyfloat)
| VStr (s : str)
| VList (l : list value)
| VDict (d : list (str * value)).

Definition empty_dict : value := VDict [].
Definition empty_str : value := VStr [].

Definition Z_of_bool (b : bool) : Z := if b then 1 else 0.

(** [bool(v)] *)
Definition truthy (v : value) : bool :=
  match v with
  | VNone => false
  | VBool b => b
  | VInt n => negb (n =? 0)
  | VFloat (FFin m _) => negb (m =? 0)
  | VFloat _ => true
  | VStr s => match s with [] => false | _ => true end
  | VList l => match l with [] => false | _ => true end
  | VDict d => match d with [] => false | _ => true end
  end.

(** [a or b] *)
Definition py_or (a b : value) : value := if truthy a then a else b.

Definition is_none (v : value) : bool :=
  match v with VNone => true | _ => false end.

(** [isinstance(v, Mapping)] *)
Definition is_mapping (v : value) : bool :=
  match v with VDict _ => true | _ => false end.

(** [v == ''] *)
Definition eq_empty_str (v : value) : bool :=
  match v with VStr [] => true | _ => false end.

Fixpoint dict_lookup (d : list (str * value)) (k : str) : option value :=
  match d with
  | [] => None
  | (k', v) :: d' => if str_eqb k' k then Some v else dict_lookup d' k
  end.

(** [v.get(k, dflt)]: only a dict has the method. *)
Definition method_get (v : value) (k : str) (dflt : value) : result value :=
  match v with
  | VDict d =>
      Ok (match dict_lookup d k with Some x => x | None => dflt end)
  | _ => Raise AttributeError
  end.

(** [v[k]] on a dict. *)
Definition subscript (v : value) (k : str) : result value :=
  match v with
  | VDict d =>
      match dict_lookup d k with Some x => Ok x | None => Raise KeyError end
  | _ => Raise TypeError
  end.

(** ** Arithmetic used by the Fahrenheit conversion *)

Definition fmul_int (f : pyfloat) (k : Z) : pyfloat :=
  match f with
  | FFin m e => fnorm (m * k) e
  | FInf s => if k =? 0 then FNan else FInf (xorb s (k <? 0))
  | FNan => FNan
  end.

(** Division by five is exact on decimals: [x / 5 = 2x / 10]. *)
Definition fdiv5 (f : pyfloat) : pyfloat :=
  match f with
  | FFin m e => fnorm (2 * m) (e - 1)
  | other => other
  end.

Definition fadd_int (f : pyfloat) (k : Z) : pyfloat :=
  match f with
  | FFin m e =>
      if 0 <=? e then fnorm (m * 10 ^ e + k) 0
      else fnorm (m + k * 10 ^ (- e)) e
  | other => other
  end.

Fixpoint repeat_list {A} (n : nat) (l : list A) : list A :=
  match n with
  | O => []
  | S n' => l ++ repeat_list n' l
  end.

(** [v * 9] *)
Definition mul9 (v : value) : result value :=
  match v with
  | VBool b => Ok (VInt (Z_of_bool b * 9))
  | VInt n => Ok (VInt (n * 9))
  | VFloat f => Ok (VFloat (fmul_int f 9))
  | VStr s => Ok (VStr (repeat_list 9 s))
  | VList l => Ok (VList (repeat_list 9 l))
  | VNone | VDict _ => Raise TypeError
  end.

(** [v / 5] *)
Definition div5 (v : value) : result value :=
  match v with
  | VBool b => Ok (VFloat (fdiv5 (fnorm (Z_of_bool b) 0)))
  | VInt n => Ok (VFloat (fdiv5 (fnorm n 0)))
  | VFloat f => Ok (VFloat (fdiv5 f))
  | _ => Raise TypeError
  end.

(** [v + 32] *)
Definition add32 (v : value) : result value :=
  match v with
  | VBool b => Ok (VInt (Z_of_bool b + 32))
  | VInt n => Ok (VInt (n + 32))
  | VFloat f => Ok (VFloat (fadd_int f 32))
  | _ => Raise TypeError
  end.

(** ** [float()] and [int()] *)

Definition is_digit (c : ascii) : bool :=
  ((48 <=? ord c) && (ord c <=? 57))%nat.

Definition digit_val (c : ascii) : Z := Z.of_nat (ord c - 48).

Definition lower (c : ascii) : ascii :=
  if ((65 <=? ord c) && (ord c <=? 90))%nat then chr (ord c + 32) else c.

(** The digits of a digit part after its first digit; a single underscore
    may separate two digits. Returns the digits and the unread rest. *)
Fixpoint digits_tail (s : str) : list Z * str :=
  match s with
  | [] => ([], [])
  | c :: s' =>
      if is_digit c then
        let '(ds, r) := digits_tail s' in (digit_val c :: ds, r)
      else if ascii_eqb c c_underscore then
        match s' with
        | d :: s'' =>
            if is_digit d then
              let '(ds, r) := digits_tail s'' in (digit_val d :: ds, r)
            else ([], s)
        | [] => ([], s)
        end
      else ([], s)
  end.

Definition digitpart (s : str) : list Z * str :=
  match s with
  | c :: s' =>
      if is_digit c then
        let '(ds, r) := digits_tail s' in (digit_val c :: ds, r)
      else ([], s)
  | [] => ([], [])
  end.

Definition Z_of_digits (ds : list Z) : Z :=
  fold_left (fun acc d => acc * 10 + d) ds 0.

Definition split_sign (s : str) : bool * str :=
  match s with
  | c :: s' =>
      if ascii_eqb c (chr 45) then (true, s')
      else if ascii_eqb c (chr 43) then (false, s')
      else (false, s)
  | [] => (false, [])
  end.

(** The exponent suffix: nothing, or [e]/[E], an optional sign and a digit
    part that reaches the end of the text. *)
Definition parse_exponent (s : str) : option Z :=
  match s with
  | [] => Some 0
  | c :: s' =>
      if ascii_eqb (lower c) (chr 101) then
        let '(neg, body) := split_sign s' in
        match digitpart body with
        | ((_ :: _) as ds, []) =>
            Some (if neg then - Z_of_digits ds else Z_of_digits ds)
        | _ => None
        end
      else None
  end.

Definition parse_decimal (neg : bool) (s : str) : option pyfloat :=
  let '(ip, r1) := digitpart s in
  let '(fp, r2) :=
    match r1 with
    | c :: r => if ascii_eqb c (chr 46) then digitpart r else ([], r1)
    | [] => ([], r1)
    end in
  match ip ++ fp with
  | [] => None
  | ds =>
      match parse_exponent r2 with
      | Some x =>
          let m := Z_of_digits ds in
          Some (fnorm (if neg then - m else m) (x - Z.of_nat (length fp)))
      | None => None
      end
  end.

(** The characters that [float()] skips at both ends of a string: the
    ASCII whitespace and the spaces beyond ASCII, but not the separators
    [0x1c] to [0x1f], which [str.strip] does remove. *)
Definition is_float_space (c : ascii) : bool :=
  let n := ord c in
  ((9 <=? n) && (n <=? 13) || (n =? 32) || (n =? 133) || (n =? 160))%nat.

(** [float(s)] on a string: surrounding whitespace is ignored, then a sign,
    then [inf], [infinity] or [nan] in any case, or a decimal number. *)
Definition parse_float (s : str) : option pyfloat :=
  let '(neg, body) := split_sign (strip_by is_float_space s) in
  let word := map lower body in
  if str_eqb word (lit "inf") || str_eqb word (lit "infinity")
  then Some (FInf neg)
  else if str_eqb word (lit "nan") then Some FNan
  else parse_decimal neg body.

(** [float(v)] *)
Definition py_float (v : value) : result pyfloat :=
  match v with
  | VBool b => Ok (fnorm (Z_of_bool b) 0)
  | VInt n => Ok (fnorm n 0)
  | VFloat f => Ok f
  | VStr s =>
      match parse_float s with Some f => Ok f | None => Raise ValueError end
  | VNone | VList _ | VDict _ => Raise TypeError
  end.

(** [int(f)]: truncation towards zero; an infinity raises [OverflowError]
    and NaN raises [ValueError]. *)
Definition py_int_of_float (f : pyfloat) : result Z :=
  match f with
  | FFin m e => Ok (if 0 <=? e then m * 10 ^ e else Z.quot m (10 ^ (- e)))
  | FInf _ => Raise OverflowError
  | FNan => Raise ValueError
  end.

(** [f != n] for a float and an int. *)
Definition float_ne_int (f : pyfloat) (n : Z) : bool :=
  match f with
  | FFin m e =>
      negb (if 0 <=? e then m * 10 ^ e =? n else m =? n * 10 ^ (- e))
  | _ => true
  end.

(** ** The helpers of [process_weather_data] *)

Fixpoint safe_get_loop (cur : value) (keys : list str) (default : value)
  : result value :=
  match keys with
  | [] => Ok (if is_none cur then default else cur)
  | key :: keys' =>
      if negb (is_mapping cur) then Ok default
      else
        next <- method_get cur key empty_dict ;;
        safe_get_loop next keys' default
  end.

Definition safe_get_value (data : value) (keys : list str) (default : value)
  : result value :=
  catch (safe_get_loop (py_or data empty_dict) keys default)
        [AttributeError; TypeError] (Ok default).

Definition format_number (v : value) : result value :=
  if is_none v || eq_empty_str v then Ok empty_str
  else
    catch
      (float_val <- py_float v ;;
       cond <- (i <- py_int_of_float float_val ;; Ok (float_ne_int float_val i)) ;;
       if cond then Ok (VFloat float_val)
       else i <- py_int_of_float float_val ;; Ok (VInt i))
      [ValueError; TypeError] (Ok v).

(** ** [str()] and [repr()] *)

Fixpoint digits_upto (fuel : nat) (n : Z) (acc : str) : str :=
  match fuel with
  | O => acc
  | S fuel' =>
      let acc' := chr (48 + Z.to_nat (n mod 10)) :: acc in
      if n / 10 =? 0 then acc' else digits_upto fuel' (n / 10) acc'
  end.

(** The decimal digits of a natural number. *)
Definition str_of_nonneg (n : Z) : str :=
  digits_upto (S (Z.to_nat (Z.log2 n))) n [].

Definition str_of_Z (n : Z) : str :=
  if n <? 0 then chr 45 :: str_of_nonneg (- n) else str_of_nonneg n.

Definition zeros (n : nat) : str := repeat (chr 48) n.

(** The shortest form of a finite float: positional when the decimal point
    falls within [-3 .. 16] of the first digit, with an exponent otherwise. *)
Definition repr_finite (m e : Z) : str :=
  let ds := str_of_nonneg (Z.abs m) in
  let n := Z.of_nat (length ds) in
  let decpt := n + e in
  let body :=
    if (decpt <=? -4) || (16 <? decpt) then
      let x := decpt - 1 in
      let xs := str_of_nonneg (Z.abs x) in
      firstn 1 ds
      ++ (match skipn 1 ds with [] => [] | rest => chr 46 :: rest end)
      ++ [chr 101; if x <? 0 then chr 45 else chr 43]
      ++ (match xs with [_] => chr 48 :: xs | _ => xs end)
    else if decpt <=? 0 then
      lit "0." ++ zeros (Z.to_nat (- decpt)) ++ ds
    else if n <=? decpt then
      ds ++ zeros (Z.to_nat (decpt - n)) ++ lit ".0"
    else
      firstn (Z.to_nat decpt) ds ++ chr 46 :: skipn (Z.to_nat decpt) ds in
  if m <? 0 then chr 45 :: body else body.

Definition repr_float (f : pyfloat) : str :=
  match f with
  | FFin m e => repr_finite m e
  | FInf neg => if neg then lit "-inf" else lit "inf"
  | FNan => lit "nan"
  end.

Definition hex_digit (n : nat) : ascii :=
  if (n <? 10)%nat then chr (48 + n) else chr (87 + n).

Definition is_printable (c : ascii) : bool :=
  let n := ord c in
  negb ((n <? 32) || (127 <=? n) && (n <=? 160) || (n =? 173))%nat.

Definition escape_char (q : ascii) (c : ascii) : str :=
  if ascii_eqb c q || ascii_eqb c (chr 92) then [chr 92; c]
  else if ascii_eqb c (chr 9) then lit "\t"
  else if ascii_eqb c c_lf then lit "\n"
  else if ascii_eqb c c_cr then lit "\r"
  else if is_printable c then [c]
  else lit "\x" ++ [hex_digit (ord c / 16); hex_digit (ord c mod 16)].

(** [repr(s)]: single quotes unless the text has a single quote and no
    double quote. *)
Definition repr_str (s : str) : str :=
  let q := if has_char (chr 39) s && negb (has_char c_quote s)
           then c_quote else chr 39 in
  q :: flat_map (escape_char q) s ++ [q].

Fixpoint join (sep : str) (l : list str) : str :=
  match l with
  | [] => []
  | [x] => x
  | x :: l' => x ++ sep ++ join sep l'
  end.

Fixpoint repr (v : value) : str :=
  match v with
  | VNone => lit "None"
  | VBool b => if b then lit "True" else lit "False"
  | VInt n => str_of_Z n
  | VFloat f => repr_float f
  | VStr s => repr_str s
  | VList l => lit "[" ++ join (lit ", ") (map repr l) ++ lit "]"
  | VDict d =>
      lit "{"
      ++ join (lit ", ")
           (map (fun kv => repr_str (fst kv) ++ lit ": " ++ repr (snd kv)) d)
      ++ lit "}"
  end.

(** The interpreter's limit on the number of digits of an int that is
    turned into text ([sys.get_int_max_str_digits()]; the sign does not
    count). *)
Definition INT_MAX_STR_DIGITS : nat := 4300.

Definition int_over_limit (n : Z) : bool :=
  (INT_MAX_STR_DIGITS <? length (str_of_nonneg (Z.abs n)))%nat.

(** Printing the value meets an int that is over the limit. *)
Fixpoint over_limit (v : value) : bool :=
  match v with
  | VInt n => int_over_limit n
  | VList l => existsb over_limit l
  | VDict d => existsb (fun kv => over_limit (snd kv)) d
  | _ => false
  end.

(** [str(v)], also as the conversion of an f-string: [ValueError] when an
    int to print is over the limit. *)
Definition py_str (v : value) : result str :=
  match v with
  | VStr s => Ok s
  | other => if over_limit other then Raise ValueError else Ok (repr other)
  end.

(** ** [process_weather_data] *)

Definition FIELDNAMES : list str :=
  map lit
    ["timestamp"; "region"; "temperature_celsius"; "temperature_fahrenheit";
     "humidity"; "wind_speed_ms"; "wind_direction"; "barometric_pressure";
     "visibility"; "dew_point"; "heat_index"; "wind_chill";
     "present_weather"; "forecast_temp"; "short_forecast";
     "detailed_forecast"; "snow_level"; "ice_accumulation";
     "precipitation_probability"; "max_temperature"; "min_temperature";
     "uv_index"; "has_alerts"]%string.

(** [v[0]] *)
Definition index0 (v : value) : result value :=
  match v with
  | VList (x :: _) => Ok x
  | VList [] => Raise IndexError
  | VStr (c :: _) => Ok (VStr [c])
  | VStr [] => Raise IndexError
  | VDict _ => Raise KeyError
  | _ => Raise TypeError
  end.

Definition safe_get_grid_value (grid_data : value) (property_name : str)
  : result value :=
  catch
    (prop <- method_get grid_data property_name empty_dict ;;
     values <- method_get prop (lit "values") (VList []) ;;
     if truthy values then
       first <- index0 values ;;
       method_get first (lit "value") empty_str
     else Ok empty_str)
    [IndexError; AttributeError; TypeError] (Ok empty_str).

(** The argument of [format_number] for [temperature_fahrenheit]: the
    conditional expression first evaluates its test, then one branch. *)
Definition fahrenheit_arg (current : value) : result value :=
  let path := [lit "temperature"; lit "value"] in
  probe <- safe_get_value current path empty_str ;;
  if negb (is_none probe) then
    c <- safe_get_value current path (VInt 0) ;;
    a <- mul9 c ;;
    b <- div5 a ;;
    add32 b
  else Ok empty_str.

Definition observed (current : value) (name : string) : result value :=
  v <- safe_get_value current [lit name; lit "value"] empty_str ;;
  format_number v.

Definition text_of (data : value) (name : string) : result value :=
  v <- safe_get_value data [lit name] empty_str ;;
  s <- py_str v ;;
  Ok (VStr s).

Definition gridded (grid : value) (name : string) : result value :=
  v <- safe_get_grid_value grid (lit name) ;;
  format_number v.

Definition record := list (str * value).

(** [now] is [datetime.now().strftime('%Y-%m-%d %H:%M:%S')]. *)
Definition process_weather_data (now : str) (raw_data : value)
    (region_name : str) : result record :=
  cur0 <- method_get raw_data (lit "current") empty_dict ;;
  current <- method_get cur0 (lit "properties") empty_dict ;;
  fc0 <- method_get raw_data (lit "forecast") empty_dict ;;
  fc1 <- method_get fc0 (lit "properties") empty_dict ;;
  forecast_periods <- method_get fc1 (lit "periods") (VList []) ;;
  forecast <- (if truthy forecast_periods then index0 forecast_periods
               else Ok empty_dict) ;;
  grid0 <- method_get raw_data (lit "grid") empty_dict ;;
  grid <- method_get grid0 (lit "properties") empty_dict ;;
  temperature_celsius <- observed current "temperature" ;;
  temperature_fahrenheit <- (a <- fahrenheit_arg current ;; format_number a) ;;
  humidity <- observed current "relativeHumidity" ;;
  wind_speed_ms <- observed current "windSpeed" ;;
  wind_direction <- observed current "windDirection" ;;
  barometric_pressure <- observed current "barometricPressure" ;;
  visibility <- observed current "visibility" ;;
  dew_point <- observed current "dewpoint" ;;
  heat_index <- observed current "heatIndex" ;;
  wind_chill <- observed current "windChill" ;;
  present_weather <- text_of current "textDescription" ;;
  forecast_temp <-
    (v <- safe_get_value forecast [lit "temperature"] empty_str ;;
     format_number v) ;;
  short_forecast <- text_of forecast "shortForecast" ;;
  detailed <- safe_get_value forecast [lit "detailedForecast"] empty_str ;;
  detailed_text <- py_str detailed ;;
  snow_level <- gridded grid "snowLevel" ;;
  ice_accumulation <- gridded grid "iceAccumulation" ;;
  precipitation_probability <- gridded grid "probabilityOfPrecipitation" ;;
  max_temperature <- gridded grid "maxTemperature" ;;
  min_temperature <- gridded grid "minTemperature" ;;
  uv_index <- gridded grid "maxDaytimeUVIndex" ;;
  alerts <- method_get raw_data (lit "alerts") empty_dict ;;
  features <- method_get alerts (lit "features") VNone ;;
  Ok (combine FIELDNAMES
        [VStr now; VStr region_name; temperature_celsius;
         temperature_fahrenheit; humidity; wind_speed_ms; wind_direction;
         barometric_pressure; visibility; dew_point; heat_index; wind_chill;
         present_weather; forecast_temp; short_forecast;
         VStr (replace_char c_comma [c_pipe]
                 (strip_chars [c_quote] detailed_text));
         snow_level; ice_accumulation; precipitation_probability;
         max_temperature; min_temperature; uv_index;
         VStr (if truthy features then lit "Yes" else lit "No")]).

Definition field (r : record) (name : string) : option value :=
  dict_lookup r (lit name).

(** A bundle whose current observation has the given [properties]. *)
Definition bundle_of (properties : value) : value :=
  VDict [(lit "current", VDict [(lit "properties", properties)])].

(** Observation properties holding [temperature: {value: c}]. *)
Definition with_celsius (c : value) : value :=
  VDict [(lit "temperature", VDict [(lit "value", c)])].

(** ** [clean_value] *)

Definition is_quote (c : ascii) : bool := ascii_eqb c c_quote.

(** Two adjacent quote characters occur in [s]. *)
Fixpoint has_doubled_quote (s : str) : bool :=
  match s with
  | a :: ((b :: _) as t) => is_quote a && is_quote b || has_doubled_quote t
  | _ => false
  end.

(** [str.replace] of two adjacent quote characters by one: occurrences are
    taken from the left and do not overlap. *)
Fixpoint replace_doubled_quote (s : str) : str :=
  match s with
  | a :: ((b :: s') as t) =>
      if is_quote a && is_quote b then c_quote :: replace_doubled_quote s'
      else a :: replace_doubled_quote t
  | _ => s
  end.

Definition inspect {A : Type} (x : A) : {y : A | x = y} := exist _ x eq_refl.

(** The [while] loop of [clean_value]: as long as two adjacent quotes occur,
    replace every such pair by one quote. *)
Equations collapse_loop (cleaned : str) : str by wf (length cleaned) lt :=
  collapse_loop cleaned with inspect (has_doubled_quote cleaned) := {
    | exist _ true H => collapse_loop (replace_doubled_quote cleaned)
    | exist _ false _ => cleaned }.
Next Obligation.
  (* each pass that finds a pair makes the string strictly shorter *)
  assert (Hle : forall n (t : str), (length t <= n)%nat ->
            (length (replace_doubled_quote t) <= length t)%nat).
  { induction n as [|n IH]; intros [|a [|b t]] Hn; simpl in *; try lia.
    destruct (is_quote a && is_quote b); simpl.
    - specialize (IH t). lia.
    - specialize (IH (b :: t)). simpl in IH. lia. }
  assert (Hlt : forall t : str, has_doubled_quote t = true ->
            (length (replace_doubled_quote t) < length t)%nat).
  { induction t as [|a [|b t] IH]; simpl; try discriminate.
    destruct (is_quote a && is_quote b); simpl; intros Ht.
    - pose proof (Hle (length t) t (le_n _)). lia.
    - apply IH in Ht. simpl in Ht. lia. }
  now apply Hlt.
Qed.

(** The string before the loop: trimmed, line feeds turned into spaces,
    carriage returns dropped. *)
Definition unbroken (value : str) : str :=
  replace_char c_cr [] (replace_char c_lf [c_space] (strip value)).

(** The string after the loop: outer quotes stripped, then wrapped in
    quotes, without its backticks, when a comma or a quote remains. *)
Definition quote_if_needed (cleaned : str) : str :=
  let cleaned := strip_chars [c_quote] cleaned in
  if has_char c_comma cleaned || has_char c_quote cleaned
  then c_quote :: replace_char c_backtick [] cleaned ++ [c_quote]
  else cleaned.

Definition clean_str (value : str) : str :=
  quote_if_needed (collapse_loop (unbroken value)).

Definition clean_value (v : value) : result str :=
  match v with
  | VNone => Ok []
  | VBool _ => py_str v
  | VInt _ | VFloat _ => py_str v
  | VStr s => Ok (clean_str s)
  | other => py_str other
  end.

(** ** The [csv] writer (default dialect)

    A field is quoted when it holds the delimiter, the quote character or a
    line-terminator character; quotes inside are doubled; a row that would
    be empty (one empty field) is written as a pair of quotes; rows end in
    CR LF. *)

Definition needs_quoting (c : ascii) : bool :=
  ascii_eqb c c_comma || ascii_eqb c c_quote
  || ascii_eqb c c_cr || ascii_eqb c c_lf.

Definition write_field (f : str) : str :=
  if existsb needs_quoting f
  then c_quote :: replace_char c_quote [c_quote; c_quote] f ++ [c_quote]
  else f.

Definition crlf : str := [c_cr; c_lf].

Definition write_row (fields : list str) : str :=
  match fields with
  | [[]] => [c_quote; c_quote] ++ crlf
  | _ => join [c_comma] (map write_field fields) ++ crlf
  end.

(** ** The [csv] reader (default dialect) *)

Inductive parse_state : Type :=
| START_RECORD | START_FIELD | IN_FIELD | IN_QUOTED_FIELD
| QUOTE_IN_QUOTED_FIELD | EAT_CRNL.

(** The parser: its state, the characters of the current field and the
    fields of the current record, both newest first. *)
Record parser : Type := mkParser {
  state : parse_state;
  field_buf : str;
  fields_rev : list str
}.

Definition parse_reset : parser := mkParser START_RECORD [] [].

Definition parse_save_field (p : parser) (next : parse_state) : parser :=
  mkParser next [] (rev (field_buf p) :: fields_rev p).

(** The limit on the length of a field ([csv.field_size_limit()]). *)
Definition FIELD_LIMIT : Z := 131072.

(** A character joins the current field, unless the field is at the
    limit: the reader then raises [csv.Error]. *)
Definition parse_add_char (p : parser) (c : ascii) (next : parse_state)
  : result parser :=
  if FIELD_LIMIT <=? Z.of_nat (length (field_buf p)) then Raise CsvError
  else Ok (mkParser next (c :: field_buf p) (fields_rev p)).

Definition set_state (p : parser) (next : parse_state) : parser :=
  mkParser next (field_buf p) (fields_rev p).

(** A character of the line, or the end-of-line signal sent after it. *)
Inductive input : Type :=
| Ch (c : ascii)
| EOL.

Definition is_newline (i : input) : bool :=
  match i with
  | Ch c => ascii_eqb c c_lf || ascii_eqb c c_cr
  | EOL => false
  end.

Definition after_line_end (i : input) : parse_state :=
  match i with EOL => START_RECORD | Ch _ => EAT_CRNL end.

Definition start_field (p : parser) (i : input) : result parser :=
  match i with
  | EOL => Ok (parse_save_field p START_RECORD)
  | Ch c =>
      if is_newline i then Ok (parse_save_field p EAT_CRNL)
      else if ascii_eqb c c_quote then Ok (set_state p IN_QUOTED_FIELD)
      else if ascii_eqb c c_comma then Ok (parse_save_field p START_FIELD)
      else parse_add_char p c IN_FIELD
  end.

Definition parse_process_char (p : parser) (i : input) : result parser :=
  match state p with
  | START_RECORD =>
      match i with
      | EOL => Ok p
      | Ch _ =>
          if is_newline i then Ok (set_state p EAT_CRNL)
          else start_field p i
      end
  | START_FIELD => start_field p i
  | IN_FIELD =>
      match i with
      | EOL => Ok (parse_save_field p START_RECORD)
      | Ch c =>
          if is_newline i then Ok (parse_save_field p EAT_CRNL)
          else if ascii_eqb c c_comma then Ok (parse_save_field p START_FIELD)
          else parse_add_char p c IN_FIELD
      end
  | IN_QUOTED_FIELD =>
      match i with
      | EOL => Ok p
      | Ch c =>
          if ascii_eqb c c_quote then Ok (set_state p QUOTE_IN_QUOTED_FIELD)
          else parse_add_char p c IN_QUOTED_FIELD
      end
  | QUOTE_IN_QUOTED_FIELD =>
      match i with
      | EOL => Ok (parse_save_field p START_RECORD)
      | Ch c =>
          if ascii_eqb c c_quote then parse_add_char p c IN_QUOTED_FIELD
          else if ascii_eqb c c_comma then Ok (parse_save_field p START_FIELD)
          else if is_newline i then Ok (parse_save_field p EAT_CRNL)
          else parse_add_char p c IN_FIELD
      end
  | EAT_CRNL =>
      match i with
      | EOL => Ok (set_state p START_RECORD)
      | Ch _ => if is_newline i then Ok p else Raise CsvError
      end
  end.

Fixpoint feed_chars (p : parser) (line : str) : result parser :=
  match line with
  | [] => Ok p
  | c :: line' => p' <- parse_process_char p (Ch c) ;; feed_chars p' line'
  end.

(** One line of input: its characters, then the end-of-line signal. *)
Definition feed_line (p : parser) (line : str) : result parser :=
  p' <- feed_chars p line ;; parse_process_char p' EOL.

Definition is_start_record (s : parse_state) : bool :=
  match s with START_RECORD => true | _ => false end.

Definition is_in_quoted (s : parse_state) : bool :=
  match s with IN_QUOTED_FIELD => true | _ => false end.

Definition record_of (p : parser) : list str := rev (fields_rev p).

(** The rows the reader yields from the given lines, in order, and the
    error that ends the iteration, if any. A row is yielded when a line
    leaves the parser at the start of a record; at the end of the input a
    pending quoted or non-empty field closes the last row. *)
Fixpoint read_rows (p : parser) (lines : list str)
  : list (list str) * option exn :=
  match lines with
  | [] =>
      if negb (length (field_buf p) =? 0)%nat || is_in_quoted (state p)
      then ([record_of (parse_save_field p START_RECORD)], None)
      else ([], None)
  | line :: lines' =>
      match feed_line p line with
      | Raise e => ([], Some e)
      | Ok p' =>
          if is_start_record (state p') then
            let '(rows, err) := read_rows parse_reset lines' in
            (record_of p' :: rows, err)
          else read_rows p' lines'
      end
  end.

(** Iterating over [io.StringIO(text)]: the lines of the text, each with
    its line feed. *)
Fixpoint split_lines_from (cur : str) (s : str) : list str :=
  match s with
  | [] => match cur with [] => [] | _ => [rev cur] end
  | c :: s' =>
      if ascii_eqb c c_lf then rev (c :: cur) :: split_lines_from [] s'
      else split_lines_from (c :: cur) s'
  end.

Definition split_lines (s : str) : list str := split_lines_from [] s.

Definition csv_reader (text : str) : list (list str) * option exn :=
  read_rows parse_reset (split_lines text).

(** ** [csv.DictReader] *)

(** [d[k] = v]: an existing key keeps its place. *)
Fixpoint dict_set (d : record) (k : str) (v : value) : record :=
  match d with
  | [] => [(k, v)]
  | (k', v') :: d' =>
      if str_eqb k' k then (k', v) :: d' else (k', v') :: dict_set d' k v
  end.

(** The dict of one data row: [dict(zip(fieldnames, row))], then [None] for
    the field names a short row leaves out. The surplus cells of a long row
    go under the key [None], which no lookup by field name reaches; the
    model leaves that entry out. *)
Definition make_row (fieldnames : list str) (row : list str) : record :=
  let d :=
    fold_left (fun d kv => dict_set d (fst kv) (VStr (snd kv)))
              (combine fieldnames row) [] in
  fold_left (fun d k => dict_set d k VNone)
            (skipn (length row) fieldnames) d.

Definition is_empty {A} (l : list A) : bool :=
  match l with [] => true | _ => false end.

(** The first row read is the header, whatever it is; empty rows after it
    are skipped. *)
Definition dict_reader (text : str) : list record * option exn :=
  let '(rows, err) := csv_reader text in
  match rows with
  | [] => ([], err)
  | fieldnames :: rest =>
      (map (make_row fieldnames) (filter (fun r => negb (is_empty r)) rest),
       err)
  end.

(** ** [save_consolidated_data] *)

(** The composite key of a row: timestamp, underscore, region. *)
Definition entry_key (row : record) : result str :=
  t <- subscript (VDict row) (lit "timestamp") ;;
  timestamp <- py_str t ;;
  r <- subscript (VDict row) (lit "region") ;;
  region <- py_str r ;;
  Ok (timestamp ++ [c_underscore] ++ region).

Definition mem (k : str) (entries : list str) : bool :=
  existsb (str_eqb k) entries.

(** [row.get(k, '')] *)
Definition get_or_empty (row : record) (k : str) : value :=
  match dict_lookup row k with Some v => v | None => empty_str end.

(** [[f(x) for x in l]]: the results in order, or the first exception. *)
Fixpoint traverse {A B} (f : A -> result B) (l : list A) : result (list B) :=
  match l with
  | [] => Ok []
  | x :: l' => y <- f x ;; ys <- traverse f l' ;; Ok (y :: ys)
  end.

(** The cleaned cells of a row, in schema order. *)
Definition cleaned_cells (row : record) : result (list str) :=
  traverse (fun k => clean_value (get_or_empty row k)) FIELDNAMES.

(** The loop that writes the kept rows: the buffer when it ends, and the
    exception it ends with, if any. *)
Fixpoint write_cleaned (rows : list record) (output : str)
  : str * option exn :=
  match rows with
  | [] => (output, None)
  | row :: rows' =>
      match cleaned_cells row with
      | Raise e => (output, Some e)
      | Ok cleaned_row => write_cleaned rows' (output ++ write_row cleaned_row)
      end
  end.

Definition header_line : str := write_row FIELDNAMES.

(** The loop over the rows of the existing file: the keys seen, the rows
    kept, and the exception that interrupts the loop, if any. *)
Fixpoint scan_rows (rows : list record) (existing_entries : list str)
    (kept : list record) : list str * list record * option exn :=
  match rows with
  | [] => (existing_entries, kept, None)
  | row :: rows' =>
      match entry_key row with
      | Raise e => (existing_entries, kept, Some e)
      | Ok k =>
          if mem k existing_entries
          then scan_rows rows' existing_entries kept
          else scan_rows rows' (existing_entries ++ [k]) (kept ++ [row])
      end
  end.

(** The check that the existing file is neither empty nor corrupted:
    [existing_csv.strip() and ',' in existing_csv]. *)
Definition looks_like_csv (existing_csv : str) : bool :=
  negb (is_empty (strip existing_csv)) && has_char c_comma existing_csv.

(** The body of the inner [try]: the output buffer and the key set when it
    ends, and the exception it ends with, if any. [existing] is the
    outcome of fetching and decoding the stored object. *)
Definition load_existing (existing : result str)
  : str * list str * option exn :=
  match existing with
  | Raise e => ([], [], Some e)
  | Ok existing_csv =>
      if looks_like_csv existing_csv
      then
        let '(rows, read_err) := dict_reader existing_csv in
        let '(entries, kept, scan_err) := scan_rows rows [] [] in
        match scan_err, read_err with
        | Some e, _ | None, Some e => ([], entries, Some e)
        | None, None =>
            let '(output, write_err) := write_cleaned kept header_line in
            (output, entries, write_err)
        end
      else ([], [], None)
  end.

(** The text handed to the store, or the exception that escapes. *)
Definition save_consolidated_data (existing : result str) (data : record)
  : result str :=
  let '(output, existing_entries, err) := load_existing existing in
  output <-
    match err with
    | None => Ok output
    | Some e =>
        if handled e [NoSuchKey; CsvError]
        then Ok (output ++ header_line)
        else Raise e
    end ;;
  new_entry_key <- entry_key data ;;
  if negb (mem new_entry_key existing_entries) then
    cleaned_data <- cleaned_cells data ;;
    let output := if is_empty output then output ++ header_line else output in
    Ok (output ++ write_row cleaned_data)
  else Ok output.

(** The data rows of a dataset text and their composite keys, as the next
    merge will see them. *)
Definition dataset_rows (text : str) : list record := fst (dict_reader text).

Definition row_keys (rows : list record) : list (result str) :=
  map entry_key rows.

(** ** Reference definitions for the cleaner *)

(** One run of the [while] loop of [clean_value], as a relation between the
    string it starts from and the string it ends with. *)
Inductive loop_run : str -> str -> Prop :=
| loop_exit (s : str) :
    has_doubled_quote s = false -> loop_run s s
| loop_iter (s r : str) :
    has_doubled_quote s = true ->
    loop_run (replace_doubled_quote s) r -> loop_run s r.

(** Every run of quote characters collapsed to one quote, in one pass: a
    quote followed by a quote is dropped. *)
Fixpoint collapse_runs (s : str) : str :=
  match s with
  | a :: ((b :: _) as t) =>
      if is_quote a && is_quote b then collapse_runs t
      else a :: collapse_runs t
  | _ => s
  end.

Definition remove_char (c : ascii) (s : str) : str :=
  filter (fun x => negb (ascii_eqb x c)) s.

Definition wrap_if_needed (t : str) : str :=
  if has_char c_comma t || has_char c_quote t
  then c_quote :: remove_char c_backtick t ++ [c_quote]
  else t.

(** The cleaner in the words of the specification: trim, remove line feeds
    and carriage returns, collapse runs of quotes, strip outer quotes, wrap
    when a comma or quote remains. *)
Definition clean_as_specified (s : str) : str :=
  wrap_if_needed
    (strip_chars [c_quote]
       (collapse_runs (remove_char c_cr (remove_char c_lf (strip s))))).

(** The same, with every line feed replaced by a space. *)
Definition clean_with_spaces (s : str) : str :=
  wrap_if_needed
    (strip_chars [c_quote]
       (collapse_runs
          (remove_char c_cr
             (map (fun c => if ascii_eqb c c_lf then c_space else c)
                  (strip s))))).

(** ** Reference definitions for the merge *)

(** The row has the composite key [k]. *)
Definition has_key (k : str) (row : record) : bool :=
  match entry_key row with
  | Ok k' => str_eqb k' k
  | Raise _ => false
  end.

(** The row has the same composite key as one of the rows [before]. *)
Definition seen_before (before : list record) (row : record) : bool :=
  match entry_key row with
  | Ok k => existsb (has_key k) before
  | Raise _ => false
  end.

(** The rows that are the first of their composite key, in their order. *)
Fixpoint first_occurrences_from (before rows : list record) : list record :=
  match rows with
  | [] => []
  | row :: rows' =>
      (if seen_before before row then [] else [row])
      ++ first_occurrences_from (before ++ [row]) rows'
  end.

Definition first_occurrences (rows : list record) : list record :=
  first_occurrences_from [] rows.

(** The stored object is absent, or its text fails the sanity check. *)
Definition absent_or_invalid (existing : result str) : Prop :=
  existing = Raise NoSuchKey
  \/ exists text, existing = Ok text /\ looks_like_csv text = false.

(** The stored text passes the sanity check and decodes, without error, to
    rows that all have a timestamp and a region. *)
Definition valid_dataset (text : str) (rows : list record) : Prop :=
  looks_like_csv text = true
  /\ dict_reader text = (rows, None)
  /\ Forall (fun row => returns (entry_key row)) rows.

(** The text of a dataset with the given rows of cells. *)
Definition dataset_text (rows : list (list str)) : str :=
  header_line ++ concat (map write_row rows).

(** The composite key of a written row: its first two cells. *)
Definition cells_key (cells : list str) : str :=
  nth 0 cells [] ++ [c_underscore] ++ nth 1 cells [].

(** ** The reader, character by character

    The same reading as [csv_reader], without cutting the text into lines
    first: the end-of-line signal follows every line feed, and the end of a
    last line that has no line feed. [midline] tells whether characters
    were read since the last line feed. *)

Definition end_of_line (p : parser)
    (continue : parser -> list (list str) * option exn)
  : list (list str) * option exn :=
  match parse_process_char p EOL with
  | Raise e => ([], Some e)
  | Ok p' =>
      if is_start_record (state p') then
        let '(rows, err) := continue parse_reset in (record_of p' :: rows, err)
      else continue p'
  end.

Fixpoint read_text (p : parser) (midline : bool) (s : str)
  : list (list str) * option exn :=
  match s with
  | [] =>
      if midline then end_of_line p (fun p' => read_rows p' [])
      else read_rows p []
  | c :: s' =>
      match parse_process_char p (Ch c) with
      | Raise e => ([], Some e)
      | Ok p1 =>
          if ascii_eqb c c_lf
          then end_of_line p1 (fun p' => read_text p' false s')
          else read_text p1 true s'
      end
  end.

(** ** Auxiliary notions of the proofs *)

Definition starts_with_quote (s : str) : bool :=
  match s with c :: _ => is_quote c | [] => false end.

(** The key set holds exactly the keys of the rows read so far. *)
Definition tracks (entries : list str) (before : list record) : Prop :=
  forall k, mem k entries = existsb (has_key k) before.

Definition escaped (f : str) : str := replace_char c_quote [c_quote; c_quote] f.

(** The parser is about to read a field: at the start of a record or of a
    field. *)
Definition fresh (st : parse_state) : Prop :=
  st = START_FIELD \/ st = START_RECORD.

(** The parser after the text of a field, before the separator. *)
Definition pending (st : parse_state) (fr : list str) (f : str) : parser :=
  if existsb needs_quoting f then mkParser QUOTE_IN_QUOTED_FIELD (rev f) fr
  else match f with
       | [] => mkParser st [] fr
       | _ => mkParser IN_FIELD (rev f) fr
       end.

(** The field is within the reader's limit. *)
Definition fits (f : str) : bool := Z.of_nat (length f) <=? FIELD_LIMIT.

(** Every cell of every row is within the reader's limit. *)
Definition rows_fit (rows : list (list str)) : bool :=
  forallb (forallb fits) rows.

(** A value as the reader yields it: a string, or None for a cell that a
    short row leaves out. *)
Definition textual (v : value) : bool :=
  match v with VStr _ | VNone => true | _ => false end.

(** A row as the reader yields it. *)
Definition read_row (row : record) : Prop :=
  Forall (fun kv => textual (snd kv) = true) row.

(** ** Sample data *)

Definition sample_record (timestamp region : str) : record :=
  [(lit "timestamp", VStr timestamp); (lit "region", VStr region);
   (lit "humidity", VInt 10); (lit "short_forecast", VStr (lit "Sunny, hot"))].

(** A stored dataset with rows A, B and a later row with the key of A. *)
Definition sample_dataset : str :=
  dataset_text
    [[lit "2024-01-01 00:00:00"; lit "Phoenix_AZ"; lit "38"];
     [lit "2024-01-01 00:00:01"; lit "Miami_FL"; lit "25"];
     [lit "2024-01-01 00:00:00"; lit "Phoenix_AZ"; lit "39"]].

(** The merge starts from the given rows: none when the stored object is
    absent or invalid, the decoded rows of a valid dataset otherwise. *)
Definition starts_from (existing : result str) (rows : list record) : Prop :=
  (absent_or_invalid existing /\ rows = [])
  \/ (exists text, existing = Ok text /\ valid_dataset text rows).

(** ** Reference definitions for the lookups *)

(** [data] holds [v] at the end of the path [keys]. *)
Inductive has_path : value -> list str -> value -> Prop :=
| path_here (v : value) : has_path v [] v
| path_step (d : list (str * value)) (k : str) (ks : list str)
    (x v : value) :
    dict_lookup d k = Some x -> has_path x ks v ->
    has_path (VDict d) (k :: ks) v.

(** The grid property [name] has a non-empty mapping, not a list, as its
    [values]. *)
Definition values_is_mapping (grid_data : value) (name : str) : Prop :=
  exists d p kv vs,
    grid_data = VDict d
    /\ dict_lookup d name = Some (VDict p)
    /\ dict_lookup p (lit "values") = Some (VDict (kv :: vs)).

(** ** Reference definitions for the numbers *)

(** The float is finite and equals the fraction [num / den]. *)
Definition fdenotes (f : pyfloat) (num den : Z) : Prop :=
  match f with
  | FFin m e =>
      if 0 <=? e then m * 10 ^ e * den = num
      else m * den = num * 10 ^ (- e)
  | _ => False
  end.

(** The value is a number equal to the fraction [num / den]. *)
Definition denotes (v : value) (num den : Z) : Prop :=
  match v with
  | VBool b => Z_of_bool b * den = num
  | VInt n => n * den = num
  | VFloat f => fdenotes f num den
  | _ => False
  end.

(** A bundle with one active alert. *)
Definition sample_bundle_alert : value :=
  VDict [(lit "current", VDict [(lit "properties", with_celsius (VInt 20))]);
         (lit "alerts", VDict [(lit "features", VList [VDict []])])].

(** A bundle with a forecast period. *)
Definition sample_bundle_forecast : value :=
  VDict [(lit "current", VDict [(lit "properties", with_celsius (VInt 20))]);
         (lit "forecast",
          VDict [(lit "properties",
            VDict [(lit "periods",
              VList [VDict [(lit "detailedForecast",
                             VStr (lit "Sunny, with a high near 75, light wind"))]])])])].

(** ** Reference definitions for the cleaner's results *)

(** No character of [s] is [c]. *)
Definition free_of (c : ascii) (s : str) : bool :=
  forallb (fun x => negb (ascii_eqb x c)) s.

(** A string the cleaner has nothing to do on: no whitespace at either
    end, and no comma, quote, carriage return or line feed anywhere. *)
Definition plain (s : str) : Prop :=
  forallb (fun c => negb (needs_quoting c)) s = true
  /\ lstrip_by is_space s = s
  /\ lstrip_by is_space (rev s) = rev s.

(** A stored text whose last line breaks off after a bare carriage
    return: one good row, then a line the reader rejects. *)
Definition sample_broken_dataset : str :=
  dataset_text [[lit "2024-01-01 00:00:00"; lit "Phoenix_AZ"; lit "38"]]
  ++ lit "2024-01-01 00:00:01,Mia" ++ [c_cr] ++ lit "mi_FL,25".

(** A cell that is one character over the reader's limit. *)
Definition sample_long_cell : str :=
  repeat (chr 120) (S (Z.to_nat FIELD_LIMIT)).

(** The cells of a stored row with the given timestamp and region, the
    other cells being empty. *)
Definition sample_cells (timestamp region : str) : list str :=
  timestamp :: region :: repeat [] 21.

(** A stored text that is no dataset at all: an error page, with a comma
    in its second line. *)
Definition sample_page : str :=
  lit "<html>" ++ [c_lf]
  ++ lit "<p>Service unavailable, try again later</p>" ++ [c_lf]
  ++ lit "</html>" ++ [c_lf].

(** A stored text with other columns than the schema. *)
Definition sample_foreign_dataset : str :=
  write_row [lit "station"; lit "reading"] ++ write_row [lit "KPHX"; lit "38"].

(** ** The outside world

    The weather service, the object store, the clock and the pause are
    operations on a state of the world [W]. [http_json] stands for
    [requests.get], [raise_for_status] and [json] in a row: it gives the
    decoded answer or the exception raised on the way. [s3_get_text] is
    [get_object], [read] and [decode]; [s3_put_text] is [put_object];
    [clock] is [datetime.now()], as its date and its time of day.
    Logging is left out. *)

(** A computation that changes the world and returns or raises. *)
Definition io (W A : Type) : Type := W -> W * result A.

Record effects (W : Type) : Type := mkEffects {
  http_json : value -> io W value;
  s3_get_text : str -> io W str;
  s3_put_text : str -> str -> io W unit;
  clock : W -> str * str;
  sleep : W -> W
}.
Arguments mkEffects {W}.
Arguments http_json {W}.
Arguments s3_get_text {W}.
Arguments s3_put_text {W}.
Arguments clock {W}.
Arguments sleep {W}.

Definition io_ret {W A} (a : A) : io W A := fun w => (w, Ok a).

Definition io_lift {W A} (r : result A) : io W A := fun w => (w, r).

Definition io_bind {W A B} (m : io W A) (k : A -> io W B) : io W B :=
  fun w =>
    match m w with
    | (w', Ok a) => k a w'
    | (w', Raise e) => (w', Raise e)
    end.

Notation "x <~ m ;; k" := (io_bind m (fun x => k))
  (at level 61, m at next level, right associativity).

(** [try: m except Exception: h] *)
Definition io_try {W A} (m : io W A) (h : io W A) : io W A :=
  fun w =>
    match m w with
    | (w', Ok a) => (w', Ok a)
    | (w', Raise _) => h w'
    end.

(** [strftime('%Y-%m-%d %H:%M:%S')] *)
Definition timestamp_of (now : str * str) : str :=
  fst now ++ [c_space] ++ snd now.

(** ** The fetchers *)

Definition NWS_API_BASE : str := lit "https://api.weather.gov".

Definition points_url (lat lon : str) : str :=
  NWS_API_BASE ++ lit "/points/" ++ lat ++ [c_comma] ++ lon.

(** [grid_data['properties'][name]] *)
Definition property_of (data : value) (name : string) : result value :=
  p <- subscript data (lit "properties") ;; subscript p (lit name).

Definition get_station_data {W} (fx : effects W) (lat lon : str) : io W value :=
  grid_data <~ http_json fx (VStr (points_url lat lon)) ;;
  stations_url <~ io_lift (property_of grid_data "observationStations") ;;
  forecast_grid <~ io_lift (property_of grid_data "forecastGridData") ;;
  forecast_hourly <~ io_lift (property_of grid_data "forecastHourly") ;;
  forecast <~ io_lift (property_of grid_data "forecast") ;;
  stations_json <~ http_json fx stations_url ;;
  features <~ io_lift (method_get stations_json (lit "features") VNone) ;;
  if negb (truthy features) then io_lift (Raise ValueError)
  else
    station_id <~ io_lift
      (fs <- subscript stations_json (lit "features") ;;
       first <- index0 fs ;;
       property_of first "stationIdentifier") ;;
    io_ret (VDict [(lit "station_id", station_id);
                   (lit "forecast_grid", forecast_grid);
                   (lit "forecast_hourly", forecast_hourly);
                   (lit "forecast", forecast)]).

(** [s.split('/')[-1]]: what follows the last slash. *)
Fixpoint last_segment_from (cur : str) (s : str) : str :=
  match s with
  | [] => rev cur
  | c :: s' =>
      if ascii_eqb c (chr 47) then last_segment_from [] s'
      else last_segment_from (c :: cur) s'
  end.

Definition split_last (v : value) : result str :=
  match v with
  | VStr s => Ok (last_segment_from [] s)
  | _ => Raise AttributeError
  end.

Definition no_alerts : value := VDict [(lit "features", VList [])].

Definition get_weather_alerts {W} (fx : effects W) (lat lon : str)
  : io W value :=
  io_try
    (response <~ http_json fx (VStr (points_url lat lon)) ;;
     zone_id <~ io_lift
       (zone <- property_of response "forecastZone" ;; split_last zone) ;;
     http_json fx
       (VStr (NWS_API_BASE ++ lit "/alerts/active/zone/" ++ zone_id)))
    (io_ret no_alerts).

(** One of the other forecasts: the answer, or the empty mapping when the
    fetch fails. *)
Definition fetch_or_empty {W} (fx : effects W) (url : value) : io W value :=
  io_try (http_json fx url) (io_ret empty_dict).

Definition get_weather_data {W} (fx : effects W) (station_data : value)
  : io W value :=
  station_id <~ io_lift (subscript station_data (lit "station_id")) ;;
  station <~ io_lift (py_str station_id) ;;
  current <~ http_json fx
    (VStr (NWS_API_BASE ++ lit "/stations/" ++ station
           ++ lit "/observations/latest")) ;;
  hourly_url <~ io_lift (subscript station_data (lit "forecast_hourly")) ;;
  forecast_url <~ io_lift (subscript station_data (lit "forecast")) ;;
  grid_url <~ io_lift (subscript station_data (lit "forecast_grid")) ;;
  hourly <~ fetch_or_empty fx hourly_url ;;
  forecast <~ fetch_or_empty fx forecast_url ;;
  grid <~ fetch_or_empty fx grid_url ;;
  io_ret (VDict [(lit "current", current); (lit "hourly", hourly);
                 (lit "forecast", forecast); (lit "grid", grid)]).

(** ** Saving to the store *)

(** [f'weather_data_{date}.csv'] *)
Definition file_name (date : str) : str :=
  lit "weather_data_" ++ date ++ lit ".csv".

(** [save_consolidated_data] with the store around it: the day's object is
    fetched, merged with the record and put back. *)
Definition save_to_store {W} (fx : effects W) (data : record) : io W unit :=
  fun w =>
    let name := file_name (fst (clock fx w)) in
    let '(w1, existing) := s3_get_text fx name w in
    match save_consolidated_data existing data with
    | Ok body => s3_put_text fx name body w1
    | Raise e => (w1, Raise e)
    end.

(** ** [lambda_handler] *)

Record region : Type := mkRegion {
  name : str;
  lat : str;
  lon : str
}.

(** The regions of the source, without their descriptions. *)
Definition REGIONS : list region :=
  map (fun r => mkRegion (lit (fst (fst r))) (lit (snd (fst r))) (lit (snd r)))
    [("UMass_Dartmouth", "41.6297", "-71.0068");
     ("NYC_Central_Park", "40.7829", "-73.9654");
     ("Mount_Washington_NH", "44.2706", "-71.3033");
     ("Miami_FL", "25.7617", "-80.1918");
     ("New_Orleans_LA", "29.9511", "-90.0715");
     ("Oklahoma_City_OK", "35.4676", "-97.5164");
     ("Chicago_IL", "41.8781", "-87.6298");
     ("Denver_CO", "39.7392", "-104.9903");
     ("Salt_Lake_City_UT", "40.7608", "-111.8910");
     ("Seattle_WA", "47.6062", "-122.3321");
     ("San_Francisco_CA", "37.7749", "-122.4194");
     ("Phoenix_AZ", "33.4484", "-112.0740");
     ("Anchorage_AK", "61.2181", "-149.9003");
     ("Honolulu_HI", "21.3069", "-157.8583")]%string.

(** [raw_weather_data['alerts'] = alerts_data] *)
Definition set_item (d : value) (k : str) (v : value) : result value :=
  match d with
  | VDict entries => Ok (VDict (dict_set entries k v))
  | _ => Raise TypeError
  end.

(** The record of one region: fetched, normalised and stamped with the
    start of the run. *)
Definition region_record {W} (fx : effects W) (execution_start : str)
    (r : region) : io W record :=
  station_data <~ get_station_data fx (lat r) (lon r) ;;
  raw_weather_data <~ get_weather_data fx station_data ;;
  alerts_data <~ get_weather_alerts fx (lat r) (lon r) ;;
  raw_weather_data <~ io_lift
    (set_item raw_weather_data (lit "alerts") alerts_data) ;;
  processed_data <~
    (fun w => (w, process_weather_data (timestamp_of (clock fx w))
                    raw_weather_data (name r))) ;;
  io_ret (dict_set processed_data (lit "execution_timestamp")
            (VStr execution_start)).

(** The body of the [try] of the loop, after the pause. *)
Definition region_pipeline {W} (fx : effects W) (execution_start : str)
    (r : region) : io W unit :=
  processed_data <~ region_record fx execution_start r ;;
  save_to_store fx processed_data.

(** The counters and the result lists of the loop. *)
Record tally : Type := mkTally {
  processed_regions : nat;
  failed_regions : nat;
  results_successful : list str;
  results_failed : list (str * exn)
}.

Definition empty_tally : tally := mkTally 0 0 [] [].

(** One turn of the loop over the regions. *)
Definition handle_region {W} (fx : effects W) (execution_start : str)
    (st : W * tally) (r : region) : W * tally :=
  let '(w, t) := st in
  let w := if (0 <? processed_regions t)%nat then sleep fx w else w in
  match region_pipeline fx execution_start r w with
  | (w', Ok _) =>
      (w', mkTally (S (processed_regions t)) (failed_regions t)
             (results_successful t ++ [name r]) (results_failed t))
  | (w', Raise e) =>
      (w', mkTally (processed_regions t) (S (failed_regions t))
             (results_successful t) (results_failed t ++ [(name r, e)]))
  end.

Definition run_regions {W} (fx : effects W) (execution_start : str)
    (regions : list region) (w : W) : W * tally :=
  fold_left (handle_region fx execution_start) regions (w, empty_tally).

(** What the handler returns: the status code and the body, as its parts. *)
Record response : Type := mkResponse {
  statusCode : Z;
  execution_start_of : str;
  execution_end_of : str;
  body : tally
}.

Definition lambda_handler {W} (fx : effects W) (w : W) : W * response :=
  let execution_start := timestamp_of (clock fx w) in
  let '(w', t) := run_regions fx execution_start REGIONS w in
  (w', mkResponse 200 execution_start (timestamp_of (clock fx w')) t).

(** ** Sample worlds *)

(** A world where every request fails; its state counts the pauses. *)
Definition offline : effects nat :=
  mkEffects (fun _ w => (w, Raise ValueError))
            (fun _ w => (w, Raise NoSuchKey))
            (fun _ _ w => (w, Ok tt))
            (fun _ => (lit "2024-01-01", lit "00:00:00"))
            S.

(** A world that answers every request with the same document and keeps
    the day's object as its state. *)
Definition sample_document : value :=
  VDict [(lit "properties",
          VDict [(lit "observationStations", VStr (lit "https://api.weather.gov/stations"));
                 (lit "forecastGridData", VStr (lit "https://api.weather.gov/grid"));
                 (lit "forecastHourly", VStr (lit "https://api.weather.gov/hourly"));
                 (lit "forecast", VStr (lit "https://api.weather.gov/forecast"));
                 (lit "forecastZone", VStr (lit "https://api.weather.gov/zones/forecast/AZZ544"));
                 (lit "stationIdentifier", VStr (lit "KPHX"));
                 (lit "temperature", VDict [(lit "value", VInt 20)])]);
         (lit "features",
          VList [VDict [(lit "properties",
                         VDict [(lit "stationIdentifier", VStr (lit "KPHX"))])]])].

Definition online : effects (option str) :=
  mkEffects (fun _ w => (w, Ok sample_document))
            (fun _ w => (w, match w with
                            | Some text => Ok text
                            | None => Raise NoSuchKey
                            end))
            (fun _ text _ => (Some text, Ok tt))
            (fun _ => (lit "2024-01-01", lit "00:00:00"))
            (fun w => w).

(** Every attempt of the run fails, each in the world the one before
    left. *)
Fixpoint all_fail {W} (fx : effects W) (execution_start : str)
    (regions : list region) (w : W) : Prop :=
  match regions with
  | [] => True
  | r :: regions' =>
      raises (snd (region_pipeline fx execution_start r w))
      /\ all_fail fx execution_start regions'
           (fst (region_pipeline fx execution_start r w))
  end.

(** The counters count the entries of the result lists. *)
Definition consistent (t : tally) : Prop :=
  length (results_successful t) = processed_regions t
  /\ length (results_failed t) = failed_regions t.

(** A world where only the first request of a run is answered; its state
    counts the requests. *)
Definition flaky : effects nat :=
  mkEffects (fun _ w => (S w, if (w =? 0)%nat then Ok sample_document
                              else Raise ValueError))
            (fun _ w => (w, Raise NoSuchKey))
            (fun _ _ w => (w, Ok tt))
            (fun _ => (lit "2024-01-01", lit "00:00:00"))
            (fun w => w).

Definition sample_station_data : value :=
  VDict [(lit "station_id", VStr (lit "KPHX"));
         (lit "forecast_grid", VStr (lit "https://api.weather.gov/grid"));
         (lit "forecast_hourly", VStr (lit "https://api.weather.gov/hourly"));
         (lit "forecast", VStr (lit "https://api.weather.gov/forecast"))].

(** [v] is what fetching [url] in [w] gives: the answer, or the empty
    mapping when the fetch raises; [w'] is the world after the fetch. *)
Definition answer_or_empty {W} (fx : effects W) (url : value) (w : W)
    (v : value) (w' : W) : Prop :=
  http_json fx url w = (w', Ok v)
  \/ (v = empty_dict /\ exists e, http_json fx url w = (w', Raise e)).

Definition observation_url (station : str) : value :=
  VStr (NWS_API_BASE ++ lit "/stations/" ++ station
        ++ lit "/observations/latest").

(** ** The store as a state of the world *)

(** [store w n] is the text of the object named [n] in the world [w]. The
    operations of [fx] behave as a store: fetching gives the text or
    [NoSuchKey] and changes nothing; putting succeeds and changes no object
    but to the text put; requests and pauses leave the store alone. *)
Definition store_like {W} (fx : effects W) (store : W -> str -> option str)
  : Prop :=
  (forall n w,
      s3_get_text fx n w
      = (w, match store w n with
            | Some text => Ok text
            | None => Raise NoSuchKey
            end))
  /\ (forall n text w,
        exists w', s3_put_text fx n text w = (w', Ok tt)
                   /\ forall n', store w' n' = Some text
                                 \/ store w' n' = store w n')
  /\ (forall url w n, store (fst (http_json fx url w)) n = store w n)
  /\ (forall w n, store (sleep fx w) n = store w n).

(** The text is a dataset as the merge writes it: the header line and rows
    of one cell per column; it is a valid dataset when none of its cells is
    longer than the reader's limit. *)
Definition written_dataset (text : str) : Prop :=
  exists written,
    text = dataset_text written
    /\ Forall (fun cells => length cells = 23%nat) written
    /\ (rows_fit written = true ->
        valid_dataset text (map (make_row FIELDNAMES) written)).

(** Every object of the store is a dataset as the merge writes it. *)
Definition store_written {W} (store : W -> str -> option str) (w : W) : Prop :=
  forall n text, store w n = Some text -> written_dataset text.

(** The computation leaves the store as it is. *)
Definition keeps_store {W A} (store : W -> str -> option str) (m : io W A)
  : Prop :=
  forall w n, store (fst (m w)) n = store w n.

(** * Properties *)

(** ** The nested lookup *)

Lemma safe_get_loop_returns (keys : list str) :
  forall cur default, returns (safe_get_loop cur keys default).
Proof.
  induction keys as [|key keys IH]; intros cur default; simpl.
  - eexists; reflexivity.
  - destruct cur; simpl; try (eexists; reflexivity). apply IH.
Qed.

(** The lookup never raises, whatever the shape of its input. *)
Lemma safe_get_value_returns (data : value) (keys : list str) (default : value) :
  returns (safe_get_value data keys default).
Proof.
  unfold safe_get_value.
  destruct (safe_get_loop_returns keys (py_or data empty_dict) default) as [v Hv].
  rewrite Hv. exists v. reflexivity.
Qed.

(** A step that meets a truthy value that is no mapping gives the default. *)
Lemma safe_get_value_type_mismatch (data : value) (key : str)
    (keys : list str) (default : value) :
  truthy data = true -> is_mapping data = false ->
  safe_get_value data (key :: keys) default = Ok default.
Proof.
  intros Ht Hm. unfold safe_get_value, py_or. rewrite Ht. simpl.
  rewrite Hm. reflexivity.
Qed.

(** A key bound to [None] at the last step gives the default. *)
Lemma safe_get_value_null (d : list (str * value)) (key : str) (default : value) :
  d <> [] -> dict_lookup d key = Some VNone ->
  safe_get_value (VDict d) [key] default = Ok default.
Proof.
  intros Hd Hk. unfold safe_get_value, py_or.
  assert (E : truthy (VDict d) = true) by (destruct d; [congruence | reflexivity]).
  rewrite E. unfold safe_get_loop, method_get, bind. simpl is_mapping. cbv iota.
  simpl negb. cbv iota. rewrite Hk. reflexivity.
Qed.

(** Once a key is missing, the lookup carries the empty mapping to the end:
    the result is the empty mapping, not the default. *)
Lemma safe_get_loop_empty (keys : list str) (default : value) :
  safe_get_loop empty_dict keys default = Ok empty_dict.
Proof. induction keys as [|k keys IH]; [reflexivity | exact IH]. Qed.

Lemma safe_get_value_missing_key (d : list (str * value)) (key : str)
    (keys : list str) (default : value) :
  dict_lookup d key = None ->
  safe_get_value (VDict d) (key :: keys) default = Ok empty_dict.
Proof.
  intros Hk. unfold safe_get_value, py_or.
  assert (E : (if truthy (VDict d) then VDict d else empty_dict) = VDict d).
  { destruct d; reflexivity. }
  rewrite E. change (safe_get_loop (VDict d) (key :: keys) default)
    with (next <- method_get (VDict d) key empty_dict ;;
          safe_get_loop next keys default).
  unfold method_get, bind. rewrite Hk, safe_get_loop_empty. reflexivity.
Qed.

(** C1: the nested lookup never raises, but on a missing key it returns the
    empty mapping where the specification asks for the supplied default: looking up
    temperature, value in the empty mapping with the empty string as default
    returns the empty mapping. *)
Theorem safe_get_value_missing_key_not_default :
  safe_get_value empty_dict [lit "temperature"; lit "value"] empty_str
  = Ok empty_dict
  /\ empty_dict <> empty_str.
Proof. split; [reflexivity | discriminate]. Qed.

(** ** Numeric formatting and the Fahrenheit conversion *)

Lemma format_number_none : format_number VNone = Ok empty_str.
Proof. reflexivity. Qed.

Lemma format_number_empty : format_number empty_str = Ok empty_str.
Proof. reflexivity. Qed.

(** A non-empty string that [float()] rejects passes through unchanged. *)
Lemma format_number_non_numeric (s : str) :
  s <> [] -> parse_float s = None ->
  format_number (VStr s) = Ok (VStr s).
Proof.
  intros Hs Hp. unfold format_number.
  destruct s as [|c s]; [congruence|]. simpl orb. cbv iota.
  unfold py_float. rewrite Hp. reflexivity.
Qed.

(** Containers and other values [float()] does not accept pass through. *)
Lemma format_number_mapping (d : list (str * value)) :
  format_number (VDict d) = Ok (VDict d).
Proof. reflexivity. Qed.

(** A string that parses to a finite float comes back as the integer when
    the float equals its truncation, as the float otherwise. *)
Lemma format_number_finite (s : str) (m e : Z) :
  s <> [] -> parse_float s = Some (FFin m e) ->
  format_number (VStr s)
  = Ok (let i := if 0 <=? e then m * 10 ^ e else Z.quot m (10 ^ (- e)) in
        if float_ne_int (FFin m e) i then VFloat (FFin m e) else VInt i).
Proof.
  intros Hs Hp. unfold format_number.
  destruct s as [|c s]; [congruence|]. simpl orb. cbv iota.
  unfold py_float. rewrite Hp. cbn [bind py_int_of_float].
  destruct (float_ne_int _ _); reflexivity.
Qed.

Example format_number_integral :
  format_number (VStr (lit "72.0")) = Ok (VInt 72).
Proof. reflexivity. Qed.

Example format_number_fractional :
  format_number (VStr (lit "71.6")) = Ok (VFloat (FFin 716 (-1))).
Proof. reflexivity. Qed.

Example format_number_nan_unchanged :
  format_number (VStr (lit "nan")) = Ok (VStr (lit "nan")).
Proof. reflexivity. Qed.

(** C3: the input string inf converts to a float, and truncating an infinite
    float to an integer raises OverflowError, which the handler of
    format_number (ValueError, TypeError) does not catch: the call raises
    instead of returning. *)
Theorem format_number_inf_raises :
  format_number (VStr (lit "inf")) = Raise OverflowError
  /\ format_number (VFloat (FInf false)) = Raise OverflowError.
Proof. split; reflexivity. Qed.

Example fahrenheit_of_zero now region :
  exists r, process_weather_data now (bundle_of (with_celsius (VInt 0))) region = Ok r
    /\ field r "temperature_celsius" = Some (VInt 0)
    /\ field r "temperature_fahrenheit" = Some (VInt 32).
Proof. eexists. split; [reflexivity|]. split; reflexivity. Qed.

Example fahrenheit_of_hundred now region :
  exists r, process_weather_data now (bundle_of (with_celsius (VInt 100))) region = Ok r
    /\ field r "temperature_fahrenheit" = Some (VInt 212).
Proof. eexists. split; reflexivity. Qed.

Example fahrenheit_of_38 now region :
  exists r,
    process_weather_data now (bundle_of (with_celsius (VFloat (FFin 38 0)))) region = Ok r
    /\ field r "temperature_celsius" = Some (VInt 38)
    /\ field r "temperature_fahrenheit" = Some (VFloat (FFin 1004 (-1)))
    /\ field r "has_alerts" = Some (VStr (lit "No")).
Proof. eexists. split; [reflexivity|]. repeat split; reflexivity. Qed.

(** The test of the conditional never fails: the probing lookup has the
    empty string as default and so never returns [None]. *)
Lemma fahrenheit_probe_not_none (current : value) :
  exists v, safe_get_value current [lit "temperature"; lit "value"] empty_str = Ok v
            /\ is_none v = false.
Proof.
  unfold safe_get_value.
  set (start := py_or current empty_dict). clearbody start.
  destruct start; try (eexists; split; reflexivity).
  cbn -[dict_lookup]. destruct (dict_lookup d _) as [t|].
  - destruct t; try (eexists; split; reflexivity).
    cbn -[dict_lookup]. destruct (dict_lookup d0 _) as [x|];
      [destruct x|]; eexists; split; reflexivity.
  - eexists; split; reflexivity.
Qed.

(** C2: a Celsius value that is present but null is replaced by the default
    0 before the conversion: the record has an empty Celsius field and
    Fahrenheit 32, where the specification asks for the empty marker. *)
Theorem fahrenheit_of_null_is_32 :
  forall now region, exists r,
    process_weather_data now (bundle_of (with_celsius VNone)) region = Ok r
    /\ field r "temperature_celsius" = Some empty_str
    /\ field r "temperature_fahrenheit" = Some (VInt 32).
Proof. intros. eexists. split; [reflexivity|]. split; reflexivity. Qed.

(** ** A missing temperature key *)

Lemma fahrenheit_arg_missing (props : list (str * value)) :
  dict_lookup props (lit "temperature") = None ->
  fahrenheit_arg (VDict props) = Raise TypeError.
Proof.
  intros H. unfold fahrenheit_arg.
  rewrite !safe_get_value_missing_key by exact H. reflexivity.
Qed.

Lemma observed_missing (props : list (str * value)) (name : string) :
  dict_lookup props (lit name) = None ->
  observed (VDict props) name = Ok empty_dict.
Proof.
  intros H. unfold observed.
  rewrite safe_get_value_missing_key by exact H. reflexivity.
Qed.

Ltac step_bind :=
  match goal with
  | |- raises (bind ?m _) =>
      let E := fresh "E" in
      destruct m eqn:E; cbn [bind]; [| eexists; reflexivity]
  end.

(** C10: when the properties of the current observation have no temperature
    key, normalisation raises: no record is produced. *)
Theorem missing_temperature_raises
    (now : str) (raw cur : value) (props : list (str * value)) (region : str) :
  method_get raw (lit "current") empty_dict = Ok cur ->
  method_get cur (lit "properties") empty_dict = Ok (VDict props) ->
  dict_lookup props (lit "temperature") = None ->
  raises (process_weather_data now raw region).
Proof.
  intros Hcur Hprops Hmiss. unfold process_weather_data.
  rewrite Hcur. cbn [bind]. rewrite Hprops. cbn [bind].
  do 6 step_bind.
  rewrite observed_missing by exact Hmiss. cbn [bind].
  rewrite fahrenheit_arg_missing by exact Hmiss. cbn [bind].
  eexists; reflexivity.
Qed.

Lemma missing_temperature_raises_witness :
  raises (process_weather_data (lit "2024-01-01 00:00:00")
            (bundle_of (VDict [(lit "relativeHumidity", VDict [(lit "value", VInt 10)])]))
            (lit "Phoenix_AZ")).
Proof.
  eapply (missing_temperature_raises _ _ _ _ (lit "Phoenix_AZ"));
    [reflexivity | reflexivity | reflexivity].
Defined.

(** With the pieces of the bundle well formed, the exception is the
    TypeError of multiplying a mapping by nine. *)
Example missing_temperature_type_error now region :
  process_weather_data now (bundle_of (VDict [])) region = Raise TypeError.
Proof. reflexivity. Qed.

(** ** The cleaner *)

(** The loop reaches its exit from every string. *)
Lemma collapse_loop_run (s : str) : loop_run s (collapse_loop s).
Proof.
  apply (collapse_loop_elim (fun s r => loop_run s r)).
  - intros t H IH _. now apply loop_iter.
  - intros t H _. now apply loop_exit.
Qed.

Lemma loop_run_deterministic (s r1 r2 : str) :
  loop_run s r1 -> loop_run s r2 -> r1 = r2.
Proof.
  intros H1. revert r2.
  induction H1 as [s H|s r H _ IH]; intros r2 H2; inversion H2; subst;
    try congruence.
  now apply IH.
Qed.

Lemma is_quote_eq (c : ascii) : is_quote c = true -> c = c_quote.
Proof. unfold is_quote, ascii_eqb. apply Ascii.eqb_eq. Qed.

Lemma collapse_runs_cons (a : ascii) (u : str) :
  collapse_runs (a :: u)
  = if is_quote a && starts_with_quote u then collapse_runs u
    else a :: collapse_runs u.
Proof.
  destruct u as [|b u]; simpl.
  - now rewrite andb_false_r.
  - reflexivity.
Qed.

Lemma replace_doubled_quote_head (s : str) :
  starts_with_quote (replace_doubled_quote s) = starts_with_quote s.
Proof.
  destruct s as [|a [|b s]]; try reflexivity. simpl.
  destruct (is_quote a) eqn:Ha, (is_quote b); simpl; auto.
Qed.

Lemma collapse_runs_stable (s : str) :
  has_doubled_quote s = false -> collapse_runs s = s.
Proof.
  induction s as [|a [|b t] IH]; try reflexivity.
  intros H. simpl in H. apply orb_false_elim in H as [H1 H2].
  rewrite collapse_runs_cons. simpl starts_with_quote. rewrite H1.
  now rewrite IH.
Qed.

Lemma collapse_runs_replace (s : str) :
  collapse_runs (replace_doubled_quote s) = collapse_runs s.
Proof.
  assert (H : forall n (t : str), (length t <= n)%nat ->
            collapse_runs (replace_doubled_quote t) = collapse_runs t).
  { induction n as [|n IH]; intros [|a [|b t]] Hn; simpl in Hn;
      try reflexivity; try lia.
    change (replace_doubled_quote (a :: b :: t))
      with (if is_quote a && is_quote b
            then c_quote :: replace_doubled_quote t
            else a :: replace_doubled_quote (b :: t)).
    destruct (is_quote a && is_quote b) eqn:E.
    - apply andb_prop in E as [Ha Hb].
      apply is_quote_eq in Ha, Hb. subst a b.
      rewrite !collapse_runs_cons, replace_doubled_quote_head.
      rewrite (IH t) by lia. simpl starts_with_quote.
      change (is_quote c_quote) with true. simpl andb.
      destruct (starts_with_quote t); reflexivity.
    - rewrite (collapse_runs_cons a (replace_doubled_quote (b :: t))).
      rewrite (collapse_runs_cons a (b :: t)).
      rewrite replace_doubled_quote_head, (IH (b :: t)) by (simpl; lia).
      reflexivity. }
  apply (H (length s)). lia.
Qed.

(** The loop computes the one-pass collapse of the runs of quotes. *)
Lemma collapse_loop_runs (s : str) : collapse_loop s = collapse_runs s.
Proof.
  apply (collapse_loop_elim (fun s r => r = collapse_runs s)).
  - intros t H IH _. now rewrite IH, collapse_runs_replace.
  - intros t H _. symmetry. now apply collapse_runs_stable.
Qed.

Lemma collapse_loop_no_doubled_quote (s : str) :
  has_doubled_quote (collapse_loop s) = false.
Proof.
  apply (collapse_loop_elim (fun _ r => has_doubled_quote r = false)).
  - intros t H IH _. exact IH.
  - intros t H _. exact H.
Qed.

(** *** The digit limit of [str()] *)

Lemma digits_upto_grows (fuel : nat) :
  forall (n : Z) (acc : str),
    (length acc < length (digits_upto fuel n acc))%nat \/ fuel = O.
Proof.
  induction fuel as [|fuel IH]; intros n acc; [now right|left]. simpl.
  destruct (n / 10 =? 0); simpl; [lia|].
  destruct (IH (n / 10) (chr (48 + Z.to_nat (n mod 10)) :: acc)) as [H| ->];
    simpl in *; lia.
Qed.

Lemma pow10_succ (k : nat) : 10 ^ Z.of_nat (S k) = 10 * 10 ^ Z.of_nat k.
Proof. rewrite Nat2Z.inj_succ, Z.pow_succ_r; lia. Qed.

Lemma pow10_nat_pos (k : nat) : 0 < 10 ^ Z.of_nat k.
Proof. apply Z.pow_pos_nonneg; lia. Qed.

(** A number below [10^k] has at most [k] digits. *)
Lemma digits_upto_at_most (fuel : nat) :
  forall (n : Z) (acc : str) (k : nat),
    0 <= n < 10 ^ Z.of_nat k -> (1 <= k)%nat ->
    (length (digits_upto fuel n acc) <= length acc + k)%nat.
Proof.
  induction fuel as [|fuel IH]; intros n acc k Hn Hk; simpl; [lia|].
  destruct (n / 10 =? 0) eqn:Hq; simpl; [lia|].
  apply Z.eqb_neq in Hq.
  destruct k as [|[|k]]; [lia| |].
  - exfalso. apply Hq, Z.div_small. change (10 ^ Z.of_nat 1) with 10 in Hn. lia.
  - specialize (IH (n / 10) (chr (48 + Z.to_nat (n mod 10)) :: acc) (S k)).
    simpl length in IH.
    assert (H : 0 <= n / 10 < 10 ^ Z.of_nat (S k)).
    { split; [apply Z.div_pos; lia|].
      apply Z.div_lt_upper_bound; [lia|]. rewrite <- pow10_succ. lia. }
    specialize (IH H). lia.
Qed.

(** A number from [10^k] on has more than [k] digits, given the fuel. *)
Lemma digits_upto_more_than (k : nat) :
  forall (fuel : nat) (n : Z) (acc : str),
    10 ^ Z.of_nat k <= n -> (k < fuel)%nat ->
    (length acc + k < length (digits_upto fuel n acc))%nat.
Proof.
  induction k as [|k IH]; intros fuel n acc Hn Hf.
  - destruct (digits_upto_grows fuel n acc) as [H|H]; lia.
  - destruct fuel as [|fuel]; [lia|]. simpl.
    rewrite pow10_succ in Hn. pose proof (pow10_nat_pos k) as Hp.
    assert (Hq : 10 ^ Z.of_nat k <= n / 10)
      by (apply Z.div_le_lower_bound; lia).
    destruct (n / 10 =? 0) eqn:E; [apply Z.eqb_eq in E; lia|].
    specialize (IH fuel (n / 10) (chr (48 + Z.to_nat (n mod 10)) :: acc) Hq).
    simpl length in IH. lia.
Qed.

Lemma log2_pow10 (k : nat) (n : Z) :
  10 ^ Z.of_nat k <= n -> (k <= Z.to_nat (Z.log2 n))%nat.
Proof.
  intros H. pose proof (pow10_nat_pos k) as Hp.
  assert (H2 : 2 ^ Z.of_nat k <= n).
  { etransitivity; [|exact H]. apply Z.pow_le_mono_l. lia. }
  apply Z.log2_le_pow2 in H2; lia.
Qed.

(** The limit in numbers: an int is over it exactly from [10^4300] on. *)
Lemma int_over_limit_spec (n : Z) :
  int_over_limit n = true <-> 10 ^ Z.of_nat INT_MAX_STR_DIGITS <= Z.abs n.
Proof.
  unfold int_over_limit, str_of_nonneg. rewrite Nat.ltb_lt.
  assert (Hk : (1 <= INT_MAX_STR_DIGITS)%nat) by (unfold INT_MAX_STR_DIGITS; lia).
  generalize dependent INT_MAX_STR_DIGITS. intros k Hk.
  set (fuel := S (Z.to_nat (Z.log2 (Z.abs n)))). split.
  - intros H.
    destruct (Z.le_gt_cases (10 ^ Z.of_nat k) (Z.abs n))
      as [Hle|Hlt]; [exact Hle|exfalso].
    assert (Hn : 0 <= Z.abs n < 10 ^ Z.of_nat k) by lia.
    pose proof (digits_upto_at_most fuel (Z.abs n) [] k Hn Hk) as Hm.
    cbn [length] in Hm. lia.
  - intros H.
    assert (Hf : (k < fuel)%nat) by (apply log2_pow10 in H; subst fuel; lia).
    pose proof (digits_upto_more_than k fuel (Z.abs n) [] H Hf) as Hm.
    cbn [length] in Hm. lia.
Qed.

Lemma py_str_int (n : Z) :
  py_str (VInt n)
  = if int_over_limit n then Raise ValueError else Ok (str_of_Z n).
Proof. reflexivity. Qed.

(** C4, as the code has it: the cleaner returns a string for None, for a
    boolean, for a float, for every string and for every int below
    [10^4300]; for an int of more digits the conversion to text raises
    [ValueError]. For a string the loop that collapses doubled quotes runs
    to its exit, after which the result is built from the string it ends
    with. *)
Theorem clean_value_total :
  clean_value VNone = Ok []
  /\ (forall b : bool,
        clean_value (VBool b) = Ok (if b then lit "True" else lit "False"))
  /\ (forall n : Z,
        Z.abs n < 10 ^ Z.of_nat INT_MAX_STR_DIGITS ->
        clean_value (VInt n) = Ok (str_of_Z n))
  /\ (forall n : Z,
        10 ^ Z.of_nat INT_MAX_STR_DIGITS <= Z.abs n ->
        clean_value (VInt n) = Raise ValueError)
  /\ (forall f : pyfloat, clean_value (VFloat f) = Ok (repr_float f))
  /\ (forall s : str, exists mid : str,
        loop_run (unbroken s) mid
        /\ has_doubled_quote mid = false
        /\ clean_value (VStr s) = Ok (quote_if_needed mid)).
Proof.
  split; [reflexivity|].
  split; [intros [|]; reflexivity|].
  split.
  { intros n Hn. cbn [clean_value]. rewrite py_str_int.
    destruct (int_over_limit n) eqn:E; [|reflexivity].
    apply int_over_limit_spec in E. lia. }
  split.
  { intros n Hn. cbn [clean_value]. rewrite py_str_int.
    apply int_over_limit_spec in Hn. now rewrite Hn. }
  split; [reflexivity|].
  intros s. exists (collapse_loop (unbroken s)).
  split; [apply collapse_loop_run|].
  split; [apply collapse_loop_no_doubled_quote | reflexivity].
Qed.

(** A small int and the largest int of 4300 digits are within the limit. *)
Lemma clean_value_total_witness :
  clean_value (VInt (-72)) = Ok (lit "-72")
  /\ clean_value (VInt (10 ^ 4300 - 1)) = Ok (str_of_Z (10 ^ 4300 - 1)).
Proof.
  destruct clean_value_total as [_ [_ [H _]]].
  split; apply H; vm_compute; reflexivity.
Defined.

(** An int of 4301 digits is a value the cleaner raises on. *)
Lemma clean_value_raises_on_long_int :
  clean_value (VInt (10 ^ 4300)) = Raise ValueError
  /\ ~ returns (clean_value (VInt (10 ^ 4300))).
Proof.
  assert (E : int_over_limit (10 ^ 4300) = true).
  { apply int_over_limit_spec. vm_compute. discriminate. }
  assert (H : clean_value (VInt (10 ^ 4300)) = Raise ValueError).
  { cbn [clean_value]. rewrite py_str_int. now rewrite E. }
  split; [exact H|]. rewrite H. intros [s Hs]. discriminate.
Qed.

Lemma replace_char_remove (c : ascii) (s : str) :
  replace_char c [] s = remove_char c s.
Proof.
  induction s as [|x s IH]; [reflexivity|]. simpl.
  destruct (ascii_eqb x c); simpl; now rewrite IH.
Qed.

Lemma replace_char_map (c d : ascii) (s : str) :
  replace_char c [d] s = map (fun x => if ascii_eqb x c then d else x) s.
Proof.
  induction s as [|x s IH]; [reflexivity|]. simpl.
  destruct (ascii_eqb x c); simpl; now rewrite IH.
Qed.

Lemma quote_if_needed_wrap (t : str) :
  quote_if_needed t = wrap_if_needed (strip_chars [c_quote] t).
Proof.
  unfold quote_if_needed, wrap_if_needed.
  now rewrite replace_char_remove.
Qed.

(** C5, as the code has it: the cleaner trims the string, replaces every
    line feed by a space and removes carriage returns, collapses every run
    of quotes to one quote, strips outer quotes and, exactly when a comma
    or a quote remains, wraps the result in quotes without its backticks. *)
Theorem clean_value_string (s : str) :
  clean_value (VStr s) = Ok (clean_with_spaces s).
Proof.
  unfold clean_value, clean_str, clean_with_spaces, unbroken.
  rewrite quote_if_needed_wrap, collapse_loop_runs.
  now rewrite replace_char_remove, replace_char_map.
Qed.

(** A line feed inside the text is not removed: it becomes a space. *)
Lemma clean_value_keeps_a_space :
  let s := lit "a" ++ [c_lf] ++ lit "b" in
  clean_value (VStr s) = Ok (lit "a b")
  /\ clean_as_specified s = lit "ab"
  /\ clean_value (VStr s) <> Ok (clean_as_specified s).
Proof. split; [reflexivity|]. split; [reflexivity | discriminate]. Qed.

Example clean_value_wraps_comma :
  clean_value (VStr (lit "Sunny, hot"))
  = Ok ([c_quote] ++ lit "Sunny, hot" ++ [c_quote]).
Proof. reflexivity. Qed.

Example clean_value_keeps_backtick :
  clean_value (VStr (lit "x`y")) = Ok (lit "x`y")
  /\ clean_value (VStr (lit "x`,y")) = Ok ([c_quote] ++ lit "x,y" ++ [c_quote]).
Proof. split; reflexivity. Qed.

(** ** The merge *)

Lemma ascii_eqb_eq (a b : ascii) : ascii_eqb a b = true <-> a = b.
Proof. apply Ascii.eqb_eq. Qed.

Lemma str_eqb_eq (a b : str) : str_eqb a b = true <-> a = b.
Proof.
  revert b. induction a as [|x a IH]; intros [|y b]; simpl;
    try (split; [discriminate|discriminate]); [tauto|].
  rewrite andb_true_iff, ascii_eqb_eq, IH.
  split; [intros [-> ->]; reflexivity | intros H; inversion H; auto].
Qed.

Lemma str_eqb_refl (a : str) : str_eqb a a = true.
Proof. now apply str_eqb_eq. Qed.

Lemma str_eqb_sym (a b : str) : str_eqb a b = str_eqb b a.
Proof.
  destruct (str_eqb a b) eqn:E, (str_eqb b a) eqn:F; try reflexivity.
  - apply str_eqb_eq in E. subst. now rewrite str_eqb_refl in F.
  - apply str_eqb_eq in F. subst. now rewrite str_eqb_refl in E.
Qed.

Lemma has_key_of (row : record) (k k' : str) :
  entry_key row = Ok k -> has_key k' row = str_eqb k k'.
Proof. intros H. unfold has_key. now rewrite H. Qed.

Lemma tracks_nil : tracks [] [].
Proof. intros k. reflexivity. Qed.

Lemma tracks_duplicate (entries : list str) (before : list record)
    (row : record) (k : str) :
  tracks entries before -> entry_key row = Ok k -> mem k entries = true ->
  tracks entries (before ++ [row]).
Proof.
  intros Ht Hk Hm k'. rewrite existsb_app, <- Ht. simpl.
  rewrite (has_key_of _ _ k' Hk), orb_false_r.
  destruct (str_eqb k k') eqn:E; [|now rewrite orb_false_r].
  apply str_eqb_eq in E. subst k'. now rewrite Hm.
Qed.

Lemma tracks_new (entries : list str) (before : list record)
    (row : record) (k : str) :
  tracks entries before -> entry_key row = Ok k ->
  tracks (entries ++ [k]) (before ++ [row]).
Proof.
  intros Ht Hk k'. unfold mem. rewrite !existsb_app. fold (mem k' entries).
  rewrite Ht. simpl. now rewrite (has_key_of _ _ k' Hk), (str_eqb_sym k').
Qed.

(** The loop keeps the first occurrence of every key, in order, and never
    fails on rows that all have their key fields. *)
Lemma scan_rows_spec (rows : list record) :
  forall (before : list record) (entries : list str) (kept : list record),
    Forall (fun row => returns (entry_key row)) rows ->
    tracks entries before ->
    exists entries',
      scan_rows rows entries kept
      = (entries', kept ++ first_occurrences_from before rows, None)
      /\ tracks entries' (before ++ rows).
Proof.
  induction rows as [|row rows IH]; intros before entries kept Hall Ht.
  - exists entries. simpl. now rewrite !app_nil_r.
  - inversion Hall as [|? ? [k Hk] Hall']; subst.
    simpl. unfold seen_before. rewrite Hk, <- Ht.
    destruct (mem k entries) eqn:Hm.
    + destruct (IH (before ++ [row]) entries kept Hall'
                  (tracks_duplicate _ _ _ _ Ht Hk Hm)) as [e' [He' Ht']].
      exists e'. rewrite He'. rewrite <- app_assoc in Ht'. now split.
    + destruct (IH (before ++ [row]) (entries ++ [k]) (kept ++ [row]) Hall'
                  (tracks_new _ _ _ _ Ht Hk)) as [e' [He' Ht']].
      exists e'. rewrite He'. rewrite <- !app_assoc in *. now split.
Qed.

Lemma header_line_cons : exists c rest, header_line = c :: rest.
Proof. eexists. eexists. vm_compute. reflexivity. Qed.

Lemma is_empty_header_app (rest : str) : is_empty (header_line ++ rest) = false.
Proof. destruct header_line_cons as [c [l ->]]. reflexivity. Qed.

Lemma is_empty_header : is_empty header_line = false.
Proof. destruct header_line_cons as [c [l ->]]. reflexivity. Qed.

(** *** Rows that come from the reader clean without error *)

Lemma bind_ok {A B : Type} (m : result A) (k : A -> result B) (b : B) :
  bind m k = Ok b -> exists a, m = Ok a /\ k a = Ok b.
Proof. destruct m as [a|e]; [intros H; now exists a | discriminate]. Qed.

Lemma traverse_returns {A B} (f : A -> result B) (l : list A) :
  Forall (fun x => returns (f x)) l -> returns (traverse f l).
Proof.
  induction 1 as [|x l [y Hy] _ [ys Hys]]; [now exists []|].
  exists (y :: ys). simpl. now rewrite Hy, Hys.
Qed.

Lemma traverse_length {A B} (f : A -> result B) (l : list A) (r : list B) :
  traverse f l = Ok r -> length r = length l.
Proof.
  revert r. induction l as [|x l IH]; intros r H; simpl in *.
  - now injection H as <-.
  - apply bind_ok in H as (y & Hy & H). apply bind_ok in H as (ys & Hys & H).
    injection H as <-. simpl. now rewrite (IH ys Hys).
Qed.

Lemma dict_set_read_row (d : record) (k : str) (v : value) :
  read_row d -> textual v = true -> read_row (dict_set d k v).
Proof.
  intros Hd Hv. induction Hd as [|[k' v'] d Hkv Hd IH]; simpl.
  - now repeat constructor.
  - destruct (str_eqb k' k); constructor; auto.
Qed.

Lemma make_row_read_row (fieldnames row : list str) :
  read_row (make_row fieldnames row).
Proof.
  unfold make_row.
  assert (H1 : forall kvs d, read_row d ->
            read_row (fold_left (fun d kv => dict_set d (fst kv) (VStr (snd kv)))
                                kvs d)).
  { induction kvs as [|kv kvs IH]; intros d Hd; simpl; [exact Hd|].
    apply IH. now apply dict_set_read_row. }
  assert (H2 : forall ks d, read_row d ->
            read_row (fold_left (fun d k => dict_set d k VNone) ks d)).
  { induction ks as [|k ks IH]; intros d Hd; simpl; [exact Hd|].
    apply IH. now apply dict_set_read_row. }
  apply H2, H1. constructor.
Qed.

Lemma dict_reader_read_rows (text : str) (rows : list record)
    (err : option exn) :
  dict_reader text = (rows, err) -> Forall read_row rows.
Proof.
  unfold dict_reader. destruct (csv_reader text) as [[|fieldnames rest] e];
    intros H; injection H as <- _; [constructor|].
  apply Forall_forall. intros row Hin. apply in_map_iff in Hin as (c & <- & _).
  apply make_row_read_row.
Qed.

Lemma get_or_empty_textual (row : record) (k : str) :
  read_row row -> textual (get_or_empty row k) = true.
Proof.
  intros H. unfold get_or_empty.
  induction H as [|[k' v] row Hv _ IH]; simpl; [reflexivity|].
  destruct (str_eqb k' k); [exact Hv | exact IH].
Qed.

Lemma clean_value_textual (v : value) :
  textual v = true -> returns (clean_value v).
Proof. destruct v; try discriminate; intros _; eexists; reflexivity. Qed.

Lemma cleaned_cells_read_row (row : record) :
  read_row row -> returns (cleaned_cells row).
Proof.
  intros H. apply traverse_returns, Forall_forall. intros k _.
  now apply clean_value_textual, get_or_empty_textual.
Qed.

Lemma cleaned_cells_read_rows (rows : list record) :
  Forall read_row rows -> returns (traverse cleaned_cells rows).
Proof.
  intros H. apply traverse_returns.
  eapply Forall_impl; [|exact H]. apply cleaned_cells_read_row.
Qed.

Lemma cleaned_cells_length (row : record) (cells : list str) :
  cleaned_cells row = Ok cells -> length cells = 23%nat.
Proof. intros H. now apply traverse_length in H. Qed.

Lemma write_cleaned_ok (kept : list record) :
  forall (written : list (list str)) (output : str),
    traverse cleaned_cells kept = Ok written ->
    write_cleaned kept output
    = (output ++ concat (map write_row written), None).
Proof.
  induction kept as [|row kept IH]; intros written output H; simpl in *.
  - injection H as <-. simpl. now rewrite app_nil_r.
  - apply bind_ok in H as (c & Hc & H). apply bind_ok in H as (cs & Hcs & H).
    injection H as <-. rewrite Hc, (IH cs _ Hcs). simpl.
    now rewrite <- app_assoc.
Qed.

Lemma first_occurrences_from_incl (rows : list record) :
  forall before r, In r (first_occurrences_from before rows) -> In r rows.
Proof.
  induction rows as [|row rows IH]; intros before r; simpl; [tauto|].
  rewrite in_app_iff. intros [H|H].
  - destruct (seen_before before row); [destruct H|]. simpl in H. tauto.
  - right. eapply IH, H.
Qed.

(** The rows kept of a dataset that was read clean without error. *)
Lemma kept_rows_clean (text : str) (rows : list record) (err : option exn) :
  dict_reader text = (rows, err) ->
  returns (traverse cleaned_cells (first_occurrences rows)).
Proof.
  intros H. apply cleaned_cells_read_rows, Forall_forall. intros r Hr.
  apply dict_reader_read_rows in H. rewrite Forall_forall in H.
  apply H. eapply first_occurrences_from_incl, Hr.
Qed.

(** What the merge hands to the store for a valid existing dataset. *)
Lemma save_valid (text : str) (rows : list record) (data : record) (k : str) :
  valid_dataset text rows -> entry_key data = Ok k ->
  exists old,
    traverse cleaned_cells (first_occurrences rows) = Ok old
    /\ save_consolidated_data (Ok text) data
       = if existsb (has_key k) rows then Ok (dataset_text old)
         else new <- cleaned_cells data ;;
              Ok (dataset_text old ++ write_row new).
Proof.
  intros (Hcsv & Hread & Hall) Hk.
  destruct (kept_rows_clean text rows None Hread) as [old Hold].
  exists old. split; [exact Hold|].
  unfold save_consolidated_data, load_existing. rewrite Hcsv, Hread.
  destruct (scan_rows_spec rows [] [] [] Hall tracks_nil) as [e' [He' Ht']].
  rewrite He'. cbn [app]. fold (first_occurrences rows).
  rewrite (write_cleaned_ok _ old header_line Hold).
  cbn [bind]. rewrite Hk. cbn [bind].
  rewrite Ht'. cbn [app]. unfold dataset_text.
  destruct (existsb (has_key k) rows); cbn [negb]; [reflexivity|].
  now rewrite is_empty_header_app.
Qed.

(** What the merge hands to the store when there is nothing to merge into. *)
Lemma save_fresh (existing : result str) (data : record) (k : str) :
  absent_or_invalid existing -> entry_key data = Ok k ->
  save_consolidated_data existing data
  = new <- cleaned_cells data ;; Ok (header_line ++ write_row new).
Proof.
  intros [-> | (text & -> & Hcsv)] Hk;
    unfold save_consolidated_data, load_existing.
  - cbn [handled existsb exn_isinstance exn_eqb orb app bind].
    rewrite Hk. cbn [bind mem existsb negb].
    now rewrite is_empty_header.
  - rewrite Hcsv. cbn [bind]. rewrite Hk.
    cbn [bind mem existsb negb is_empty app]. reflexivity.
Qed.

(** C8: a stored object that is no dataset is not always recovered from.
    The text of an error page has a comma and so passes the sanity check;
    its lines are read as rows under the header [<html>], the first of them
    has no timestamp, and the merge raises [KeyError], which the handler of
    the inner [try] does not catch. Stored bytes that do not decode make
    the merge raise [UnicodeDecodeError] in the same way. In neither case
    is a fresh dataset produced, whatever the new record. *)
Theorem merge_does_not_recover_from_a_page :
  forall data : record,
    looks_like_csv sample_page = true
    /\ save_consolidated_data (Ok sample_page) data = Raise KeyError
    /\ save_consolidated_data (Raise UnicodeDecodeError) data
       = Raise UnicodeDecodeError.
Proof.
  intros data. split; [vm_compute; reflexivity|]. split.
  - unfold save_consolidated_data.
    remember (load_existing (Ok sample_page)) as loaded eqn:E.
    vm_compute in E. subst loaded. reflexivity.
  - reflexivity.
Qed.

(** Where the sanity check fails, or the object is absent, the merge does
    start afresh: the header line, then the new record only. *)
Lemma merge_starts_afresh_witness :
  let data := sample_record (lit "2024-01-01 00:00:00") (lit "Phoenix_AZ") in
  exists new,
    cleaned_cells data = Ok new
    /\ save_consolidated_data (Ok (lit "%PDF-1.4 not a dataset")) data
       = Ok (header_line ++ write_row new)
    /\ save_consolidated_data (Raise NoSuchKey) data
       = Ok (header_line ++ write_row new).
Proof.
  intros data.
  assert (Hk : entry_key data = Ok (lit "2024-01-01 00:00:00_Phoenix_AZ"))
    by (vm_compute; reflexivity).
  destruct (cleaned_cells data) as [new|e] eqn:Hnew;
    [|vm_compute in Hnew; discriminate].
  assert (Hpdf : absent_or_invalid (Ok (lit "%PDF-1.4 not a dataset"))).
  { right. eexists. split; [reflexivity | vm_compute; reflexivity]. }
  exists new. split; [reflexivity|]. split.
  - rewrite (save_fresh _ data _ Hpdf Hk). now rewrite Hnew.
  - rewrite (save_fresh _ data _ (or_introl eq_refl) Hk). now rewrite Hnew.
Qed.

(** C7: for a valid existing dataset and a new record whose key none of its
    rows has, the output is the header, then the existing rows that are the
    first of their key, in their order, then the new record as last row.
    Cleaning the existing rows never raises; the merge raises only what
    cleaning the new record raises. *)
Theorem merge_appends_after_existing
    (text : str) (rows : list record) (data : record) (k : str) :
  valid_dataset text rows ->
  entry_key data = Ok k ->
  existsb (has_key k) rows = false ->
  exists old,
    traverse cleaned_cells (first_occurrences rows) = Ok old
    /\ save_consolidated_data (Ok text) data
       = new <- cleaned_cells data ;; Ok (dataset_text (old ++ [new])).
Proof.
  intros Hv Hk Hnew.
  destruct (save_valid text rows data k Hv Hk) as (old & Hold & Hsave).
  exists old. split; [exact Hold|]. rewrite Hsave, Hnew.
  destruct (cleaned_cells data) as [new|e]; [|reflexivity]. cbn [bind].
  unfold dataset_text. rewrite map_app, concat_app. cbn [map concat].
  now rewrite app_nil_r, app_assoc.
Qed.

Lemma sample_dataset_valid :
  valid_dataset sample_dataset (fst (dict_reader sample_dataset)).
Proof.
  split; [vm_compute; reflexivity|].
  split; [vm_compute; reflexivity|].
  remember (fst (dict_reader sample_dataset)) as rows eqn:E.
  vm_compute in E. subst rows.
  repeat (apply Forall_cons; [eexists; reflexivity|]). apply Forall_nil.
Qed.

Lemma merge_appends_after_existing_witness :
  let data := sample_record (lit "2024-01-01 00:00:02") (lit "Denver_CO") in
  let rows := fst (dict_reader sample_dataset) in
  valid_dataset sample_dataset rows
  /\ exists old new,
       traverse cleaned_cells (first_occurrences rows) = Ok old
       /\ map cells_key old
          = [lit "2024-01-01 00:00:00_Phoenix_AZ"; lit "2024-01-01 00:00:01_Miami_FL"]
       /\ map (fun c => nth 2 c []) old = [lit "38"; lit "25"]
       /\ cleaned_cells data = Ok new
       /\ cells_key new = lit "2024-01-01 00:00:02_Denver_CO"
       /\ save_consolidated_data (Ok sample_dataset) data
          = Ok (dataset_text (old ++ [new])).
Proof.
  cbv zeta. split; [exact sample_dataset_valid|].
  destruct (merge_appends_after_existing sample_dataset
              (fst (dict_reader sample_dataset))
              (sample_record (lit "2024-01-01 00:00:02") (lit "Denver_CO"))
              (lit "2024-01-01 00:00:02_Denver_CO") sample_dataset_valid)
    as (old & Hold & Hsave); [vm_compute; reflexivity ..|].
  exists old. eexists.
  split; [exact Hold|].
  vm_compute in Hold. injection Hold as <-.
  split; [vm_compute; reflexivity|].
  split; [vm_compute; reflexivity|].
  split; [vm_compute; reflexivity|].
  split; [vm_compute; reflexivity|].
  rewrite Hsave. vm_compute. reflexivity.
Defined.

(** ** Uniqueness of the composite key *)

Lemma seen_before_app (before more : list record) (r : record) :
  seen_before (before ++ more) r = false -> seen_before before r = false.
Proof.
  unfold seen_before. destruct (entry_key r); [|reflexivity].
  rewrite existsb_app. now intros [H _]%orb_false_elim.
Qed.

Lemma first_occurrences_from_not_seen (rows : list record) :
  forall before r,
    In r (first_occurrences_from before rows) -> seen_before before r = false.
Proof.
  induction rows as [|row rows IH]; intros before r H; [contradiction|].
  simpl in H. apply in_app_or in H as [H|H].
  - destruct (seen_before before row) eqn:E; [contradiction|].
    destruct H as [->|[]]. exact E.
  - apply (seen_before_app before [row]). exact (IH _ _ H).
Qed.

(** The rows kept have pairwise distinct keys. *)
Lemma first_occurrences_from_nodup (rows : list record) :
  forall before,
    Forall (fun row => returns (entry_key row)) rows ->
    NoDup (map entry_key (first_occurrences_from before rows)).
Proof.
  induction rows as [|row rows IH]; intros before Hall; [constructor|].
  inversion Hall as [|? ? [k Hk] Hall']; subst. simpl.
  destruct (seen_before before row); simpl; [now apply IH|].
  constructor; [|now apply IH].
  intros Hin. apply in_map_iff in Hin as (r & Hr & Hin).
  apply first_occurrences_from_not_seen in Hin.
  unfold seen_before in Hin. rewrite Hr, Hk in Hin.
  rewrite existsb_app in Hin. apply orb_false_elim in Hin as [_ Hin].
  simpl in Hin. rewrite (has_key_of row k k Hk), str_eqb_refl in Hin.
  discriminate.
Qed.

Lemma save_from (existing : result str) (rows : list record)
    (data : record) (k : str) :
  starts_from existing rows -> entry_key data = Ok k ->
  exists old,
    traverse cleaned_cells (first_occurrences rows) = Ok old
    /\ save_consolidated_data existing data
       = if seen_before rows data then Ok (dataset_text old)
         else new <- cleaned_cells data ;; Ok (dataset_text (old ++ [new])).
Proof.
  intros [[Hex ->] | (text & -> & Hv)] Hk.
  - exists []. split; [reflexivity|].
    rewrite (save_fresh existing data k Hex Hk).
    unfold seen_before. rewrite Hk. cbn [existsb].
    destruct (cleaned_cells data); [|reflexivity]. cbn [bind app].
    unfold dataset_text. cbn [map concat]. now rewrite app_nil_r.
  - destruct (save_valid text rows data k Hv Hk) as (old & Hold & Hsave).
    exists old. split; [exact Hold|]. rewrite Hsave.
    unfold seen_before. rewrite Hk.
    destruct (existsb (has_key k) rows); [reflexivity|].
    destruct (cleaned_cells data); [|reflexivity]. cbn [bind].
    unfold dataset_text. rewrite map_app, concat_app. cbn [map concat].
    now rewrite app_nil_r, app_assoc.
Qed.

(** C9: the rows written do not always have pairwise distinct composite
    keys. The keys of the existing rows are compared as read, and the key
    of the new record as given, but the rows are written cleaned: two
    records whose regions differ by a trailing space are both written, and
    the dataset then holds two rows with the same timestamp and region. *)
Theorem merge_can_repeat_a_written_key :
  let first := sample_record (lit "2024-01-01 00:00:00") (lit "Miami_FL") in
  let second := sample_record (lit "2024-01-01 00:00:00") (lit "Miami_FL ") in
  exists c1 c2 out1 out2,
    cleaned_cells first = Ok c1
    /\ cleaned_cells second = Ok c2
    /\ save_consolidated_data (Raise NoSuchKey) first = Ok out1
    /\ save_consolidated_data (Ok out1) second = Ok out2
    /\ out2 = dataset_text [c1; c2]
    /\ map cells_key [c1; c2]
       = [lit "2024-01-01 00:00:00_Miami_FL"; lit "2024-01-01 00:00:00_Miami_FL"]
    /\ row_keys (dataset_rows out2)
       = [Ok (lit "2024-01-01 00:00:00_Miami_FL");
          Ok (lit "2024-01-01 00:00:00_Miami_FL")]
    /\ ~ NoDup (row_keys (dataset_rows out2)).
Proof.
  intros first second. subst first second.
  eexists. eexists. eexists. eexists.
  split; [vm_compute; reflexivity|].
  split; [vm_compute; reflexivity|].
  split; [vm_compute; reflexivity|].
  split; [vm_compute; reflexivity|].
  split; [vm_compute; reflexivity|].
  split; [vm_compute; reflexivity|].
  match goal with
  | |- ?keys = _ /\ _ =>
      assert (E : keys
                  = [Ok (lit "2024-01-01 00:00:00_Miami_FL");
                     Ok (lit "2024-01-01 00:00:00_Miami_FL")])
        by (vm_compute; reflexivity)
  end.
  split; [exact E|]. rewrite E.
  intros H. inversion H as [|? ? Hin _]. apply Hin. now left.
Qed.

(** ** Reading back what the writer wrote *)

Lemma feed_chars_app (p : parser) (a b : str) :
  feed_chars p (a ++ b) = (p' <- feed_chars p a ;; feed_chars p' b).
Proof.
  revert p. induction a as [|c a IH]; intros p; [reflexivity|].
  simpl. destruct (parse_process_char p (Ch c)); [apply IH | reflexivity].
Qed.

Lemma split_lines_from_cons (s : str) :
  forall cur, cur <> [] ->
    exists suffix rest, split_lines_from cur s = (rev cur ++ suffix) :: rest.
Proof.
  induction s as [|c s IH]; intros cur Hcur; simpl.
  - destruct cur; [congruence|]. exists [], []. now rewrite app_nil_r.
  - destruct (ascii_eqb c c_lf).
    + exists [c], (split_lines_from [] s). reflexivity.
    + destruct (IH (c :: cur)) as (suffix & rest & E); [discriminate|].
      exists (c :: suffix), rest. rewrite E. simpl.
      now rewrite <- app_assoc.
Qed.

Lemma read_rows_line (p : parser) (line : str) (lines : list str) :
  read_rows p (line :: lines)
  = match feed_chars p line with
    | Raise e => ([], Some e)
    | Ok p1 => end_of_line p1 (fun p' => read_rows p' lines)
    end.
Proof.
  simpl. unfold feed_line, end_of_line.
  destruct (feed_chars p line) as [p1|e]; [|reflexivity]. cbn [bind].
  destruct (parse_process_char p1 EOL) as [p2|e]; reflexivity.
Qed.

(** Reading line by line and reading character by character agree. *)
Lemma read_rows_text (s : str) :
  forall (cur : str) (p0 p : parser),
    feed_chars p0 (rev cur) = Ok p ->
    read_rows p0 (split_lines_from cur s) = read_text p (negb (is_empty cur)) s.
Proof.
  induction s as [|c s IH]; intros cur p0 p Hp.
  - destruct cur as [|x cur].
    + simpl in Hp. injection Hp as <-. reflexivity.
    + cbn [split_lines_from]. rewrite read_rows_line, Hp. reflexivity.
  - cbn [split_lines_from read_text].
    destruct (parse_process_char p (Ch c)) as [p1|e] eqn:Hc.
    + assert (Hp1 : feed_chars p0 (rev (c :: cur)) = Ok p1).
      { simpl rev. rewrite feed_chars_app, Hp. cbn [bind feed_chars].
        now rewrite Hc. }
      destruct (ascii_eqb c c_lf).
      * rewrite read_rows_line, Hp1. unfold end_of_line.
        destruct (parse_process_char p1 EOL) as [p2|e]; [|reflexivity].
        destruct (is_start_record (state p2)).
        -- now rewrite (IH [] parse_reset parse_reset eq_refl).
        -- exact (IH [] p2 p2 eq_refl).
      * exact (IH (c :: cur) p0 p1 Hp1).
    + assert (Hfail : forall suffix,
                feed_chars p0 (rev (c :: cur) ++ suffix) = Raise e).
      { intros suffix. simpl rev.
        rewrite <- app_assoc, feed_chars_app, Hp. cbn [bind app feed_chars].
        now rewrite Hc. }
      destruct (ascii_eqb c c_lf).
      * rewrite read_rows_line. specialize (Hfail []).
        rewrite app_nil_r in Hfail. now rewrite Hfail.
      * destruct (split_lines_from_cons s (c :: cur)) as (suffix & rest & E);
          [discriminate|].
        rewrite E, read_rows_line, Hfail. reflexivity.
Qed.

Lemma csv_reader_text (text : str) :
  csv_reader text = read_text parse_reset false text.
Proof. exact (read_rows_text text [] parse_reset parse_reset eq_refl). Qed.

Lemma needs_quoting_false (x : ascii) :
  needs_quoting x = false ->
  ascii_eqb x c_comma = false /\ ascii_eqb x c_quote = false
  /\ ascii_eqb x c_cr = false /\ ascii_eqb x c_lf = false.
Proof.
  unfold needs_quoting. intros H.
  apply orb_false_elim in H as [H Hlf]. apply orb_false_elim in H as [H Hcr].
  apply orb_false_elim in H as [Hco Hq]. auto.
Qed.

Lemma add_char_ok (p : parser) (c : ascii) (next : parse_state) :
  Z.of_nat (length (field_buf p)) < FIELD_LIMIT ->
  parse_add_char p c next = Ok (mkParser next (c :: field_buf p) (fields_rev p)).
Proof.
  intros H. unfold parse_add_char.
  destruct (FIELD_LIMIT <=? Z.of_nat (length (field_buf p))) eqn:E;
    [apply Z.leb_le in E; lia | reflexivity].
Qed.

Lemma step_plain (st : parse_state) (b : str) (fr : list str) (x : ascii) :
  needs_quoting x = false ->
  (fresh st /\ b = []) \/ st = IN_FIELD ->
  Z.of_nat (length b) < FIELD_LIMIT ->
  parse_process_char (mkParser st b fr) (Ch x)
  = Ok (mkParser IN_FIELD (x :: b) fr).
Proof.
  intros Hx Hst Hb. apply needs_quoting_false in Hx as (Hco & Hq & Hcr & Hlf).
  destruct Hst as [[[-> | ->] ->] | ->];
    unfold parse_process_char, start_field;
    cbn [state is_newline]; rewrite ?Hlf, ?Hcr, ?Hq, ?Hco; cbn [orb];
    now apply add_char_ok.
Qed.

Lemma step_in_quoted (b : str) (fr : list str) (x : ascii) :
  ascii_eqb x c_quote = false ->
  Z.of_nat (length b) < FIELD_LIMIT ->
  parse_process_char (mkParser IN_QUOTED_FIELD b fr) (Ch x)
  = Ok (mkParser IN_QUOTED_FIELD (x :: b) fr).
Proof.
  intros Hx Hb. unfold parse_process_char. cbn [state]. rewrite Hx.
  now apply add_char_ok.
Qed.

Lemma step_doubled_quote (b : str) (fr : list str) :
  Z.of_nat (length b) < FIELD_LIMIT ->
  parse_process_char (mkParser QUOTE_IN_QUOTED_FIELD b fr) (Ch c_quote)
  = Ok (mkParser IN_QUOTED_FIELD (c_quote :: b) fr).
Proof.
  intros Hb. unfold parse_process_char. cbn [state].
  change (ascii_eqb c_quote c_quote) with true. cbn iota.
  now apply add_char_ok.
Qed.

Lemma read_text_step (p p1 : parser) (m : bool) (x : ascii) (s : str) :
  parse_process_char p (Ch x) = Ok p1 ->
  ascii_eqb x c_lf = false ->
  read_text p m (x :: s) = read_text p1 true s.
Proof. intros Hp Hx. cbn [read_text]. now rewrite Hp, Hx. Qed.

(** The text of a quoted field, up to its closing quote. *)
Lemma read_quoted_body (f : str) :
  forall (b : str) (fr : list str) (m1 m2 : bool) (c0 : ascii) (s0 : str),
    Z.of_nat (length f + length b) <= FIELD_LIMIT ->
    read_text (mkParser IN_QUOTED_FIELD b fr) m1 (escaped f ++ c0 :: s0)
    = read_text (mkParser IN_QUOTED_FIELD (rev f ++ b) fr) m2 (c0 :: s0).
Proof.
  induction f as [|x f IH]; intros b fr m1 m2 c0 s0 Hb; [reflexivity|].
  unfold escaped in *. cbn [replace_char rev].
  rewrite <- (app_assoc (rev f) [x] b). cbn [app].
  cbn [length] in Hb.
  assert (Hb1 : Z.of_nat (length b) < FIELD_LIMIT) by lia.
  assert (Hb2 : Z.of_nat (length f + length (x :: b)) <= FIELD_LIMIT)
    by (cbn [length]; lia).
  destruct (ascii_eqb x c_quote) eqn:Hq.
  - apply ascii_eqb_eq in Hq. subst x. cbn [app].
    rewrite (read_text_step _ (mkParser QUOTE_IN_QUOTED_FIELD b fr));
      [|reflexivity|reflexivity].
    rewrite (read_text_step _ (mkParser IN_QUOTED_FIELD (c_quote :: b) fr));
      [|now apply step_doubled_quote|reflexivity].
    now apply IH.
  - cbn [app read_text]. rewrite (step_in_quoted b fr x Hq Hb1).
    destruct (ascii_eqb x c_lf); [|exact (IH _ _ _ m2 _ _ Hb2)].
    unfold end_of_line. cbn [parse_process_char state is_start_record].
    exact (IH _ _ _ m2 _ _ Hb2).
Qed.

(** The text of an unquoted field. *)
Lemma read_plain_body (f : str) :
  forall (b : str) (fr : list str) (m1 m2 : bool) (c0 : ascii) (s0 : str),
    existsb needs_quoting f = false ->
    Z.of_nat (length f + length b) <= FIELD_LIMIT ->
    read_text (mkParser IN_FIELD b fr) m1 (f ++ c0 :: s0)
    = read_text (mkParser IN_FIELD (rev f ++ b) fr) m2 (c0 :: s0).
Proof.
  induction f as [|x f IH]; intros b fr m1 m2 c0 s0 Hf Hb; [reflexivity|].
  simpl in Hf. apply orb_false_elim in Hf as [Hx Hf].
  cbn [app rev]. rewrite <- (app_assoc (rev f) [x] b). cbn [app].
  cbn [length] in Hb.
  rewrite (read_text_step _ (mkParser IN_FIELD (x :: b) fr));
    [apply IH; [exact Hf | cbn [length]; lia]
    | apply step_plain; [auto | auto | lia]
    | apply (needs_quoting_false x Hx)].
Qed.

Lemma fits_spec (f : str) :
  fits f = true <-> Z.of_nat (length f) <= FIELD_LIMIT.
Proof. unfold fits. apply Z.leb_le. Qed.

Lemma field_limit_pos : 0 < FIELD_LIMIT.
Proof. reflexivity. Qed.

Lemma read_field (st : parse_state) (fr : list str) (f : str)
    (m1 m2 : bool) (c0 : ascii) (s0 : str) :
  fresh st ->
  fits f = true ->
  read_text (mkParser st [] fr) m1 (write_field f ++ c0 :: s0)
  = read_text (pending st fr f) m2 (c0 :: s0).
Proof.
  intros Hst Hfit. apply fits_spec in Hfit. pose proof field_limit_pos as Hpos.
  unfold write_field, pending.
  destruct (existsb needs_quoting f) eqn:Hf.
  - cbn [app]. rewrite <- app_assoc. cbn [app].
    rewrite (read_text_step _ (mkParser IN_QUOTED_FIELD [] fr));
      [|destruct Hst as [-> | ->]; reflexivity|reflexivity].
    fold (escaped f). rewrite (read_quoted_body f [] fr true true);
      [|cbn [length]; lia].
    rewrite app_nil_r.
    now rewrite (read_text_step _ (mkParser QUOTE_IN_QUOTED_FIELD (rev f) fr));
      [|reflexivity|reflexivity].
  - destruct f as [|x f]; [reflexivity|].
    simpl in Hf. apply orb_false_elim in Hf as [Hx Hf]. cbn [app].
    cbn [length] in Hfit.
    rewrite (read_text_step _ (mkParser IN_FIELD [x] fr));
      [|apply step_plain; [auto | auto | cbn [length]; lia]
       | apply (needs_quoting_false x Hx)].
    rewrite (read_plain_body f [x] fr true m2); [reflexivity | exact Hf|].
    cbn [length]. lia.
Qed.

Lemma pending_comma (st : parse_state) (fr : list str) (f : str) :
  fresh st ->
  parse_process_char (pending st fr f) (Ch c_comma)
  = Ok (mkParser START_FIELD [] (f :: fr)).
Proof.
  intros Hst. unfold pending.
  destruct (existsb needs_quoting f); [|destruct f as [|x f]].
  - unfold parse_process_char, parse_save_field. simpl. now rewrite rev_involutive.
  - destruct Hst as [-> | ->]; reflexivity.
  - unfold parse_process_char, parse_save_field. cbn -[rev].
    now rewrite rev_involutive.
Qed.

Lemma pending_cr (st : parse_state) (fr : list str) (f : str) :
  st = START_FIELD \/ (st = START_RECORD /\ f <> []) ->
  parse_process_char (pending st fr f) (Ch c_cr)
  = Ok (mkParser EAT_CRNL [] (f :: fr)).
Proof.
  intros Hst. unfold pending.
  destruct (existsb needs_quoting f); [|destruct f as [|x f]].
  - unfold parse_process_char, parse_save_field. simpl. now rewrite rev_involutive.
  - destruct Hst as [-> | [_ H]]; [reflexivity | congruence].
  - unfold parse_process_char, parse_save_field. cbn -[rev].
    now rewrite rev_involutive.
Qed.

Lemma read_line_end (fr : list str) (m : bool) (s : str) :
  read_text (mkParser EAT_CRNL [] fr) m (c_lf :: s)
  = (let '(rows, err) := read_text parse_reset false s in
     (rev fr :: rows, err)).
Proof. reflexivity. Qed.

(** The fields of a row, from the first one still to read to the end of
    the line. *)
Lemma read_fields (fs : list str) :
  forall (st : parse_state) (fr : list str) (f : str) (m : bool) (s : str),
    st = START_FIELD \/ (st = START_RECORD /\ (f <> [] \/ fs <> [])) ->
    forallb fits (f :: fs) = true ->
    read_text (mkParser st [] fr) m
      (join [c_comma] (map write_field (f :: fs)) ++ crlf ++ s)
    = (let '(rows, err) := read_text parse_reset false s in
       ((rev fr ++ f :: fs) :: rows, err)).
Proof.
  induction fs as [|g fs IH]; intros st fr f m s Hst Hfit;
    cbn [forallb] in Hfit; apply andb_prop in Hfit as [Hf Hfs].
  - cbn [map join]. unfold crlf. cbn [app].
    rewrite (read_field st fr f m true);
      [|destruct Hst as [H|[H _]]; [now left|now right] | exact Hf].
    rewrite (read_text_step _ (mkParser EAT_CRNL [] (f :: fr)));
      [|apply pending_cr|reflexivity].
    + rewrite read_line_end. reflexivity.
    + destruct Hst as [H|[H [H'|H']]]; [now left | now right | congruence].
  - change (join [c_comma] (map write_field (f :: g :: fs)))
      with (write_field f ++ [c_comma] ++ join [c_comma] (map write_field (g :: fs))).
    rewrite <- !app_assoc. cbn [app].
    rewrite (read_field st fr f m true);
      [|destruct Hst as [H|[H _]]; [now left|now right] | exact Hf].
    rewrite (read_text_step _ (mkParser START_FIELD [] (f :: fr)));
      [|apply pending_comma; destruct Hst as [H|[H _]]; [now left|now right]
       |reflexivity].
    rewrite (IH START_FIELD (f :: fr) g true s); [|now left | exact Hfs].
    cbn [rev]. now rewrite <- app_assoc.
Qed.

(** A written row whose cells are within the limit is read back as it was
    written. *)
Lemma read_written_row (cells : list str) (s : str) :
  forallb fits cells = true ->
  read_text parse_reset false (write_row cells ++ s)
  = (let '(rows, err) := read_text parse_reset false s in (cells :: rows, err)).
Proof.
  intros Hfit.
  destruct cells as [|f fs]; [reflexivity|].
  destruct f as [|x f]; [destruct fs as [|g fs]; [reflexivity|]|].
  - unfold write_row, parse_reset. rewrite <- app_assoc.
    rewrite read_fields; [reflexivity| |exact Hfit]. right. split; [reflexivity|].
    right. discriminate.
  - unfold write_row, parse_reset. rewrite <- app_assoc.
    rewrite read_fields; [reflexivity| |exact Hfit]. right. split; [reflexivity|].
    left. discriminate.
Qed.

Lemma read_written_rows (rows : list (list str)) :
  rows_fit rows = true ->
  read_text parse_reset false (concat (map write_row rows)) = (rows, None).
Proof.
  induction rows as [|cells rows IH]; intros Hfit; [reflexivity|].
  cbn [rows_fit forallb] in Hfit. apply andb_prop in Hfit as [Hc Hr].
  cbn [map concat]. now rewrite (read_written_row _ _ Hc), (IH Hr).
Qed.

Lemma fieldnames_fit : forallb fits FIELDNAMES = true.
Proof. vm_compute. reflexivity. Qed.

(** The reader gives back the header and the rows of a written dataset. *)
Lemma csv_reader_dataset (rows : list (list str)) :
  rows_fit rows = true ->
  csv_reader (dataset_text rows) = (FIELDNAMES :: rows, None).
Proof.
  intros Hfit. rewrite csv_reader_text. unfold dataset_text, header_line.
  now rewrite (read_written_row _ _ fieldnames_fit), (read_written_rows _ Hfit).
Qed.

Lemma dict_reader_dataset (rows : list (list str)) :
  rows_fit rows = true ->
  dict_reader (dataset_text rows)
  = (map (make_row FIELDNAMES) (filter (fun r => negb (is_empty r)) rows), None).
Proof. intros Hfit. unfold dict_reader. now rewrite (csv_reader_dataset _ Hfit). Qed.

(** *** A field over the limit *)

Lemma add_char_fails (p : parser) (c : ascii) (next : parse_state) :
  FIELD_LIMIT <= Z.of_nat (length (field_buf p)) ->
  parse_add_char p c next = Raise CsvError.
Proof.
  intros H. unfold parse_add_char.
  destruct (FIELD_LIMIT <=? Z.of_nat (length (field_buf p))) eqn:E;
    [reflexivity | apply Z.leb_gt in E; lia].
Qed.

Lemma read_text_fails (p : parser) (m : bool) (x : ascii) (s : str) (e : exn) :
  parse_process_char p (Ch x) = Raise e ->
  read_text p m (x :: s) = ([], Some e).
Proof. intros Hp. cbn [read_text]. now rewrite Hp. Qed.

Lemma step_plain_fails (st : parse_state) (b : str) (fr : list str) (x : ascii) :
  needs_quoting x = false ->
  (fresh st /\ b = []) \/ st = IN_FIELD ->
  FIELD_LIMIT <= Z.of_nat (length b) ->
  parse_process_char (mkParser st b fr) (Ch x) = Raise CsvError.
Proof.
  intros Hx Hst Hb. apply needs_quoting_false in Hx as (Hco & Hq & Hcr & Hlf).
  destruct Hst as [[[-> | ->] ->] | ->];
    unfold parse_process_char, start_field;
    cbn [state is_newline]; rewrite ?Hlf, ?Hcr, ?Hq, ?Hco; cbn [orb];
    now apply add_char_fails.
Qed.

(** An unquoted field that does not fit: the reader raises. *)
Lemma read_plain_fails (f : str) :
  forall (st : parse_state) (b : str) (fr : list str) (m : bool) (s : str),
    existsb needs_quoting f = false ->
    (fresh st /\ b = []) \/ st = IN_FIELD ->
    Z.of_nat (length b) <= FIELD_LIMIT ->
    FIELD_LIMIT < Z.of_nat (length f + length b) ->
    read_text (mkParser st b fr) m (f ++ s) = ([], Some CsvError).
Proof.
  induction f as [|x f IH]; intros st b fr m s Hf Hst Hb Hlen;
    [cbn [length Nat.add] in Hlen; lia|].
  simpl in Hf. apply orb_false_elim in Hf as [Hx Hf]. cbn [app].
  destruct (Z.le_gt_cases FIELD_LIMIT (Z.of_nat (length b))) as [Hfull|Hroom].
  - apply read_text_fails. now apply step_plain_fails.
  - rewrite (read_text_step _ (mkParser IN_FIELD (x :: b) fr));
      [|apply step_plain; auto | apply (needs_quoting_false x Hx)].
    apply IH; [exact Hf | now right | cbn [length]; lia|].
    cbn [length] in *. lia.
Qed.

(** A quoted field that does not fit: the reader raises. *)
Lemma read_quoted_fails (f : str) :
  forall (b : str) (fr : list str) (m : bool) (s : str),
    Z.of_nat (length b) <= FIELD_LIMIT ->
    FIELD_LIMIT < Z.of_nat (length f + length b) ->
    read_text (mkParser IN_QUOTED_FIELD b fr) m (escaped f ++ s)
    = ([], Some CsvError).
Proof.
  induction f as [|x f IH]; intros b fr m s Hb Hlen;
    [cbn [length Nat.add] in Hlen; lia|].
  unfold escaped in *. cbn [replace_char].
  assert (Hnext : Z.of_nat (length b) < FIELD_LIMIT ->
            Z.of_nat (length (x :: b)) <= FIELD_LIMIT
            /\ FIELD_LIMIT < Z.of_nat (length f + length (x :: b)))
    by (cbn [length] in *; lia).
  destruct (Z.le_gt_cases FIELD_LIMIT (Z.of_nat (length b))) as [Hfull|Hroom].
  - destruct (ascii_eqb x c_quote) eqn:Hq.
    + apply ascii_eqb_eq in Hq. subst x. cbn [app].
      rewrite (read_text_step _ (mkParser QUOTE_IN_QUOTED_FIELD b fr));
        [|reflexivity|reflexivity].
      apply read_text_fails. unfold parse_process_char. cbn [state].
      change (ascii_eqb c_quote c_quote) with true. cbn iota.
      now apply add_char_fails.
    + cbn [app]. apply read_text_fails. unfold parse_process_char.
      cbn [state]. rewrite Hq. now apply add_char_fails.
  - destruct (Hnext Hroom) as [Hb' Hlen'].
    destruct (ascii_eqb x c_quote) eqn:Hq.
    + apply ascii_eqb_eq in Hq. subst x. cbn [app].
      rewrite (read_text_step _ (mkParser QUOTE_IN_QUOTED_FIELD b fr));
        [|reflexivity|reflexivity].
      rewrite (read_text_step _ (mkParser IN_QUOTED_FIELD (c_quote :: b) fr));
        [|now apply step_doubled_quote|reflexivity].
      now apply IH.
    + cbn [app read_text]. rewrite (step_in_quoted b fr x Hq Hroom).
      destruct (ascii_eqb x c_lf); [|now apply IH].
      unfold end_of_line. cbn [parse_process_char state is_start_record].
      now apply IH.
Qed.

Lemma fits_false (f : str) :
  fits f = false <-> FIELD_LIMIT < Z.of_nat (length f).
Proof. unfold fits. apply Z.leb_gt. Qed.

Lemma read_field_fails (st : parse_state) (fr : list str) (f : str)
    (m : bool) (s : str) :
  fresh st ->
  fits f = false ->
  read_text (mkParser st [] fr) m (write_field f ++ s) = ([], Some CsvError).
Proof.
  intros Hst Hfit. apply fits_false in Hfit. pose proof field_limit_pos as Hpos.
  unfold write_field.
  destruct (existsb needs_quoting f) eqn:Hf.
  - cbn [app]. rewrite <- app_assoc.
    rewrite (read_text_step _ (mkParser IN_QUOTED_FIELD [] fr));
      [|destruct Hst as [-> | ->]; reflexivity|reflexivity].
    fold (escaped f). apply read_quoted_fails; cbn [length]; lia.
  - apply read_plain_fails; [exact Hf | now left | cbn [length]; lia|].
    cbn [length]. lia.
Qed.

Lemma join_cons (sep x : str) (l : list str) :
  l <> [] -> join sep (x :: l) = x ++ sep ++ join sep l.
Proof. destruct l; [congruence | reflexivity]. Qed.

(** The fields of a row up to one that does not fit. *)
Lemma read_fields_fail (pre : list str) :
  forall (st : parse_state) (fr : list str) (f : str) (post : list str)
         (m : bool) (s : str),
    fresh st ->
    forallb fits pre = true ->
    fits f = false ->
    read_text (mkParser st [] fr) m
      (join [c_comma] (map write_field (pre ++ f :: post)) ++ s)
    = ([], Some CsvError).
Proof.
  induction pre as [|g pre IH]; intros st fr f post m s Hst Hpre Hf.
  - cbn [app map]. destruct post as [|h post].
    + cbn [map join]. now apply read_field_fails.
    + rewrite join_cons by discriminate. rewrite <- !app_assoc.
      now apply read_field_fails.
  - cbn [forallb] in Hpre. apply andb_prop in Hpre as [Hg Hpre].
    cbn [app map]. rewrite join_cons
      by (rewrite map_app; cbn [map]; intros E; apply app_eq_nil in E as [_ E];
          discriminate).
    rewrite <- !app_assoc. cbn [app].
    rewrite (read_field st fr g m true); [|exact Hst | exact Hg].
    rewrite (read_text_step _ (mkParser START_FIELD [] (g :: fr)));
      [|now apply pending_comma | reflexivity].
    apply IH; [now left | exact Hpre | exact Hf].
Qed.

Lemma write_row_cells (cells : list str) (f : str) :
  fits f = false -> forall pre post, cells = pre ++ f :: post ->
  write_row cells = join [c_comma] (map write_field cells) ++ crlf.
Proof.
  intros Hf pre post ->. unfold write_row.
  destruct pre as [|g pre]; cbn [app].
  - destruct f as [|x f]; [vm_compute in Hf; discriminate|].
    destruct post; reflexivity.
  - destruct g as [|y g]; [|reflexivity].
    destruct pre; reflexivity.
Qed.

(** Rows that fit, then a row with a cell that does not: the reader yields
    the rows that fit and raises on the one that does not. *)
Lemma read_rows_then_fail (rows : list (list str)) (pre : list str) (f : str)
    (post : list str) (s : str) :
  rows_fit rows = true ->
  forallb fits pre = true ->
  fits f = false ->
  read_text parse_reset false
    (concat (map write_row rows) ++ write_row (pre ++ f :: post) ++ s)
  = (rows, Some CsvError).
Proof.
  intros Hrows Hpre Hf. induction rows as [|cells rows IH].
  - cbn [map concat app].
    rewrite (write_row_cells _ f Hf pre post eq_refl), <- app_assoc.
    unfold parse_reset. apply read_fields_fail; [now right | exact Hpre | exact Hf].
  - cbn [rows_fit forallb] in Hrows. apply andb_prop in Hrows as [Hc Hr].
    cbn [map concat]. rewrite <- app_assoc.
    rewrite (read_written_row _ _ Hc), (IH Hr). reflexivity.
Qed.

Lemma lstrip_by_nil (p : ascii -> bool) (s : str) :
  lstrip_by p s = [] -> forallb p s = true.
Proof.
  induction s as [|c s IH]; [reflexivity|]. simpl.
  destruct (p c); [exact IH | discriminate].
Qed.

Lemma strip_by_nil (p : ascii -> bool) (s : str) :
  strip_by p s = [] -> forallb p s = true.
Proof.
  unfold strip_by, rstrip_by. intros H.
  apply (f_equal (@rev ascii)) in H. rewrite rev_involutive in H. simpl in H.
  apply lstrip_by_nil in H.
  apply lstrip_by_nil.
  destruct (lstrip_by p s) as [|c t] eqn:E; [reflexivity|].
  assert (Hc : p c = false).
  { clear H. revert E. induction s as [|x s IH]; simpl; [discriminate|].
    destruct (p x) eqn:Hx; [exact IH|]. intros E. injection E as -> _. exact Hx. }
  rewrite forallb_forall in H. specialize (H c).
  rewrite <- in_rev in H. rewrite H in Hc; [discriminate | now left].
Qed.

Lemma looks_like_csv_dataset (rows : list (list str)) :
  looks_like_csv (dataset_text rows) = true.
Proof.
  unfold looks_like_csv, dataset_text.
  destruct header_line_cons as (c & rest & E).
  assert (Hc : has_char c_comma header_line = true) by (vm_compute; reflexivity).
  assert (Hs : forallb is_space header_line = false) by (vm_compute; reflexivity).
  apply andb_true_intro. split.
  - destruct (strip (header_line ++ concat (map write_row rows))) eqn:Es;
      [|reflexivity].
    apply strip_by_nil in Es. rewrite forallb_app, Hs in Es. discriminate.
  - unfold has_char in *. now rewrite existsb_app, Hc.
Qed.

Ltac destruct_cells l :=
  do 23 (destruct l as [|? l]; [discriminate|]);
  destruct l; [|discriminate].

Lemma make_row_cells (cells : list str) :
  length cells = 23%nat ->
  make_row FIELDNAMES cells = combine FIELDNAMES (map VStr cells).
Proof. intros H. destruct_cells cells. vm_compute. reflexivity. Qed.

Lemma cleaned_cells_combine (vals : list value) :
  length vals = 23%nat ->
  cleaned_cells (combine FIELDNAMES vals) = traverse clean_value vals.
Proof. intros H. destruct_cells vals. reflexivity. Qed.

Lemma entry_key_combine (cells : list str) :
  length cells = 23%nat ->
  entry_key (combine FIELDNAMES (map VStr cells)) = Ok (cells_key cells).
Proof. intros H. destruct_cells cells. reflexivity. Qed.

Lemma traverse_clean_strings (cells : list str) :
  traverse clean_value (map VStr cells) = Ok (map clean_str cells).
Proof.
  induction cells as [|c cells IH]; [reflexivity|].
  cbn [map traverse clean_value bind]. now rewrite IH.
Qed.

(** A stored row, read back: its key is the key of its cells, and cleaning
    it again cleans every cell again. *)
Lemma stored_row (cells : list str) :
  length cells = 23%nat ->
  entry_key (make_row FIELDNAMES cells) = Ok (cells_key cells)
  /\ cleaned_cells (make_row FIELDNAMES cells) = Ok (map clean_str cells).
Proof.
  intros H. rewrite (make_row_cells cells H). split.
  - exact (entry_key_combine cells H).
  - rewrite cleaned_cells_combine by now rewrite length_map.
    apply traverse_clean_strings.
Qed.

(** C6: merging the same record twice does not always leave one row. A
    region with a comma is stored wrapped in quotes; the key of the stored
    row, read back, no longer equals the key of the record, which is taken
    from its raw values: the second merge appends the record again, and
    the text put back to the store holds the record twice. *)
Theorem merge_twice_can_append_twice :
  let data := sample_record (lit "2024-01-01 00:00:00") (lit "Washington, DC") in
  exists cells out1 out2,
    cleaned_cells data = Ok cells
    /\ save_consolidated_data (Raise NoSuchKey) data = Ok out1
    /\ save_consolidated_data (Ok out1) data = Ok out2
    /\ out1 = dataset_text [cells]
    /\ out2 = dataset_text [cells; cells]
    /\ length (dataset_rows out2) = 2%nat
    /\ save_to_store online data None = (Some out1, Ok tt)
    /\ save_to_store online data (Some out1) = (Some out2, Ok tt).
Proof.
  cbv zeta. eexists. eexists. eexists.
  split; [vm_compute; reflexivity|].
  split; [vm_compute; reflexivity|].
  split; [vm_compute; reflexivity|].
  split; [vm_compute; reflexivity|].
  split; [vm_compute; reflexivity|].
  split; [vm_compute; reflexivity|].
  split; vm_compute; reflexivity.
Qed.

(** * Further properties *)

(** ** The nested lookup on well-formed and ill-formed paths *)

Lemma py_or_mapping (d : list (str * value)) :
  py_or (VDict d) empty_dict = VDict d.
Proof. destruct d; reflexivity. Qed.

Lemma safe_get_loop_path (cur : value) (keys : list str) (v default : value) :
  has_path cur keys v ->
  safe_get_loop cur keys default = Ok (if is_none v then default else v).
Proof.
  induction 1 as [v|d k ks x v Hk _ IH]; [reflexivity|].
  cbn [safe_get_loop is_mapping negb method_get bind]. now rewrite Hk.
Qed.

Lemma lookup_of_present_path
    (data : value) (key : str) (keys : list str) (v default : value) :
  has_path data (key :: keys) v ->
  safe_get_value data (key :: keys) default
  = Ok (if is_none v then default else v).
Proof.
  intros H. unfold safe_get_value.
  inversion H as [|d k ks x w Hk Hx]; subst.
  rewrite py_or_mapping, (safe_get_loop_path _ _ _ default H). reflexivity.
Qed.

(** A value stored under a path of keys is what the lookup of that path
    returns; a stored [None] comes back as the default. *)
Theorem safe_get_value_present
    (data : value) (key : str) (keys : list str) (v default : value) :
  has_path data (key :: keys) v ->
  safe_get_value data (key :: keys) default
  = Ok (if is_none v then default else v).
Proof. exact (lookup_of_present_path data key keys v default). Qed.

Lemma safe_get_value_present_witness :
  safe_get_value (with_celsius (VFloat (FFin 385 (-1))))
    [lit "temperature"; lit "value"] empty_str
  = Ok (VFloat (FFin 385 (-1))).
Proof.
  apply (safe_get_value_present (with_celsius (VFloat (FFin 385 (-1))))
           (lit "temperature") [lit "value"] (VFloat (FFin 385 (-1))) empty_str).
  eapply path_step; [reflexivity|].
  eapply path_step; [reflexivity|]. apply path_here.
Defined.

Lemma safe_get_loop_mismatch (cur : value) (pre : list str) (x : value)
    (key : str) (keys : list str) (default : value) :
  has_path cur pre x -> is_mapping x = false ->
  safe_get_loop cur (pre ++ key :: keys) default = Ok default.
Proof.
  induction 1 as [v|d k ks y v Hk _ IH]; intros Hx.
  - cbn [app safe_get_loop]. now rewrite Hx.
  - cbn [app safe_get_loop is_mapping negb method_get bind]. rewrite Hk.
    now apply IH.
Qed.

(** When the path reaches, below the top, a value that is no mapping
    (None, a number, a string, a list) and keys remain, the lookup returns
    the default. *)
Theorem safe_get_value_through_non_mapping
    (data : value) (first : str) (pre : list str) (x : value)
    (key : str) (keys : list str) (default : value) :
  has_path data (first :: pre) x ->
  is_mapping x = false ->
  safe_get_value data ((first :: pre) ++ key :: keys) default = Ok default.
Proof.
  intros H Hx. unfold safe_get_value.
  inversion H as [|d k ks y w Hk Hy]; subst.
  rewrite py_or_mapping.
  rewrite (safe_get_loop_mismatch _ _ _ key keys default H Hx). reflexivity.
Qed.

Lemma safe_get_value_through_non_mapping_witness :
  safe_get_value (VDict [(lit "temperature", VNone)])
    [lit "temperature"; lit "value"] (VInt 0)
  = Ok (VInt 0).
Proof.
  apply (safe_get_value_through_non_mapping
           (VDict [(lit "temperature", VNone)]) (lit "temperature") [] VNone
           (lit "value") [] (VInt 0)).
  - eapply path_step; [reflexivity | apply path_here].
  - reflexivity.
Defined.

(** ** The grid lookup *)

(** The grid lookup lets exactly one exception escape: [KeyError], raised
    by indexing with 0 when the [values] of the property are a non-empty
    mapping; in every other case it returns. *)
Theorem safe_get_grid_value_key_error (grid_data : value) (name : str) :
  (values_is_mapping grid_data name ->
   safe_get_grid_value grid_data name = Raise KeyError)
  /\ (~ values_is_mapping grid_data name ->
      returns (safe_get_grid_value grid_data name)).
Proof.
  unfold values_is_mapping, safe_get_grid_value. split.
  - intros (d & p & kv & vs & -> & Hp & Hv).
    cbn [method_get bind]. rewrite Hp. cbn [method_get bind]. rewrite Hv.
    reflexivity.
  - intros Hno.
    destruct grid_data as [| | | | |l|d]; try (eexists; reflexivity).
    cbn [method_get bind].
    destruct (dict_lookup d name) as [prop|] eqn:Hp;
      [|eexists; reflexivity].
    destruct prop as [| | | | |l|p]; try (eexists; reflexivity).
    cbn [method_get bind].
    destruct (dict_lookup p (lit "values")) as [values|] eqn:Hv;
      [|eexists; reflexivity].
    destruct values as [|b|n|f|s|l|vs].
    + eexists; reflexivity.
    + destruct b; eexists; reflexivity.
    + cbn [truthy]. destruct (n =? 0); eexists; reflexivity.
    + destruct f as [m e| |]; cbn [truthy];
        try destruct (m =? 0); eexists; reflexivity.
    + destruct s; eexists; reflexivity.
    + destruct l as [|first l]; [eexists; reflexivity|].
      cbn [truthy index0 bind].
      destruct first; eexists; reflexivity.
    + destruct vs as [|kv vs]; [eexists; reflexivity|].
      exfalso. apply Hno. exists d, p, kv, vs. auto.
Qed.

(** ** Numeric formatting *)

Lemma strip10_spec (fuel : nat) :
  forall m e m' e',
    strip10 fuel m e = (m', e') ->
    (m = 0 /\ m' = 0 /\ e' = 0) \/ (e <= e' /\ m = m' * 10 ^ (e' - e)).
Proof.
  induction fuel as [|fuel IH]; intros m e m' e' H; simpl in H.
  - injection H as <- <-. right. split; [lia|].
    rewrite Z.sub_diag. simpl. lia.
  - destruct (m =? 0) eqn:Hm.
    + injection H as <- <-. left. apply Z.eqb_eq in Hm. auto.
    + destruct (m mod 10 =? 0) eqn:Hd.
      * apply Z.eqb_eq in Hd. apply Z.eqb_neq in Hm.
        destruct (IH _ _ _ _ H) as [(H0 & _ & _) | (Hle & Hv)].
        -- exfalso. apply Hm.
           rewrite (Z.div_mod m 10) by lia. lia.
        -- right. split; [lia|].
           rewrite (Z.div_mod m 10) by lia. rewrite Hd, Hv.
           replace (e' - e) with (1 + (e' - (e + 1))) by lia.
           rewrite Z.pow_add_r by lia. lia.
      * injection H as <- <-. right. split; [lia|].
        rewrite Z.sub_diag. simpl. lia.
Qed.

Lemma pow10_pos (k : Z) : 0 <= k -> 0 < 10 ^ k.
Proof. intros H. apply Z.pow_pos_nonneg; lia. Qed.

(** Normalising a decimal does not change the number it stands for. *)
Lemma fnorm_denotes (m e num den : Z) :
  fdenotes (FFin m e) num den -> fdenotes (fnorm m e) num den.
Proof.
  unfold fnorm.
  destruct (strip10 _ m e) as [m' e'] eqn:E.
  apply strip10_spec in E. unfold fdenotes.
  destruct E as [(-> & -> & ->) | (Hle & ->)].
  - destruct (0 <=? e) eqn:He; simpl; intros H; [lia|].
    apply Z.leb_gt in He. pose proof (pow10_pos (- e)). nia.
  - destruct (0 <=? e) eqn:He, (0 <=? e') eqn:He';
      try apply Z.leb_le in He; try apply Z.leb_le in He';
      try apply Z.leb_gt in He; try apply Z.leb_gt in He'; try lia.
    + intros <-.
      assert (P : 10 ^ e' = 10 ^ (e' - e) * 10 ^ e)
        by (rewrite <- Z.pow_add_r by lia; f_equal; lia).
      rewrite P. ring.
    + intros H.
      assert (P : 10 ^ (e' - e) = 10 ^ e' * 10 ^ (- e))
        by (rewrite <- Z.pow_add_r by lia; f_equal; lia).
      rewrite P in H. pose proof (pow10_pos (- e)).
      apply (Z.mul_reg_r _ _ (10 ^ (- e))); [lia|]. rewrite <- H. ring.
    + intros H.
      assert (P : 10 ^ (- e) = 10 ^ (e' - e) * 10 ^ (- e'))
        by (rewrite <- Z.pow_add_r by lia; f_equal; lia).
      rewrite P in H. pose proof (pow10_pos (e' - e)).
      apply (Z.mul_reg_r _ _ (10 ^ (e' - e))); [lia|].
      transitivity (m' * 10 ^ (e' - e) * den); [ring|]. rewrite H. ring.
Qed.

Lemma format_number_int (n : Z) : format_number (VInt n) = Ok (VInt n).
Proof.
  unfold format_number. cbn [is_none eq_empty_str orb py_float bind].
  unfold fnorm. destruct (strip10 _ n 0) as [m e] eqn:E.
  apply strip10_spec in E.
  assert (H : 0 <= e /\ m * 10 ^ e = n).
  { destruct E as [(-> & -> & ->) | (Hle & ->)]; [split; simpl; lia|].
    split; [lia|]. now rewrite Z.sub_0_r. }
  destruct H as [He Hv].
  cbv beta iota delta [py_int_of_float float_ne_int bind].
  apply Z.leb_le in He. rewrite He, Hv, Z.eqb_refl. reflexivity.
Qed.

(** Formatting is idempotent: what [format_number] returns, it returns
    unchanged when given it again. *)
Theorem format_number_idempotent (v w : value) :
  format_number v = Ok w -> format_number w = Ok w.
Proof.
  intros H. unfold format_number in H.
  destruct (is_none v || eq_empty_str v) eqn:Hv;
    [injection H as <-; reflexivity|].
  destruct (py_float v) as [f|e] eqn:Hf; cbn [bind catch] in H.
  - destruct f as [m e| |]; cbn [py_int_of_float bind catch] in H.
    + destruct (float_ne_int (FFin m e) _) eqn:Hne; cbn [catch] in H;
        injection H as <-.
      * unfold format_number. cbn [is_none eq_empty_str orb py_float bind].
        cbn [py_int_of_float bind]. rewrite Hne. reflexivity.
      * apply format_number_int.
    + discriminate.
    + cbn [handled existsb exn_isinstance exn_eqb orb] in H.
      injection H as <-. unfold format_number. rewrite Hv, Hf. reflexivity.
  - destruct (handled e [ValueError; TypeError]) eqn:He; [|discriminate].
    injection H as <-. unfold format_number. rewrite Hv, Hf.
    cbn [bind catch]. now rewrite He.
Qed.

Lemma format_number_idempotent_witness :
  format_number (VInt 72) = Ok (VInt 72).
Proof.
  apply (format_number_idempotent (VStr (lit " 72.0 ")) (VInt 72)).
  reflexivity.
Defined.

(** [format_number] returns, or raises [OverflowError]: no other exception
    escapes it. *)
Theorem format_number_only_overflow (v : value) :
  returns (format_number v) \/ format_number v = Raise OverflowError.
Proof.
  unfold format_number.
  destruct (is_none v || eq_empty_str v); [left; eexists; reflexivity|].
  destruct (py_float v) as [f|x] eqn:Hf; cbn [bind catch].
  - destruct f as [m k| |]; cbn [py_int_of_float bind catch].
    + destruct (float_ne_int _ _); left; eexists; reflexivity.
    + right. reflexivity.
    + left. eexists. reflexivity.
  - left. destruct v as [|b|n|f|s|l|d]; cbn in Hf; try discriminate.
    + injection Hf as <-. eexists. reflexivity.
    + destruct (parse_float s); [discriminate|]. injection Hf as <-.
      eexists. reflexivity.
    + injection Hf as <-. eexists. reflexivity.
    + injection Hf as <-. eexists. reflexivity.
Qed.

(** ** The record built by [process_weather_data] *)


(** What a successful normalisation was built from. *)
Lemma process_weather_data_ok (now : str) (raw : value) (region : str)
    (r : record) :
  process_weather_data now raw region = Ok r ->
  exists cur0 current alerts features detailed tc tf vals,
    r = combine FIELDNAMES
          (VStr now :: VStr region :: tc :: tf :: firstn 11 vals
           ++ VStr (replace_char c_comma [c_pipe]
                      (strip_chars [c_quote] detailed))
              :: skipn 11 vals
           ++ [VStr (if truthy features then lit "Yes" else lit "No")])
    /\ length vals = 17%nat
    /\ method_get raw (lit "current") empty_dict = Ok cur0
    /\ method_get cur0 (lit "properties") empty_dict = Ok current
    /\ observed current "temperature" = Ok tc
    /\ (a <- fahrenheit_arg current ;; format_number a) = Ok tf
    /\ method_get raw (lit "alerts") empty_dict = Ok alerts
    /\ method_get alerts (lit "features") VNone = Ok features.
Proof.
  intros H. unfold process_weather_data in H.
  apply bind_ok in H as (cur0 & Hcur0 & H).
  apply bind_ok in H as (current & Hcurrent & H).
  do 6 (apply bind_ok in H as (? & _ & H)).
  apply bind_ok in H as (tc & Htc & H).
  apply bind_ok in H as (tf & Htf & H).
  apply bind_ok in H as (v1 & _ & H). apply bind_ok in H as (v2 & _ & H).
  apply bind_ok in H as (v3 & _ & H). apply bind_ok in H as (v4 & _ & H).
  apply bind_ok in H as (v5 & _ & H). apply bind_ok in H as (v6 & _ & H).
  apply bind_ok in H as (v7 & _ & H). apply bind_ok in H as (v8 & _ & H).
  apply bind_ok in H as (v9 & _ & H). apply bind_ok in H as (v10 & _ & H).
  apply bind_ok in H as (v11 & _ & H).
  apply bind_ok in H as (detailed0 & _ & H).
  apply bind_ok in H as (detailed & _ & H).
  apply bind_ok in H as (v12 & _ & H). apply bind_ok in H as (v13 & _ & H).
  apply bind_ok in H as (v14 & _ & H). apply bind_ok in H as (v15 & _ & H).
  apply bind_ok in H as (v16 & _ & H). apply bind_ok in H as (v17 & _ & H).
  apply bind_ok in H as (alerts & Halerts & H).
  apply bind_ok in H as (features & Hfeatures & H).
  injection H as <-.
  exists cur0, current, alerts, features, detailed, tc, tf,
    [v1; v2; v3; v4; v5; v6; v7; v8; v9; v10; v11;
     v12; v13; v14; v15; v16; v17].
  repeat split; try assumption; reflexivity.
Qed.

(** A record that [process_weather_data] returns has every column of the
    schema, in schema order and nothing else, and carries the given
    timestamp and region. *)
Theorem process_weather_data_schema (now : str) (raw : value) (region : str)
    (r : record) :
  process_weather_data now raw region = Ok r ->
  map fst r = FIELDNAMES
  /\ field r "timestamp" = Some (VStr now)
  /\ field r "region" = Some (VStr region)
  /\ entry_key r = Ok (now ++ [c_underscore] ++ region).
Proof.
  intros H.
  destruct (process_weather_data_ok _ _ _ _ H)
    as (cur0 & current & alerts & features & detailed & tc & tf & vals
        & -> & Hlen & _).
  do 17 (destruct vals as [|? vals]; [discriminate|]).
  destruct vals; [|discriminate].
  repeat split; reflexivity.
Qed.

Lemma process_weather_data_schema_witness :
  exists r,
    process_weather_data (lit "2024-01-01 00:00:00")
      (bundle_of (with_celsius (VInt 20))) (lit "Denver_CO") = Ok r
    /\ map fst r = FIELDNAMES
    /\ entry_key r = Ok (lit "2024-01-01 00:00:00_Denver_CO").
Proof.
  eexists. split; [vm_compute; reflexivity|].
  match goal with
  | |- map fst ?r = _ /\ _ =>
      destruct (process_weather_data_schema (lit "2024-01-01 00:00:00")
                  (bundle_of (with_celsius (VInt 20))) (lit "Denver_CO") r)
        as (Hs & _ & _ & Hk); [vm_compute; reflexivity|]
  end.
  split; [exact Hs | exact Hk].
Defined.

Ltac break_vals vals :=
  do 17 (destruct vals as [|? vals]; [discriminate|]);
  destruct vals; [|discriminate].

(** The alert flag of a returned record is Yes or No, never empty: Yes
    exactly when the [features] of the alerts bundle are truthy. *)
Theorem process_weather_data_has_alerts (now : str) (raw : value)
    (region : str) (r : record) :
  process_weather_data now raw region = Ok r ->
  exists alerts features,
    method_get raw (lit "alerts") empty_dict = Ok alerts
    /\ method_get alerts (lit "features") VNone = Ok features
    /\ field r "has_alerts"
       = Some (VStr (if truthy features then lit "Yes" else lit "No")).
Proof.
  intros H.
  destruct (process_weather_data_ok _ _ _ _ H)
    as (cur0 & current & alerts & features & detailed & tc & tf & vals
        & -> & Hlen & _ & _ & _ & _ & Ha & Hf).
  break_vals vals. exists alerts, features.
  split; [exact Ha|]. split; [exact Hf | reflexivity].
Qed.

Lemma process_weather_data_has_alerts_witness :
  exists r alerts features,
    process_weather_data (lit "2024-01-01 00:00:00") sample_bundle_alert
      (lit "Miami_FL") = Ok r
    /\ method_get sample_bundle_alert (lit "alerts") empty_dict = Ok alerts
    /\ method_get alerts (lit "features") VNone = Ok features
    /\ field r "has_alerts" = Some (VStr (lit "Yes")).
Proof.
  eexists.
  match goal with
  | |- exists a f, ?P = Ok ?r /\ _ =>
      destruct (process_weather_data_has_alerts (lit "2024-01-01 00:00:00")
                  sample_bundle_alert (lit "Miami_FL") r)
        as (a & f & Ha & Hf & Hr); [vm_compute; reflexivity|];
      exists a, f
  end.
  split; [vm_compute; reflexivity|]. split; [exact Ha|].
  split; [exact Hf|]. rewrite Hr.
  vm_compute in Ha. injection Ha as <-.
  vm_compute in Hf. injection Hf as <-. reflexivity.
Defined.

Lemma replace_char_absent (c d : ascii) (s : str) :
  ascii_eqb d c = false -> has_char c (replace_char c [d] s) = false.
Proof.
  intros Hd. unfold has_char. rewrite replace_char_map.
  induction s as [|x s IH]; [reflexivity|]. simpl. rewrite IH, orb_false_r.
  destruct (ascii_eqb x c) eqn:E.
  - unfold ascii_eqb in *. now rewrite Ascii.eqb_sym.
  - unfold ascii_eqb in *. now rewrite Ascii.eqb_sym.
Qed.

(** The detailed forecast of a returned record is a string without any
    comma. *)
Theorem process_weather_data_detailed_no_comma (now : str) (raw : value)
    (region : str) (r : record) :
  process_weather_data now raw region = Ok r ->
  exists s, field r "detailed_forecast" = Some (VStr s)
            /\ has_char c_comma s = false.
Proof.
  intros H.
  destruct (process_weather_data_ok _ _ _ _ H)
    as (cur0 & current & alerts & features & detailed & tc & tf & vals
        & -> & Hlen & _).
  break_vals vals. eexists. split; [reflexivity|].
  apply replace_char_absent. reflexivity.
Qed.

Lemma process_weather_data_detailed_no_comma_witness :
  exists r s,
    process_weather_data (lit "2024-01-01 00:00:00") sample_bundle_forecast
      (lit "Miami_FL") = Ok r
    /\ field r "detailed_forecast" = Some (VStr s)
    /\ has_char c_comma s = false
    /\ s = lit "Sunny| with a high near 75| light wind".
Proof.
  eexists.
  match goal with
  | |- exists s, ?P = Ok ?r /\ _ =>
      destruct (process_weather_data_detailed_no_comma
                  (lit "2024-01-01 00:00:00") sample_bundle_forecast
                  (lit "Miami_FL") r)
        as (s & Hs & Hc); [vm_compute; reflexivity|]; exists s
  end.
  split; [vm_compute; reflexivity|]. split; [exact Hs|]. split; [exact Hc|].
  vm_compute in Hs. injection Hs as <-. reflexivity.
Defined.

(** ** The Fahrenheit conversion on every numeric reading *)

Lemma fmul9_denotes (f : pyfloat) (a b : Z) :
  fdenotes f a b -> fdenotes (fmul_int f 9) (9 * a) b.
Proof.
  destruct f as [m e| |]; [|contradiction|contradiction].
  intros H. apply fnorm_denotes. unfold fdenotes in *.
  destruct (0 <=? e); [rewrite <- H; ring|].
  replace (m * 9 * b) with (9 * (m * b)) by ring. rewrite H. ring.
Qed.

Lemma fdiv5_denotes (f : pyfloat) (a b : Z) :
  fdenotes f a b -> fdenotes (fdiv5 f) a (5 * b).
Proof.
  destruct f as [m e| |]; [|contradiction|contradiction].
  intros H. apply fnorm_denotes. unfold fdenotes in *.
  destruct (0 <=? e) eqn:He, (0 <=? e - 1) eqn:He1;
    try apply Z.leb_le in He; try apply Z.leb_le in He1;
    try apply Z.leb_gt in He; try apply Z.leb_gt in He1; try lia.
  - assert (P : 10 ^ e = 10 * 10 ^ (e - 1))
      by (replace e with (1 + (e - 1)) at 1 by lia;
          rewrite Z.pow_add_r by lia; reflexivity).
    rewrite <- H, P. ring.
  - assert (e = 0) by lia. subst e. rewrite <- H.
    change (10 ^ (- (0 - 1))) with 10. change (10 ^ 0) with 1. ring.
  - assert (P : 10 ^ (- (e - 1)) = 10 * 10 ^ (- e))
      by (replace (- (e - 1)) with (1 + - e) by lia;
          rewrite Z.pow_add_r by lia; reflexivity).
    rewrite P. replace (2 * m * (5 * b)) with (10 * (m * b)) by ring.
    rewrite H. ring.
Qed.

Lemma fadd_denotes (f : pyfloat) (k a b : Z) :
  fdenotes f a b -> fdenotes (fadd_int f k) (a + k * b) b.
Proof.
  destruct f as [m e| |]; [|contradiction|contradiction].
  intros H. unfold fadd_int. unfold fdenotes in H.
  destruct (0 <=? e) eqn:He; apply fnorm_denotes; unfold fdenotes.
  - simpl. rewrite <- H. ring.
  - rewrite He.
    replace ((m + k * 10 ^ (- e)) * b)
      with (m * b + k * b * 10 ^ (- e)) by ring.
    rewrite H. ring.
Qed.

Lemma fnorm_int_denotes (n a b : Z) :
  n * b = a -> fdenotes (fnorm n 0) a b.
Proof. intros H. apply fnorm_denotes. simpl. rewrite <- H. ring. Qed.

(** The arithmetic of the conversion on a numeric reading. *)
Lemma convert_denotes (c : value) (a b : Z) :
  denotes c a b ->
  exists w, (x <- mul9 c ;; y <- div5 x ;; add32 y) = Ok w
            /\ denotes w (9 * a + 160 * b) (5 * b).
Proof.
  assert (E : 9 * a + 160 * b = 9 * a + 32 * (5 * b)) by ring.
  destruct c as [|t|n|f|s|l|d]; try contradiction; intros H; simpl in H.
  - eexists. split; [reflexivity|]. rewrite E. cbn [denotes].
    apply fadd_denotes, fdiv5_denotes, fnorm_int_denotes.
    rewrite <- H. ring.
  - eexists. split; [reflexivity|]. rewrite E. cbn [denotes].
    apply fadd_denotes, fdiv5_denotes, fnorm_int_denotes.
    rewrite <- H. ring.
  - eexists. split; [reflexivity|]. rewrite E. cbn [denotes].
    apply fadd_denotes, fdiv5_denotes, fmul9_denotes. exact H.
Qed.

Lemma safe_get_value_number (current c : value) (a b : Z) (default : value) :
  has_path current [lit "temperature"; lit "value"] c ->
  denotes c a b ->
  safe_get_value current [lit "temperature"; lit "value"] default = Ok c.
Proof.
  intros Hp Hc. rewrite (lookup_of_present_path current (lit "temperature") [lit "value"] c default Hp).
  destruct c; try contradiction; reflexivity.
Qed.

(** A number of integer value is formatted as that int. *)
Lemma format_number_of_integer (v : value) (n : Z) :
  denotes v n 1 -> format_number v = Ok (VInt n).
Proof.
  destruct v as [|t|i|f|s|l|d]; try contradiction; cbn [denotes]; intros H.
  - rewrite Z.mul_1_r in H. subst n. destruct t; reflexivity.
  - rewrite Z.mul_1_r in H. subst n. apply format_number_int.
  - destruct f as [m e| |]; [|contradiction|contradiction].
    unfold format_number.
    cbv beta iota delta [is_none eq_empty_str orb py_float bind py_int_of_float
                         float_ne_int].
    cbn [fdenotes] in H. destruct (0 <=? e) eqn:He.
    + rewrite Z.mul_1_r in H. rewrite H, Z.eqb_refl. reflexivity.
    + apply Z.leb_gt in He. pose proof (pow10_pos (- e)).
      rewrite Z.mul_1_r in H. rewrite H.
      rewrite Z.quot_mul by lia. rewrite Z.eqb_refl. reflexivity.
Qed.

Lemma denotes_fifth (v : value) (n : Z) :
  denotes v (5 * n) 5 -> denotes v n 1.
Proof.
  destruct v as [|t|i|f|s|l|d]; try contradiction; cbn [denotes]; try lia.
  destruct f as [m e| |]; [|contradiction|contradiction]. cbn [fdenotes].
  destruct (0 <=? e); [lia|]. intros H.
  assert (E : 5 * m = 5 * (n * 10 ^ (- e))) by (rewrite Z.mul_assoc, <- H; ring).
  lia.
Qed.

(** For a Celsius reading that is a multiple of five, [5 k], a returned
    record has the int [5 k] as its Celsius field and the int [9 k + 32] as
    its Fahrenheit field. The reading may be an int or a float; up to the
    given size every intermediate result of the source is an integer below
    [2^53], which double precision holds exactly. *)
Theorem process_weather_data_fahrenheit (now : str) (raw cur0 current : value)
    (region : str) (r : record) (c : value) (k : Z) :
  process_weather_data now raw region = Ok r ->
  method_get raw (lit "current") empty_dict = Ok cur0 ->
  method_get cur0 (lit "properties") empty_dict = Ok current ->
  has_path current [lit "temperature"; lit "value"] c ->
  denotes c (5 * k) 1 ->
  Z.abs k <= 2 * 10 ^ 14 ->
  field r "temperature_celsius" = Some (VInt (5 * k))
  /\ field r "temperature_fahrenheit" = Some (VInt (9 * k + 32)).
Proof.
  intros H Hcur0 Hcur Hp Hc _.
  destruct (process_weather_data_ok _ _ _ _ H)
    as (cur0' & current' & alerts & features & detailed & tc & tf & vals
        & -> & Hlen & Hcur0' & Hcur' & Htc & Htf & _).
  rewrite Hcur0 in Hcur0'. injection Hcur0' as <-.
  rewrite Hcur in Hcur'. injection Hcur' as <-.
  break_vals vals.
  unfold observed in Htc.
  rewrite (safe_get_value_number current c _ _ empty_str Hp Hc) in Htc.
  cbn [bind] in Htc.
  rewrite (format_number_of_integer c _ Hc) in Htc. injection Htc as <-.
  unfold fahrenheit_arg in Htf.
  rewrite (safe_get_value_number current c _ _ empty_str Hp Hc) in Htf.
  rewrite (safe_get_value_number current c _ _ (VInt 0) Hp Hc) in Htf.
  cbn [bind] in Htf.
  assert (Hnn : is_none c = false) by (destruct c; try contradiction; reflexivity).
  rewrite Hnn in Htf. cbn [negb] in Htf.
  destruct (convert_denotes c _ _ Hc) as (x & Ex & Dx).
  rewrite Ex in Htf. cbn [bind] in Htf.
  replace (9 * (5 * k) + 160 * 1) with (5 * (9 * k + 32)) in Dx by ring.
  rewrite Z.mul_1_r in Dx. apply denotes_fifth in Dx.
  rewrite (format_number_of_integer x _ Dx) in Htf. injection Htf as <-.
  split; reflexivity.
Qed.

Lemma process_weather_data_fahrenheit_witness :
  exists r,
    process_weather_data (lit "2024-01-01 00:00:00")
      (bundle_of (with_celsius (VFloat (FFin 25 0)))) (lit "Phoenix_AZ")
    = Ok r
    /\ field r "temperature_celsius" = Some (VInt 25)
    /\ field r "temperature_fahrenheit" = Some (VInt 77).
Proof.
  eexists. split; [vm_compute; reflexivity|].
  match goal with
  | |- field ?r _ = _ /\ _ =>
      apply (process_weather_data_fahrenheit (lit "2024-01-01 00:00:00")
               (bundle_of (with_celsius (VFloat (FFin 25 0))))
               (VDict [(lit "properties", with_celsius (VFloat (FFin 25 0)))])
               (with_celsius (VFloat (FFin 25 0)))
               (lit "Phoenix_AZ") r (VFloat (FFin 25 0)) 5)
  end.
  - vm_compute; reflexivity.
  - reflexivity.
  - reflexivity.
  - eapply path_step; [reflexivity|].
    eapply path_step; [reflexivity | apply path_here].
  - reflexivity.
  - vm_compute. discriminate.
Defined.

(** ** What the cleaner returns for a string *)

Lemma forallb_lstrip_by (P p : ascii -> bool) (s : str) :
  forallb P s = true -> forallb P (lstrip_by p s) = true.
Proof.
  induction s as [|c s IH]; [reflexivity|]. intros H. simpl.
  destruct (p c); [|exact H]. simpl in H.
  apply andb_prop in H as [_ H]. now apply IH.
Qed.

Lemma forallb_rev (P : ascii -> bool) (s : str) :
  forallb P s = true -> forallb P (rev s) = true.
Proof.
  rewrite !forallb_forall. intros H x Hx. apply H. now apply in_rev.
Qed.

Lemma forallb_strip_by (P p : ascii -> bool) (s : str) :
  forallb P s = true -> forallb P (strip_by p s) = true.
Proof.
  intros H. unfold strip_by, rstrip_by.
  now apply forallb_rev, forallb_lstrip_by, forallb_rev, forallb_lstrip_by.
Qed.

Lemma forallb_replace_char (P : ascii -> bool) (c : ascii) (new s : str) :
  forallb P new = true -> forallb P s = true ->
  forallb P (replace_char c new s) = true.
Proof.
  intros Hn. induction s as [|x s IH]; [reflexivity|]. simpl.
  intros [Hx Hs]%andb_prop. destruct (ascii_eqb x c).
  - rewrite forallb_app, Hn. now apply IH.
  - simpl. rewrite Hx. now apply IH.
Qed.

Lemma forallb_replace_doubled_quote (P : ascii -> bool) (s : str) :
  P c_quote = true -> forallb P s = true ->
  forallb P (replace_doubled_quote s) = true.
Proof.
  intros Hq.
  assert (H : forall n (t : str), (length t <= n)%nat ->
            forallb P t = true -> forallb P (replace_doubled_quote t) = true).
  { induction n as [|n IH]; intros [|a [|b t]] Hn Ht; simpl in Hn;
      try exact Ht; try lia.
    change (replace_doubled_quote (a :: b :: t))
      with (if is_quote a && is_quote b
            then c_quote :: replace_doubled_quote t
            else a :: replace_doubled_quote (b :: t)).
    simpl in Ht. apply andb_prop in Ht as [Ha Ht].
    destruct (is_quote a && is_quote b).
    - simpl. rewrite Hq. apply andb_prop in Ht as [_ Ht].
      apply IH; [lia | exact Ht].
    - cbn [forallb]. rewrite Ha. apply IH; [simpl; lia | exact Ht]. }
  apply (H (length s)). lia.
Qed.

Lemma forallb_collapse_loop (P : ascii -> bool) (s : str) :
  P c_quote = true -> forallb P s = true ->
  forallb P (collapse_loop s) = true.
Proof.
  intros Hq.
  apply (collapse_loop_elim
           (fun s r => forallb P s = true -> forallb P r = true)).
  - intros t _ IH _ Ht. apply IH. now apply forallb_replace_doubled_quote.
  - intros t _ _ Ht. exact Ht.
Qed.

(** After the line breaks are replaced, the cleaner only deletes
    characters and adds quotes. *)
Lemma forallb_quote_if_needed (P : ascii -> bool) (s : str) :
  P c_quote = true -> forallb P s = true ->
  forallb P (quote_if_needed s) = true.
Proof.
  intros Hq Hs. unfold quote_if_needed.
  pose proof (forallb_strip_by P (fun c => has_char c [c_quote]) s Hs) as H.
  fold (strip_chars [c_quote] s) in H.
  destruct (has_char c_comma _ || has_char c_quote _); [|exact H].
  cbn [forallb]. rewrite Hq, forallb_app. cbn [forallb]. rewrite Hq.
  rewrite (forallb_replace_char P c_backtick [] _ eq_refl H). reflexivity.
Qed.

Lemma free_of_replace_char (c d : ascii) (new s : str) :
  free_of c new = true ->
  (ascii_eqb d c = true \/ free_of c s = true) ->
  free_of c (replace_char d new s) = true.
Proof.
  intros Hn H. unfold free_of in *.
  induction s as [|x s IH]; [reflexivity|]. simpl.
  destruct (ascii_eqb x d) eqn:Exd.
  - rewrite forallb_app, Hn. apply IH.
    destruct H as [H|H]; [now left|]. right. simpl in H.
    now apply andb_prop in H as [_ H].
  - simpl. destruct H as [H|H].
    + apply ascii_eqb_eq in H. subst d. rewrite Exd. apply IH. left.
      now apply ascii_eqb_eq.
    + simpl in H. apply andb_prop in H as [Hx H]. rewrite Hx. apply IH.
      now right.
Qed.

(** A cleaned string holds no line feed and no carriage return. *)
Theorem clean_str_no_line_break (s : str) :
  has_char c_lf (clean_str s) = false /\ has_char c_cr (clean_str s) = false.
Proof.
  assert (Hlf : free_of c_lf (unbroken s) = true).
  { unfold unbroken. apply free_of_replace_char; [reflexivity|]. right.
    apply free_of_replace_char; [reflexivity|]. left. reflexivity. }
  assert (Hcr : free_of c_cr (unbroken s) = true).
  { unfold unbroken. apply free_of_replace_char; [reflexivity|]. left.
    reflexivity. }
  assert (G : forall c, ascii_eqb c_quote c = false ->
              free_of c (unbroken s) = true ->
              has_char c (clean_str s) = false).
  { intros c Hq Hc. unfold clean_str.
    assert (F : free_of c (quote_if_needed (collapse_loop (unbroken s))) = true).
    { apply forallb_quote_if_needed; [now rewrite Hq|].
      apply forallb_collapse_loop; [now rewrite Hq | exact Hc]. }
    unfold free_of in F. unfold has_char.
    destruct (existsb _ _) eqn:E; [|reflexivity].
    apply existsb_exists in E as (x & Hx & Ex).
    rewrite forallb_forall in F. specialize (F x Hx).
    unfold ascii_eqb in *. rewrite Ascii.eqb_sym in Ex. now rewrite Ex in F. }
  split; apply G; auto.
Qed.

(** A cleaned string that holds a comma is wrapped in quotes, and what is
    between the quotes holds no backtick. *)
Theorem clean_str_comma_is_wrapped (s : str) :
  has_char c_comma (clean_str s) = true ->
  exists body,
    clean_str s = c_quote :: body ++ [c_quote]
    /\ free_of c_backtick body = true.
Proof.
  unfold clean_str, quote_if_needed.
  set (t := strip_chars [c_quote] (collapse_loop (unbroken s))).
  destruct (has_char c_comma t) eqn:Hc; cbn [orb].
  - intros _. eexists. split; [reflexivity|].
    apply free_of_replace_char; [reflexivity|]. left. reflexivity.
  - destruct (has_char c_quote t).
    + intros _. eexists. split; [reflexivity|].
      apply free_of_replace_char; [reflexivity|]. left. reflexivity.
    + congruence.
Qed.

Lemma clean_str_comma_is_wrapped_witness :
  exists body,
    clean_str (lit "  Rain, then `clearing` ")
    = c_quote :: body ++ [c_quote]
    /\ free_of c_backtick body = true.
Proof.
  apply clean_str_comma_is_wrapped. vm_compute. reflexivity.
Defined.

Lemma lstrip_by_id (p : ascii -> bool) (s : str) :
  forallb (fun c => negb (p c)) s = true -> lstrip_by p s = s.
Proof.
  destruct s as [|c s]; [reflexivity|]. simpl.
  intros [Hc _]%andb_prop. now destruct (p c).
Qed.

Lemma replace_char_id (c : ascii) (new s : str) :
  free_of c s = true -> replace_char c new s = s.
Proof.
  unfold free_of. induction s as [|x s IH]; [reflexivity|]. simpl.
  intros [Hx Hs]%andb_prop. apply negb_true_iff in Hx. rewrite Hx.
  now rewrite IH.
Qed.

Lemma no_quote_no_doubled_quote (s : str) :
  free_of c_quote s = true -> has_doubled_quote s = false.
Proof.
  unfold free_of. induction s as [|a [|b t] IH]; try reflexivity.
  intros H. cbn [forallb] in H. apply andb_prop in H as [Ha H].
  cbn [has_doubled_quote]. unfold is_quote at 1.
  apply negb_true_iff in Ha. rewrite Ha. cbn [andb orb]. now apply IH.
Qed.

Lemma plain_free_of (s : str) (c : ascii) :
  needs_quoting c = true ->
  forallb (fun x => negb (needs_quoting x)) s = true ->
  free_of c s = true.
Proof.
  intros Hc H. unfold free_of. rewrite forallb_forall in *.
  intros x Hx. specialize (H x Hx). apply negb_true_iff in H.
  apply negb_true_iff. destruct (ascii_eqb x c) eqn:E; [|reflexivity].
  apply ascii_eqb_eq in E. subst x. congruence.
Qed.

(** The cleaner leaves a plain string as it is. *)
Theorem clean_str_plain (s : str) : plain s -> clean_str s = s.
Proof.
  intros (Hq & Hl & Hr).
  assert (Hstrip : strip s = s).
  { unfold strip, strip_by, rstrip_by. rewrite Hl, Hr. apply rev_involutive. }
  assert (Hu : unbroken s = s).
  { unfold unbroken. rewrite Hstrip.
    rewrite (replace_char_id c_lf) by (apply plain_free_of; auto).
    apply replace_char_id, plain_free_of; auto. }
  pose proof (plain_free_of s c_quote eq_refl Hq) as Fq.
  pose proof (plain_free_of s c_comma eq_refl Hq) as Fc.
  unfold clean_str. rewrite Hu, collapse_loop_runs.
  rewrite (collapse_runs_stable s (no_quote_no_doubled_quote s Fq)).
  unfold quote_if_needed.
  assert (Hs : strip_chars [c_quote] s = s).
  { assert (Hany : forall t, free_of c_quote t = true ->
               forallb (fun c => negb (has_char c [c_quote])) t = true).
    { intros t Ht. unfold free_of in Ht. rewrite forallb_forall in *.
      intros x Hx. specialize (Ht x Hx). unfold has_char. cbn [existsb].
      rewrite orb_false_r. unfold ascii_eqb in *.
      now rewrite Ascii.eqb_sym. }
    unfold strip_chars, strip_by, rstrip_by.
    rewrite (lstrip_by_id _ s (Hany s Fq)).
    rewrite lstrip_by_id; [apply rev_involutive|].
    apply Hany. unfold free_of. now apply forallb_rev. }
  rewrite Hs.
  assert (Nc : has_char c_comma s = false).
  { unfold has_char. destruct (existsb _ s) eqn:E; [|reflexivity].
    apply existsb_exists in E as (x & Hx & Ex).
    unfold free_of in Fc. rewrite forallb_forall in Fc. specialize (Fc x Hx).
    unfold ascii_eqb in *. rewrite Ascii.eqb_sym in Ex. now rewrite Ex in Fc. }
  assert (Nq : has_char c_quote s = false).
  { unfold has_char. destruct (existsb _ s) eqn:E; [|reflexivity].
    apply existsb_exists in E as (x & Hx & Ex).
    unfold free_of in Fq. rewrite forallb_forall in Fq. specialize (Fq x Hx).
    unfold ascii_eqb in *. rewrite Ascii.eqb_sym in Ex. now rewrite Ex in Fq. }
  now rewrite Nc, Nq.
Qed.

Lemma clean_str_plain_witness :
  clean_str (lit "2024-01-01 00:00:00") = lit "2024-01-01 00:00:00".
Proof.
  apply clean_str_plain. repeat split; vm_compute; reflexivity.
Defined.

(** ** Writing and reading back *)

(** The rows of cells the writer writes are read back by the reader, in
    order and without error, when no cell is longer than the reader's
    limit: commas, quotes and line breaks inside a cell survive the round
    trip. *)
Theorem csv_round_trip (rows : list (list str)) :
  rows_fit rows = true ->
  csv_reader (concat (map write_row rows)) = (rows, None).
Proof. intros H. rewrite csv_reader_text. now apply read_written_rows. Qed.

Lemma csv_round_trip_witness :
  let rows := [[lit "Sunny, hot"; [c_quote] ++ lit "quoted" ++ [c_quote]];
               [lit "two" ++ [c_lf] ++ lit "lines"; []; lit "x"]] in
  rows_fit rows = true
  /\ csv_reader (concat (map write_row rows)) = (rows, None).
Proof.
  cbv zeta. split; [vm_compute; reflexivity|].
  apply csv_round_trip. vm_compute. reflexivity.
Defined.

Lemma filter_full_rows (written : list (list str)) :
  Forall (fun cells => length cells = 23%nat) written ->
  filter (fun r => negb (is_empty r)) written = written.
Proof.
  induction 1 as [|cells written Hc _ IH]; [reflexivity|].
  simpl. rewrite IH. destruct cells; [discriminate | reflexivity].
Qed.

(** A dataset written with full rows, whose cells are within the reader's
    limit, is a valid dataset. *)
Lemma valid_written (written : list (list str)) :
  Forall (fun cells => length cells = 23%nat) written ->
  rows_fit written = true ->
  valid_dataset (dataset_text written) (map (make_row FIELDNAMES) written).
Proof.
  intros H Hfit. split; [apply looks_like_csv_dataset|]. split.
  - now rewrite (dict_reader_dataset _ Hfit), filter_full_rows.
  - apply Forall_forall. intros row Hrow.
    apply in_map_iff in Hrow as (cells & <- & Hin).
    eexists. apply stored_row.
    exact (proj1 (Forall_forall _ _) H cells Hin).
Qed.

Lemma scan_rows_kept (rows : list record) :
  forall entries kept entries' kept' err,
    scan_rows rows entries kept = (entries', kept', err) ->
    forall r, In r kept' -> In r kept \/ In r rows.
Proof.
  induction rows as [|row rows IH]; intros entries kept entries' kept' err H r Hr.
  - simpl in H. injection H as _ <- _. now left.
  - simpl in H. destruct (entry_key row) as [k|e].
    + destruct (mem k entries).
      * destruct (IH _ _ _ _ _ H r Hr) as [Hin|Hin]; [now left|right; now right].
      * destruct (IH _ _ _ _ _ H r Hr) as [Hin|Hin]; [|right; now right].
        apply in_app_or in Hin as [Hin|[<-|[]]]; [now left|right; now left].
    + injection H as _ <- _. now left.
Qed.

Lemma traverse_cleaned_full (rows : list record) (written : list (list str)) :
  traverse cleaned_cells rows = Ok written ->
  Forall (fun cells => length cells = 23%nat) written.
Proof.
  revert written. induction rows as [|row rows IH]; intros written H; simpl in H.
  - injection H as <-. constructor.
  - apply bind_ok in H as (c & Hc & H). apply bind_ok in H as (cs & Hcs & H).
    injection H as <-. constructor; [exact (cleaned_cells_length _ _ Hc)|].
    now apply IH.
Qed.

(** What the inner [try] leaves behind: without an exception, an empty
    buffer and no keys, or a dataset of full rows; with an exception that
    the handler catches, an empty buffer. *)
Lemma load_existing_shape (existing : result str) (output : str)
    (entries : list str) (err : option exn) :
  load_existing existing = (output, entries, err) ->
  match err with
  | None =>
      (output = [] /\ entries = [])
      \/ exists old, output = dataset_text old
                     /\ Forall (fun cells => length cells = 23%nat) old
  | Some e => handled e [NoSuchKey; CsvError] = true -> output = []
  end.
Proof.
  unfold load_existing. destruct existing as [text|e0].
  2:{ intros H. injection H as <- <- <-. reflexivity. }
  destruct (looks_like_csv text).
  2:{ intros H. injection H as <- <- <-. left. now split. }
  destruct (dict_reader text) as [rows read_err] eqn:Hread.
  destruct (scan_rows rows [] []) as [[ents kept] scan_err] eqn:Hscan.
  destruct scan_err as [e|].
  { intros H. injection H as <- <- <-. reflexivity. }
  destruct read_err as [e|].
  { intros H. injection H as <- <- <-. reflexivity. }
  assert (Hkept : Forall read_row kept).
  { apply Forall_forall. intros r Hr.
    destruct (scan_rows_kept _ _ _ _ _ _ Hscan r Hr) as [[]|Hin].
    apply dict_reader_read_rows in Hread. rewrite Forall_forall in Hread.
    now apply Hread. }
  destruct (cleaned_cells_read_rows kept Hkept) as [old Hold].
  rewrite (write_cleaned_ok kept old header_line Hold).
  intros H. injection H as <- <- <-. right. exists old.
  split; [reflexivity | exact (traverse_cleaned_full _ _ Hold)].
Qed.

(** Whatever the stored object and the record: the text a merge hands to
    the store is a header line followed by full rows. *)
Lemma save_written (existing : result str) (data : record) (out : str) :
  save_consolidated_data existing data = Ok out ->
  exists written,
    out = dataset_text written
    /\ Forall (fun cells => length cells = 23%nat) written.
Proof.
  unfold save_consolidated_data.
  destruct (load_existing existing) as [[output entries] err] eqn:Hload.
  apply load_existing_shape in Hload.
  assert (Hout : forall output',
            (output' = [] /\ entries = [])
            \/ (exists old, output' = dataset_text old
                  /\ Forall (fun cells => length cells = 23%nat) old) ->
            (new_entry_key <- entry_key data ;;
             if negb (mem new_entry_key entries) then
               cleaned_data <- cleaned_cells data ;;
               Ok ((if is_empty output' then output' ++ header_line
                    else output') ++ write_row cleaned_data)
             else Ok output') = Ok out ->
            exists written,
              out = dataset_text written
              /\ Forall (fun cells => length cells = 23%nat) written).
  { intros output' Hshape H. apply bind_ok in H as (k & _ & H).
    destruct Hshape as [[-> ->] | (old & -> & Hold)].
    - cbn [mem existsb negb] in H. apply bind_ok in H as (new & Hnew & H).
      cbn [is_empty app] in H. injection H as <-. exists [new]. split.
      + unfold dataset_text. cbn [map concat]. now rewrite app_nil_r.
      + constructor; [exact (cleaned_cells_length _ _ Hnew) | constructor].
    - destruct (negb (mem k entries)).
      + apply bind_ok in H as (new & Hnew & H).
        unfold dataset_text in H. rewrite is_empty_header_app in H.
        injection H as <-. exists (old ++ [new]). split.
        * unfold dataset_text. rewrite map_app, concat_app. cbn [map concat].
          now rewrite app_nil_r, app_assoc.
        * apply Forall_app. split; [exact Hold|].
          constructor; [exact (cleaned_cells_length _ _ Hnew) | constructor].
      + injection H as <-. now exists old. }
  destruct err as [e|].
  - destruct (handled e [NoSuchKey; CsvError]) eqn:He; [|discriminate].
    rewrite (Hload eq_refl). cbn [app bind]. apply Hout.
    right. exists []. split; [|constructor].
    unfold dataset_text. cbn [map concat]. now rewrite app_nil_r.
  - cbn [bind]. apply Hout. exact Hload.
Qed.

Lemma rows_fit_app (a b : list (list str)) :
  rows_fit (a ++ b) = rows_fit a && rows_fit b.
Proof. unfold rows_fit. apply forallb_app. Qed.

(** When no cell written is longer than the reader's limit, what a merge
    hands to the store is a valid dataset for the next merge: it passes the
    sanity check and is read back, without error, as one row with a key for
    every row written. *)
Theorem merge_output_is_valid
    (existing : result str) (rows : list record) (data : record) (k : str)
    (old : list (list str)) (new : list str) :
  starts_from existing rows ->
  entry_key data = Ok k ->
  traverse cleaned_cells (first_occurrences rows) = Ok old ->
  cleaned_cells data = Ok new ->
  rows_fit (old ++ [new]) = true ->
  let written := old ++ (if seen_before rows data then [] else [new]) in
  save_consolidated_data existing data = Ok (dataset_text written)
  /\ valid_dataset (dataset_text written) (map (make_row FIELDNAMES) written)
  /\ row_keys (map (make_row FIELDNAMES) written)
     = map (fun cells => Ok (cells_key cells)) written.
Proof.
  intros Hst Hk Hold Hnew Hfit written.
  destruct (save_from existing rows data k Hst Hk) as (old' & Hold' & Hsave).
  rewrite Hold in Hold'. injection Hold' as <-.
  assert (Hsaved : save_consolidated_data existing data = Ok (dataset_text written)).
  { rewrite Hsave. subst written. destruct (seen_before rows data).
    - now rewrite app_nil_r.
    - now rewrite Hnew. }
  assert (Hfull : Forall (fun cells => length cells = 23%nat) written).
  { destruct (save_written _ _ _ Hsaved) as (w & _ & _).
    subst written. apply Forall_app. split.
    - exact (traverse_cleaned_full _ _ Hold).
    - destruct (seen_before rows data); constructor;
        [exact (cleaned_cells_length _ _ Hnew) | constructor]. }
  assert (Hfits : rows_fit written = true).
  { subst written. rewrite rows_fit_app in *.
    apply andb_prop in Hfit as [Ho Hn]. rewrite Ho.
    now destruct (seen_before rows data). }
  split; [exact Hsaved|]. split; [now apply valid_written|].
  unfold row_keys. rewrite map_map. apply map_ext_in. intros c Hc.
  apply stored_row. exact (proj1 (Forall_forall _ _) Hfull c Hc).
Qed.

Lemma merge_output_is_valid_witness :
  let data := sample_record (lit "2024-01-01 00:00:02") (lit "Denver_CO") in
  exists written,
    length written = 3%nat
    /\ rows_fit written = true
    /\ save_consolidated_data (Ok sample_dataset) data = Ok (dataset_text written)
    /\ valid_dataset (dataset_text written) (map (make_row FIELDNAMES) written).
Proof.
  cbv zeta.
  destruct (kept_rows_clean sample_dataset _ None (proj1 (proj2 sample_dataset_valid)))
    as [old Hold].
  destruct (cleaned_cells (sample_record (lit "2024-01-01 00:00:02") (lit "Denver_CO")))
    as [new|e] eqn:Hnew; [|vm_compute in Hnew; discriminate].
  assert (Hfit : rows_fit (old ++ [new]) = true).
  { vm_compute in Hold. injection Hold as <-.
    vm_compute in Hnew. injection Hnew as <-. vm_compute. reflexivity. }
  destruct (merge_output_is_valid (Ok sample_dataset)
              (fst (dict_reader sample_dataset))
              (sample_record (lit "2024-01-01 00:00:02") (lit "Denver_CO"))
              (lit "2024-01-01 00:00:02_Denver_CO") old new)
    as (Hsave & Hvalid & _);
    [right; exists sample_dataset; split; [reflexivity | exact sample_dataset_valid]
    | vm_compute; reflexivity | exact Hold | exact Hnew | exact Hfit |].
  assert (Hseen : seen_before (fst (dict_reader sample_dataset))
                    (sample_record (lit "2024-01-01 00:00:02") (lit "Denver_CO"))
                  = false) by (vm_compute; reflexivity).
  rewrite Hseen in Hsave, Hvalid.
  exists (old ++ [new]). split.
  - apply traverse_length in Hold. rewrite length_app, Hold.
    vm_compute. reflexivity.
  - split; [exact Hfit|]. split; [exact Hsave | exact Hvalid].
Defined.

(** A record whose key one of the existing rows already has is not
    written: the output holds the kept existing rows only, and the record
    is not even cleaned. *)
Theorem merge_existing_key_not_appended
    (text : str) (rows : list record) (data : record) (k : str) :
  valid_dataset text rows ->
  entry_key data = Ok k ->
  existsb (has_key k) rows = true ->
  exists old,
    traverse cleaned_cells (first_occurrences rows) = Ok old
    /\ save_consolidated_data (Ok text) data = Ok (dataset_text old).
Proof.
  intros Hv Hk Hseen.
  destruct (save_valid text rows data k Hv Hk) as (old & Hold & Hsave).
  exists old. split; [exact Hold|]. now rewrite Hsave, Hseen.
Qed.

Lemma merge_existing_key_not_appended_witness :
  let data := sample_record (lit "2024-01-01 00:00:01") (lit "Miami_FL") in
  let rows := fst (dict_reader sample_dataset) in
  exists old,
    traverse cleaned_cells (first_occurrences rows) = Ok old
    /\ map cells_key old
       = [lit "2024-01-01 00:00:00_Phoenix_AZ"; lit "2024-01-01 00:00:01_Miami_FL"]
    /\ save_consolidated_data (Ok sample_dataset) data = Ok (dataset_text old).
Proof.
  cbv zeta.
  destruct (merge_existing_key_not_appended sample_dataset
              (fst (dict_reader sample_dataset))
              (sample_record (lit "2024-01-01 00:00:01") (lit "Miami_FL"))
              (lit "2024-01-01 00:00:01_Miami_FL") sample_dataset_valid)
    as (old & Hold & Hsave); [vm_compute; reflexivity ..|].
  exists old. split; [exact Hold|]. split; [|exact Hsave].
  vm_compute in Hold. injection Hold as <-. vm_compute. reflexivity.
Defined.

(** ** The loop over the existing rows *)

Lemma scan_rows_entries (rows : list record) :
  forall entries kept entries' kept' err,
    scan_rows rows entries kept = (entries', kept', err) ->
    map entry_key kept = map (fun k : str => Ok k) entries ->
    map entry_key kept' = map (fun k : str => Ok k) entries'.
Proof.
  induction rows as [|row rows IH]; intros entries kept entries' kept' err H Hm.
  - simpl in H. injection H as <- <- <-. exact Hm.
  - simpl in H. destruct (entry_key row) as [k|e] eqn:Hk.
    + destruct (mem k entries).
      * exact (IH _ _ _ _ _ H Hm).
      * apply (IH _ _ _ _ _ H). rewrite !map_app, Hm. simpl. now rewrite Hk.
    + injection H as <- <- <-. exact Hm.
Qed.

(** On rows that all have their key columns the loop does not fail; it
    keeps, in order, the first row of every key, and the key set holds
    exactly the keys of the kept rows, one for one and without repeats: no
    key of the file is lost and none is kept twice. *)
Theorem scan_rows_keeps_each_key_once (rows : list record) :
  Forall (fun row => returns (entry_key row)) rows ->
  exists entries kept,
    scan_rows rows [] [] = (entries, kept, None)
    /\ kept = first_occurrences rows
    /\ map entry_key kept = map (fun k : str => Ok k) entries
    /\ NoDup entries
    /\ (forall k, mem k entries = existsb (has_key k) rows).
Proof.
  intros Hall.
  destruct (scan_rows_spec rows [] [] [] Hall tracks_nil) as (entries & Hs & Ht).
  exists entries, (first_occurrences rows).
  split; [exact Hs|]. split; [reflexivity|].
  pose proof (scan_rows_entries rows [] [] _ _ _ Hs eq_refl) as Hm.
  split; [exact Hm|]. split; [|exact Ht].
  apply (NoDup_map_inv (fun k : str => Ok k)). rewrite <- Hm.
  apply first_occurrences_from_nodup. exact Hall.
Qed.

Lemma scan_rows_keeps_each_key_once_witness :
  exists entries kept,
    scan_rows (fst (dict_reader sample_dataset)) [] [] = (entries, kept, None)
    /\ kept = first_occurrences (fst (dict_reader sample_dataset))
    /\ map entry_key kept = map (fun k : str => Ok k) entries
    /\ NoDup entries
    /\ (forall k, mem k entries
                  = existsb (has_key k) (fst (dict_reader sample_dataset))).
Proof.
  apply scan_rows_keeps_each_key_once.
  exact (proj2 (proj2 sample_dataset_valid)).
Defined.

(** ** Failures of the merge *)

Lemma py_str_textual (v : value) : textual v = true -> returns (py_str v).
Proof. destruct v; try discriminate; intros _; eexists; reflexivity. Qed.

Lemma dict_lookup_textual (row : record) (k : str) (v : value) :
  read_row row -> dict_lookup row k = Some v -> textual v = true.
Proof.
  intros H. induction H as [|[k' v'] row Hv _ IH]; simpl; [discriminate|].
  destruct (str_eqb k' k); [|exact IH]. intros E. injection E as <-. exact Hv.
Qed.

(** A row from the reader that lacks one of the key columns. *)
Lemma entry_key_missing (row : record) :
  read_row row ->
  dict_lookup row (lit "timestamp") = None
  \/ dict_lookup row (lit "region") = None ->
  entry_key row = Raise KeyError.
Proof.
  intros Hrow [H|H]; unfold entry_key, subscript; [now rewrite H|].
  destruct (dict_lookup row (lit "timestamp")) as [t|] eqn:Ht; cbn [bind];
    [|reflexivity].
  destruct (py_str_textual t (dict_lookup_textual _ _ _ Hrow Ht)) as [ts ->].
  cbn [bind]. now rewrite H.
Qed.

(** Any record that lacks one of the key fields. *)
Lemma entry_key_missing_raises (row : record) :
  dict_lookup row (lit "timestamp") = None
  \/ dict_lookup row (lit "region") = None ->
  raises (entry_key row).
Proof.
  intros [H|H]; unfold entry_key, subscript;
    [rewrite H; eexists; reflexivity|].
  destruct (dict_lookup row (lit "timestamp")) as [t|]; cbn [bind];
    [|eexists; reflexivity].
  destruct (py_str t); cbn [bind]; [|eexists; reflexivity].
  rewrite H. eexists. reflexivity.
Qed.

(** A stored text that passes the sanity check but whose first data row
    has no timestamp or no region column makes the merge raise
    [KeyError], whatever the new record is: nothing is written. *)
Theorem merge_foreign_columns_raise
    (text : str) (row : record) (rest : list record) (err : option exn)
    (data : record) :
  looks_like_csv text = true ->
  dict_reader text = (row :: rest, err) ->
  dict_lookup row (lit "timestamp") = None
  \/ dict_lookup row (lit "region") = None ->
  save_consolidated_data (Ok text) data = Raise KeyError.
Proof.
  intros Hcsv Hread Hrow.
  assert (Hr : read_row row).
  { apply dict_reader_read_rows in Hread. now inversion Hread. }
  unfold save_consolidated_data, load_existing. rewrite Hcsv, Hread.
  cbn [scan_rows]. rewrite (entry_key_missing row Hr Hrow). reflexivity.
Qed.

Lemma merge_foreign_columns_raise_witness :
  save_consolidated_data (Ok sample_foreign_dataset)
    (sample_record (lit "2024-01-01 00:00:00") (lit "Phoenix_AZ"))
  = Raise KeyError.
Proof.
  eapply (merge_foreign_columns_raise sample_foreign_dataset).
  - vm_compute. reflexivity.
  - vm_compute. reflexivity.
  - left. reflexivity.
Defined.

Lemma save_after_reader_error
    (text : str) (rows : list record) (data : record) (k : str) :
  looks_like_csv text = true ->
  dict_reader text = (rows, Some CsvError) ->
  Forall (fun row => returns (entry_key row)) rows ->
  entry_key data = Ok k ->
  save_consolidated_data (Ok text) data
  = if existsb (has_key k) rows then Ok header_line
    else new <- cleaned_cells data ;; Ok (header_line ++ write_row new).
Proof.
  intros Hcsv Hread Hall Hk.
  unfold save_consolidated_data, load_existing. rewrite Hcsv, Hread.

  destruct (scan_rows_spec rows [] [] [] Hall tracks_nil) as (entries & Hs & Ht).
  rewrite Hs. cbn [handled existsb exn_isinstance exn_eqb orb app bind].
  rewrite Hk. cbn [bind]. rewrite Ht. cbn [app].
  destruct (existsb (has_key k) rows); cbn [negb]; [reflexivity|].
  now rewrite is_empty_header.
Qed.

(** When the reader fails in the middle of the stored text, the rows read
    before the failure are dropped from the output but their keys stay in
    the key set: the output is the bare header when the new record has one
    of those keys, and the header with the new record otherwise. *)
Theorem merge_after_reader_error
    (text : str) (rows : list record) (data : record) (k : str) :
  looks_like_csv text = true ->
  dict_reader text = (rows, Some CsvError) ->
  Forall (fun row => returns (entry_key row)) rows ->
  entry_key data = Ok k ->
  save_consolidated_data (Ok text) data
  = if existsb (has_key k) rows then Ok header_line
    else new <- cleaned_cells data ;; Ok (header_line ++ write_row new).
Proof. exact (save_after_reader_error text rows data k). Qed.

Lemma merge_after_reader_error_witness :
  save_consolidated_data (Ok sample_broken_dataset)
    (sample_record (lit "2024-01-01 00:00:00") (lit "Phoenix_AZ"))
  = Ok header_line
  /\ exists new,
       cleaned_cells (sample_record (lit "2024-01-01 00:00:05") (lit "Denver_CO"))
       = Ok new
       /\ save_consolidated_data (Ok sample_broken_dataset)
            (sample_record (lit "2024-01-01 00:00:05") (lit "Denver_CO"))
          = Ok (header_line ++ write_row new).
Proof.
  assert (Hc : looks_like_csv sample_broken_dataset = true)
    by (vm_compute; reflexivity).
  assert (Hr : dict_reader sample_broken_dataset
               = (fst (dict_reader sample_broken_dataset), Some CsvError))
    by (vm_compute; reflexivity).
  assert (Ha : Forall (fun row => returns (entry_key row))
                 (fst (dict_reader sample_broken_dataset))).
  { remember (fst (dict_reader sample_broken_dataset)) as rows eqn:E.
    vm_compute in E. subst rows.
    repeat (apply Forall_cons; [eexists; reflexivity|]). apply Forall_nil. }
  split.
  - rewrite (merge_after_reader_error sample_broken_dataset _
               (sample_record (lit "2024-01-01 00:00:00") (lit "Phoenix_AZ"))
               (lit "2024-01-01 00:00:00_Phoenix_AZ") Hc Hr Ha);
      [|reflexivity].
    replace (existsb _ _) with true by (vm_compute; reflexivity).
    reflexivity.
  - destruct (cleaned_cells
                (sample_record (lit "2024-01-01 00:00:05") (lit "Denver_CO")))
      as [new|e] eqn:Hnew; [|vm_compute in Hnew; discriminate].
    exists new. split; [reflexivity|].
    rewrite (merge_after_reader_error sample_broken_dataset _
               (sample_record (lit "2024-01-01 00:00:05") (lit "Denver_CO"))
               (lit "2024-01-01 00:00:05_Denver_CO") Hc Hr Ha);
      [|reflexivity].
    replace (existsb _ _) with false by (vm_compute; reflexivity).
    now rewrite Hnew.
Defined.

(** ** A stored cell over the reader's limit *)

(** The reader does not read back a cell that is longer than its limit:
    it yields the rows before the row of that cell and raises
    [csv.Error]. *)
Theorem csv_reader_rejects_long_cell
    (rows : list (list str)) (pre : list str) (f : str) (post : list str)
    (rest : str) :
  rows_fit rows = true ->
  forallb fits pre = true ->
  fits f = false ->
  csv_reader (concat (map write_row rows) ++ write_row (pre ++ f :: post) ++ rest)
  = (rows, Some CsvError).
Proof.
  intros Hrows Hpre Hf. rewrite csv_reader_text.
  now apply read_rows_then_fail.
Qed.

Lemma csv_reader_rejects_long_cell_witness :
  Z.of_nat (length sample_long_cell) = FIELD_LIMIT + 1
  /\ csv_reader
       (concat (map write_row [[lit "a"; lit "b, c"]])
        ++ write_row ([lit "x"] ++ sample_long_cell :: [lit "y"])
        ++ write_row [lit "z"])
     = ([[lit "a"; lit "b, c"]], Some CsvError).
Proof.
  split; [vm_compute; reflexivity|].
  apply csv_reader_rejects_long_cell; vm_compute; reflexivity.
Defined.

Lemma dict_reader_long_cell (rows : list (list str)) (pre : list str)
    (f : str) (post : list str) (more : list (list str)) :
  Forall (fun cells => length cells = 23%nat) rows ->
  rows_fit rows = true ->
  forallb fits pre = true ->
  fits f = false ->
  dict_reader (dataset_text (rows ++ (pre ++ f :: post) :: more))
  = (map (make_row FIELDNAMES) rows, Some CsvError).
Proof.
  intros Hfull Hrows Hpre Hf. unfold dict_reader.
  rewrite csv_reader_text. unfold dataset_text, header_line.
  rewrite (read_written_row _ _ fieldnames_fit).
  rewrite map_app, concat_app. cbn [map concat].
  rewrite (read_rows_then_fail rows pre f post _ Hrows Hpre Hf).
  now rewrite (filter_full_rows rows Hfull).
Qed.

(** One stored cell over the reader's limit makes the next merge lose the
    stored rows: the reader raises on the row of that cell, the handler
    starts a new file, and the output is the bare header when the new
    record has the key of a row read before, and the header with the new
    record only otherwise. *)
Theorem merge_after_long_cell_starts_over
    (rows : list (list str)) (pre : list str) (f : str) (post : list str)
    (more : list (list str)) (data : record) (k : str) :
  Forall (fun cells => length cells = 23%nat) rows ->
  rows_fit rows = true ->
  forallb fits pre = true ->
  fits f = false ->
  entry_key data = Ok k ->
  save_consolidated_data
    (Ok (dataset_text (rows ++ (pre ++ f :: post) :: more))) data
  = if existsb (str_eqb k) (map cells_key rows) then Ok header_line
    else new <- cleaned_cells data ;; Ok (header_line ++ write_row new).
Proof.
  intros Hfull Hrows Hpre Hf Hk.
  rewrite (save_after_reader_error _ (map (make_row FIELDNAMES) rows) data k).
  - replace (existsb (has_key k) (map (make_row FIELDNAMES) rows))
      with (existsb (str_eqb k) (map cells_key rows)); [reflexivity|].
    clear Hrows. induction Hfull as [|cells rows Hc _ IH]; [reflexivity|].
    cbn [map existsb]. rewrite IH. f_equal.
    rewrite (has_key_of _ _ k (proj1 (stored_row cells Hc))).
    apply str_eqb_sym.
  - apply looks_like_csv_dataset.
  - now apply dict_reader_long_cell.
  - apply Forall_forall. intros row Hrow.
    apply in_map_iff in Hrow as (cells & <- & Hin). eexists.
    apply stored_row. exact (proj1 (Forall_forall _ _) Hfull cells Hin).
  - exact Hk.
Qed.

Lemma merge_after_long_cell_starts_over_witness :
  let kept := sample_cells (lit "2024-01-01 00:00:00") (lit "Phoenix_AZ") in
  let long := [lit "2024-01-01 00:00:01"; lit "Miami_FL"]
              ++ sample_long_cell :: repeat [] 20 in
  let data := sample_record (lit "2024-01-01 00:00:02") (lit "Denver_CO") in
  length long = 23%nat
  /\ exists new,
       cleaned_cells data = Ok new
       /\ save_consolidated_data (Ok (dataset_text ([kept] ++ long :: []))) data
          = Ok (header_line ++ write_row new).
Proof.
  cbv zeta. split; [reflexivity|].
  destruct (cleaned_cells
              (sample_record (lit "2024-01-01 00:00:02") (lit "Denver_CO")))
    as [new|e] eqn:Hnew; [|vm_compute in Hnew; discriminate].
  exists new. split; [reflexivity|].
  rewrite (merge_after_long_cell_starts_over
             [sample_cells (lit "2024-01-01 00:00:00") (lit "Phoenix_AZ")]
             [lit "2024-01-01 00:00:01"; lit "Miami_FL"] sample_long_cell
             (repeat [] 20) []
             (sample_record (lit "2024-01-01 00:00:02") (lit "Denver_CO"))
             (lit "2024-01-01 00:00:02_Denver_CO")).
  - replace (existsb _ _) with false by (vm_compute; reflexivity).
    now rewrite Hnew.
  - repeat constructor.
  - vm_compute. reflexivity.
  - vm_compute. reflexivity.
  - vm_compute. reflexivity.
  - vm_compute. reflexivity.
Defined.

(** A record without timestamp or without region makes the merge raise,
    whatever the store holds. *)
Theorem merge_record_without_key_raises
    (existing : result str) (data : record) :
  dict_lookup data (lit "timestamp") = None
  \/ dict_lookup data (lit "region") = None ->
  raises (save_consolidated_data existing data).
Proof.
  intros H. unfold save_consolidated_data.
  destruct (load_existing existing) as [[output entries] [e|]].
  - destruct (handled e [NoSuchKey; CsvError]); cbn [bind];
      [|eexists; reflexivity].
    destruct (entry_key_missing_raises data H) as [e' ->]. eexists. reflexivity.
  - cbn [bind]. destruct (entry_key_missing_raises data H) as [e' ->].
    eexists. reflexivity.
Qed.

Lemma merge_record_without_key_raises_witness :
  raises (save_consolidated_data (Ok sample_dataset)
            [(lit "timestamp", VStr (lit "2024-01-01 00:00:00"));
             (lit "humidity", VInt 10)]).
Proof.
  apply merge_record_without_key_raises. right. reflexivity.
Defined.

(** ** The composite key *)

Lemma key_text_injective (t1 : str) :
  forall t2 r1 r2,
    free_of c_underscore t1 = true -> free_of c_underscore t2 = true ->
    t1 ++ [c_underscore] ++ r1 = t2 ++ [c_underscore] ++ r2 ->
    t1 = t2 /\ r1 = r2.
Proof.
  induction t1 as [|a t1 IH]; intros [|b t2] r1 r2 H1 H2 H; simpl in *.
  - injection H as <-. auto.
  - injection H as <- _. apply andb_prop in H2 as [H2 _].
    unfold ascii_eqb in H2. now rewrite Ascii.eqb_refl in H2.
  - injection H as -> _. apply andb_prop in H1 as [H1 _].
    unfold ascii_eqb in H1. now rewrite Ascii.eqb_refl in H1.
  - injection H as <- H. apply andb_prop in H1 as [_ H1].
    apply andb_prop in H2 as [_ H2].
    destruct (IH t2 r1 r2 H1 H2 H) as [-> ->]. auto.
Qed.

(** Records whose timestamps hold no underscore have the same composite
    key only when they have the same timestamp and the same region: on
    such records the key identifies the pair. *)
Theorem entry_key_injective (d1 d2 : record) (t1 r1 t2 r2 : str) :
  dict_lookup d1 (lit "timestamp") = Some (VStr t1) ->
  dict_lookup d1 (lit "region") = Some (VStr r1) ->
  dict_lookup d2 (lit "timestamp") = Some (VStr t2) ->
  dict_lookup d2 (lit "region") = Some (VStr r2) ->
  free_of c_underscore t1 = true ->
  free_of c_underscore t2 = true ->
  entry_key d1 = entry_key d2 ->
  t1 = t2 /\ r1 = r2.
Proof.
  intros Ht1 Hr1 Ht2 Hr2 F1 F2. unfold entry_key, subscript.
  rewrite Ht1, Hr1, Ht2, Hr2. cbn [bind py_str]. intros H. injection H as H.
  exact (key_text_injective t1 t2 r1 r2 F1 F2 H).
Qed.

Lemma entry_key_injective_witness :
  free_of c_underscore (lit "2024-01-01 00:00:00") = true
  /\ entry_key (sample_record (lit "2024-01-01 00:00:00") (lit "Salt_Lake_City_UT"))
     = Ok (lit "2024-01-01 00:00:00_Salt_Lake_City_UT")
  /\ lit "2024-01-01 00:00:00" = lit "2024-01-01 00:00:00"
  /\ lit "Salt_Lake_City_UT" = lit "Salt_Lake_City_UT".
Proof.
  split; [reflexivity|]. split; [reflexivity|].
  apply (entry_key_injective
           (sample_record (lit "2024-01-01 00:00:00") (lit "Salt_Lake_City_UT"))
           (sample_record (lit "2024-01-01 00:00:00") (lit "Salt_Lake_City_UT")));
    reflexivity.
Defined.

(** ** The execution timestamp *)

Lemma dict_lookup_set_other (d : record) (k k' : str) (v : value) :
  str_eqb k k' = false ->
  dict_lookup (dict_set d k v) k' = dict_lookup d k'.
Proof.
  intros Hk. induction d as [|[k0 v0] d IH]; simpl.
  - now rewrite Hk.
  - destruct (str_eqb k0 k) eqn:E; simpl.
    + apply str_eqb_eq in E. subst k0. now rewrite Hk.
    + destruct (str_eqb k0 k'); [reflexivity | exact IH].
Qed.

Lemma fieldnames_not_execution_timestamp (k : str) :
  In k FIELDNAMES -> str_eqb (lit "execution_timestamp") k = false.
Proof.
  assert (H : forallb (fun k => negb (str_eqb (lit "execution_timestamp") k))
                FIELDNAMES = true) by (vm_compute; reflexivity).
  rewrite forallb_forall in H. intros Hk.
  now apply negb_true_iff, H.
Qed.

Lemma traverse_ext_in {A B} (f g : A -> result B) (l : list A) :
  (forall x, In x l -> f x = g x) -> traverse f l = traverse g l.
Proof.
  induction l as [|x l IH]; intros H; [reflexivity|]. simpl.
  rewrite (H x (or_introl eq_refl)), IH; [reflexivity|].
  intros y Hy. apply H. now right.
Qed.

(** The execution timestamp that the handler adds to a record before
    saving it never reaches the dataset: the merge of the record with the
    added entry is the merge of the record without it. *)
Theorem save_ignores_execution_timestamp
    (existing : result str) (data : record) (v : value) :
  save_consolidated_data existing
    (dict_set data (lit "execution_timestamp") v)
  = save_consolidated_data existing data.
Proof.
  assert (Hk : entry_key (dict_set data (lit "execution_timestamp") v)
               = entry_key data).
  { unfold entry_key, subscript.
    rewrite !dict_lookup_set_other by (vm_compute; reflexivity). reflexivity. }
  assert (Hc : cleaned_cells (dict_set data (lit "execution_timestamp") v)
               = cleaned_cells data).
  { unfold cleaned_cells. apply traverse_ext_in. intros k Hin.
    unfold get_or_empty.
    now rewrite dict_lookup_set_other
      by (apply fieldnames_not_execution_timestamp; exact Hin). }
  unfold save_consolidated_data. now rewrite Hk, Hc.
Qed.

(** ** The run over the regions *)

Lemma run_regions_fold {W} (fx : effects W) (start : str)
    (regions : list region) :
  forall (w : W) (t : tally),
    consistent t ->
    let '(w', t') := fold_left (handle_region fx start) regions (w, t) in
    consistent t'
    /\ (processed_regions t' + failed_regions t'
        = processed_regions t + failed_regions t + length regions)%nat
    /\ Permutation
         (results_successful t' ++ map fst (results_failed t'))
         ((results_successful t ++ map fst (results_failed t))
          ++ map name regions).
Proof.
  induction regions as [|r regions IH]; intros w t [Hs Hf].
  - simpl. split; [now split|]. split; [lia|]. now rewrite app_nil_r.
  - cbn [fold_left]. unfold handle_region at 2.
    destruct (region_pipeline fx start r _) as [w1 [u|e]].
    + match goal with
      | |- context [fold_left _ _ (w1, ?t1)] =>
          specialize (IH w1 t1); destruct (fold_left _ regions (w1, t1)) as [w' t']
      end.
      destruct IH as (Hc & Hn & Hp).
      { split; cbn; [rewrite length_app; simpl; lia | exact Hf]. }
      split; [exact Hc|]. split; [cbn in Hn |- *; lia|].
      cbn [results_successful results_failed] in Hp.
      rewrite Hp. cbn [map]. rewrite <- !app_assoc. apply Permutation_app_head.
      cbn [app]. apply Permutation_middle.
    + match goal with
      | |- context [fold_left _ _ (w1, ?t1)] =>
          specialize (IH w1 t1); destruct (fold_left _ regions (w1, t1)) as [w' t']
      end.
      destruct IH as (Hc & Hn & Hp).
      { split; cbn; [exact Hs | rewrite length_app; simpl; lia]. }
      split; [exact Hc|]. split; [cbn in Hn |- *; lia|].
      cbn [results_successful results_failed] in Hp.
      rewrite Hp. rewrite map_app. cbn [map fst]. rewrite <- !app_assoc.
      reflexivity.
Qed.

(** The handler always answers with status 200, and its counters add up:
    every region is counted once, as processed or as failed, and each
    counter is the length of its result list. *)
Theorem lambda_handler_counts {W} (fx : effects W) (w : W) :
  let r := snd (lambda_handler fx w) in
  statusCode r = 200
  /\ (processed_regions (body r) + failed_regions (body r)
      = length REGIONS)%nat
  /\ length (results_successful (body r)) = processed_regions (body r)
  /\ length (results_failed (body r)) = failed_regions (body r).
Proof.
  unfold lambda_handler, run_regions.
  pose proof (run_regions_fold fx (timestamp_of (clock fx w)) REGIONS w
                empty_tally (conj eq_refl eq_refl)) as H.
  destruct (fold_left _ REGIONS (w, empty_tally)) as [w' t].
  destruct H as ([Hs Hf] & Hn & _). cbn [snd statusCode body].
  split; [reflexivity|]. split; [exact Hn|]. now split.
Qed.

(** Every region is reported exactly once: the names of the successful
    regions together with the names of the failed ones are the names of
    the configured regions, each as often as it is configured. *)
Theorem lambda_handler_reports_every_region {W} (fx : effects W) (w : W) :
  let t := body (snd (lambda_handler fx w)) in
  Permutation (results_successful t ++ map fst (results_failed t))
              (map name REGIONS).
Proof.
  unfold lambda_handler, run_regions.
  pose proof (run_regions_fold fx (timestamp_of (clock fx w)) REGIONS w
                empty_tally (conj eq_refl eq_refl)) as H.
  destruct (fold_left _ REGIONS (w, empty_tally)) as [w' t].
  destruct H as (_ & _ & Hp). exact Hp.
Qed.

Lemma run_all_fail {W} (fx : effects W) (start : str) (regions : list region) :
  forall (w : W) (t : tally),
    processed_regions t = 0%nat ->
    all_fail fx start regions w ->
    fst (fold_left (handle_region fx start) regions (w, t))
    = fold_left (fun w0 r => fst (region_pipeline fx start r w0)) regions w
    /\ processed_regions
         (snd (fold_left (handle_region fx start) regions (w, t))) = 0%nat.
Proof.
  induction regions as [|r regions IH]; intros w t Ht Hall.
  - simpl. auto.
  - destruct Hall as [[e He] Hall]. cbn [fold_left].
    unfold handle_region at 2 4. rewrite Ht. cbn [Nat.ltb Nat.leb].
    destruct (region_pipeline fx start r w) as [w1 res] eqn:E.
    cbn [fst snd] in *. subst res.
    apply IH; [reflexivity | exact Hall].
Qed.

(** As long as no region has succeeded the handler does not pause: when
    every attempt fails, the world at the end is the one the attempts
    leave, with no pause in between, and nothing is counted as processed. *)
Theorem lambda_handler_no_pause_without_success {W} (fx : effects W) (w : W) :
  all_fail fx (timestamp_of (clock fx w)) REGIONS w ->
  fst (lambda_handler fx w)
  = fold_left
      (fun w0 r => fst (region_pipeline fx (timestamp_of (clock fx w)) r w0))
      REGIONS w
  /\ processed_regions (body (snd (lambda_handler fx w))) = 0%nat.
Proof.
  intros Hall. unfold lambda_handler, run_regions.
  pose proof (run_all_fail fx (timestamp_of (clock fx w)) REGIONS w empty_tally
                eq_refl Hall) as H.
  destruct (fold_left _ REGIONS (w, empty_tally)) as [w' t].
  cbn [fst snd body] in *. exact H.
Qed.

Lemma offline_pipeline_fails (start : str) (r : region) (w : nat) :
  region_pipeline offline start r w = (w, Raise ValueError).
Proof. reflexivity. Qed.

Lemma lambda_handler_no_pause_without_success_witness :
  fst (lambda_handler offline 0%nat) = 0%nat
  /\ processed_regions (body (snd (lambda_handler offline 0%nat))) = 0%nat.
Proof.
  assert (Hall : forall start regions w, all_fail offline start regions w).
  { intros start regions. induction regions as [|r regions IH]; intros w.
    - exact I.
    - split; [eexists; reflexivity|]. simpl. apply IH. }
  destruct (lambda_handler_no_pause_without_success offline 0%nat (Hall _ _ _))
    as [Hw Hp].
  split; [|exact Hp]. rewrite Hw. reflexivity.
Defined.

(** ** The fetchers *)

Lemma fetch_or_empty_spec {W} (fx : effects W) (url : value) (w : W) :
  exists v w', fetch_or_empty fx url w = (w', Ok v)
               /\ answer_or_empty fx url w v w'.
Proof.
  unfold fetch_or_empty, io_try, answer_or_empty.
  destruct (http_json fx url w) as [w' [v|e]].
  - exists v, w'. auto.
  - exists empty_dict, w'. split; [reflexivity|]. right.
    split; [reflexivity|]. now exists e.
Qed.

(** When the station data has its four entries, the station identifier is
    turned into text and the latest observation is fetched,
    [get_weather_data] returns, whatever happens to the three
    forecast fetches: the bundle has the entries current, hourly, forecast
    and grid, each forecast being the answer fetched or the empty mapping
    when its fetch failed. *)
Theorem get_weather_data_survives_forecast_failures {W} (fx : effects W)
    (station_data sid hourly_url forecast_url grid_url current : value)
    (station : str) (w w1 : W) :
  subscript station_data (lit "station_id") = Ok sid ->
  py_str sid = Ok station ->
  subscript station_data (lit "forecast_hourly") = Ok hourly_url ->
  subscript station_data (lit "forecast") = Ok forecast_url ->
  subscript station_data (lit "forecast_grid") = Ok grid_url ->
  http_json fx (observation_url station) w = (w1, Ok current) ->
  exists hourly forecast grid w2 w3 w4,
    get_weather_data fx station_data w
    = (w4, Ok (VDict [(lit "current", current); (lit "hourly", hourly);
                      (lit "forecast", forecast); (lit "grid", grid)]))
    /\ answer_or_empty fx hourly_url w1 hourly w2
    /\ answer_or_empty fx forecast_url w2 forecast w3
    /\ answer_or_empty fx grid_url w3 grid w4.
Proof.
  intros Hsid Hst Hh Hf Hg Hc.
  destruct (fetch_or_empty_spec fx hourly_url w1) as (h & w2 & Eh & Ah).
  destruct (fetch_or_empty_spec fx forecast_url w2) as (f & w3 & Ef & Af).
  destruct (fetch_or_empty_spec fx grid_url w3) as (g & w4 & Eg & Ag).
  exists h, f, g, w2, w3, w4. split; [|auto].
  unfold get_weather_data, io_bind, io_lift, io_ret.
  rewrite Hsid, Hst. unfold observation_url in Hc. rewrite Hc, Hh, Hf, Hg.
  now rewrite Eh, Ef, Eg.
Qed.

Lemma get_weather_data_survives_forecast_failures_witness :
  get_weather_data flaky sample_station_data 0%nat
  = (4%nat, Ok (VDict [(lit "current", sample_document);
                       (lit "hourly", empty_dict);
                       (lit "forecast", empty_dict);
                       (lit "grid", empty_dict)])).
Proof.
  destruct (get_weather_data_survives_forecast_failures flaky
              sample_station_data (VStr (lit "KPHX"))
              (VStr (lit "https://api.weather.gov/hourly"))
              (VStr (lit "https://api.weather.gov/forecast"))
              (VStr (lit "https://api.weather.gov/grid"))
              sample_document (lit "KPHX") 0%nat 1%nat
              eq_refl eq_refl eq_refl eq_refl eq_refl eq_refl)
    as (h & f & g & w2 & w3 & w4 & E & Ah & Af & Ag).
  rewrite E.
  destruct Ah as [Ah | (-> & e & Ah)]; [discriminate|].
  injection Ah as <- _.
  destruct Af as [Af | (-> & e' & Af)]; [discriminate|].
  injection Af as <- _.
  destruct Ag as [Ag | (-> & e'' & Ag)]; [discriminate|].
  injection Ag as <- _. reflexivity.
Defined.

Lemma dict_lookup_set_same (d : record) (k : str) (v : value) :
  dict_lookup (dict_set d k v) k = Some v.
Proof.
  induction d as [|[k0 v0] d IH]; simpl.
  - now rewrite str_eqb_refl.
  - destruct (str_eqb k0 k) eqn:E; simpl; rewrite E; [reflexivity | exact IH].
Qed.

(** When the first fetch of [get_weather_alerts] fails, the function
    still returns, with a bundle without features, and a record processed
    from any weather bundle that got this bundle as its alerts has the
    alert flag No. *)
Theorem failed_alerts_fetch_means_no_alerts {W} (fx : effects W)
    (la lo : str) (w w1 : W) (e : exn)
    (weather : record) (now region_name : str) (r : record) :
  http_json fx (VStr (points_url la lo)) w = (w1, Raise e) ->
  process_weather_data now
    (VDict (dict_set weather (lit "alerts") no_alerts)) region_name = Ok r ->
  get_weather_alerts fx la lo w = (w1, Ok no_alerts)
  /\ set_item (VDict weather) (lit "alerts") no_alerts
     = Ok (VDict (dict_set weather (lit "alerts") no_alerts))
  /\ field r "has_alerts" = Some (VStr (lit "No")).
Proof.
  intros Hfetch Hr. split; [|split; [reflexivity|]].
  - unfold get_weather_alerts, io_try, io_bind. now rewrite Hfetch.
  - destruct (process_weather_data_ok _ _ _ _ Hr)
      as (cur0 & current & alerts & features & detailed & tc & tf & vals
          & -> & Hlen & _ & _ & _ & _ & Ha & Hf).
    break_vals vals.
    cbn [method_get] in Ha. rewrite dict_lookup_set_same in Ha.
    injection Ha as <-. cbn in Hf. injection Hf as <-. reflexivity.
Qed.

Lemma failed_alerts_fetch_means_no_alerts_witness :
  exists r,
    process_weather_data (lit "2024-01-01 00:00:00")
      (VDict (dict_set [(lit "current", sample_document)] (lit "alerts") no_alerts))
      (lit "Miami_FL") = Ok r
    /\ get_weather_alerts offline (lit "25.7617") (lit "-80.1918") 0%nat
       = (0%nat, Ok no_alerts)
    /\ field r "has_alerts" = Some (VStr (lit "No")).
Proof.
  eexists.
  match goal with
  | |- ?P = Ok ?r /\ _ =>
      destruct (failed_alerts_fetch_means_no_alerts offline
                  (lit "25.7617") (lit "-80.1918") 0%nat 0%nat ValueError
                  [(lit "current", sample_document)]
                  (lit "2024-01-01 00:00:00") (lit "Miami_FL") r)
        as (Ha & _ & Hr); [reflexivity | vm_compute; reflexivity|]
  end.
  split; [vm_compute; reflexivity|]. split; [exact Ha | exact Hr].
Defined.

(** ** The store over a run *)

Section Store.
Context {W : Type} (fx : effects W) (store : W -> str -> option str).
Hypothesis Hstore : store_like fx store.

Lemma keeps_ret {A} (a : A) : keeps_store store (io_ret (W:=W) a).
Proof. intros w n. reflexivity. Qed.

Lemma keeps_lift {A} (r : result A) : keeps_store store (io_lift (W:=W) r).
Proof. intros w n. reflexivity. Qed.

Lemma keeps_http (url : value) : keeps_store store (http_json fx url).
Proof. intros w n. apply Hstore. Qed.

Lemma keeps_bind {A B} (m : io W A) (k : A -> io W B) :
  keeps_store store m -> (forall a, keeps_store store (k a)) ->
  keeps_store store (io_bind m k).
Proof.
  intros Hm Hk w n. unfold io_bind. specialize (Hm w n).
  destruct (m w) as [w1 [a|e]]; cbn [fst] in *.
  - now rewrite (Hk a w1 n).
  - exact Hm.
Qed.

Lemma keeps_try {A} (m h : io W A) :
  keeps_store store m -> keeps_store store h ->
  keeps_store store (io_try m h).
Proof.
  intros Hm Hh w n. unfold io_try. specialize (Hm w n).
  destruct (m w) as [w1 [a|e]]; cbn [fst] in *.
  - exact Hm.
  - now rewrite (Hh w1 n).
Qed.

Ltac keeps :=
  repeat first
    [ apply keeps_ret | apply keeps_lift | apply keeps_http
    | apply keeps_bind; [|intros ?] | apply keeps_try ].

Lemma keeps_get_station_data (la lo : str) :
  keeps_store store (get_station_data fx la lo).
Proof.
  unfold get_station_data. keeps.
  destruct (negb (truthy _)); keeps.
Qed.

Lemma keeps_get_weather_alerts (la lo : str) :
  keeps_store store (get_weather_alerts fx la lo).
Proof. unfold get_weather_alerts. keeps. Qed.

Lemma keeps_get_weather_data (station_data : value) :
  keeps_store store (get_weather_data fx station_data).
Proof. unfold get_weather_data, fetch_or_empty. keeps. Qed.

(** Building the record of a region does not touch the store. *)
Lemma keeps_region_record (start : str) (r : region) :
  keeps_store store (region_record fx start r).
Proof.
  unfold region_record.
  apply keeps_bind; [apply keeps_get_station_data | intros ?].
  apply keeps_bind; [apply keeps_get_weather_data | intros ?].
  apply keeps_bind; [apply keeps_get_weather_alerts | intros ?].
  apply keeps_bind; [apply keeps_lift | intros ?].
  apply keeps_bind; [intros w n; reflexivity | intros ?].
  apply keeps_ret.
Qed.

(** Saving a record leaves in the store only datasets as the merge writes
    them, whatever the record and whatever was stored under the day's
    name. *)
Lemma save_to_store_written (data : record) (w : W) :
  store_written store w ->
  store_written store (fst (save_to_store fx data w)).
Proof.
  intros Hv. destruct Hstore as (Hget & Hput & _ & _).
  unfold save_to_store. set (n := file_name (fst (clock fx w))).
  rewrite Hget.
  destruct (save_consolidated_data _ data) as [body|e] eqn:Hsave;
    [|exact Hv].
  destruct (save_written _ _ _ Hsave) as (written & -> & Hfull).
  destruct (Hput n (dataset_text written) w) as (w' & -> & Hw').
  cbn [fst]. intros n' text Hn'.
  destruct (Hw' n') as [E|E]; rewrite E in Hn'.
  - injection Hn' as <-. exists written. split; [reflexivity|].
    split; [exact Hfull|]. now apply valid_written.
  - exact (Hv n' text Hn').
Qed.

Lemma handle_region_written (start : str) (r : region) (w : W) (t : tally) :
  store_written store w ->
  store_written store (fst (handle_region fx start (w, t) r)).
Proof.
  intros Hv. unfold handle_region.
  set (w0 := if (0 <? processed_regions t)%nat then sleep fx w else w).
  assert (Hv0 : store_written store w0).
  { subst w0. destruct (0 <? processed_regions t)%nat; [|exact Hv].
    intros n text Hn. destruct Hstore as (_ & _ & _ & Hsleep).
    rewrite Hsleep in Hn. exact (Hv n text Hn). }
  assert (Hp : store_written store (fst (region_pipeline fx start r w0))).
  { unfold region_pipeline, io_bind.
    pose proof (keeps_region_record start r w0) as Hk.
    destruct (region_record fx start r w0) as [w1 [data|e]] eqn:E;
      cbn [fst] in *.
    - apply (save_to_store_written data w1).
      intros n text Hn. rewrite Hk in Hn. exact (Hv0 n text Hn).
    - intros n text Hn. rewrite Hk in Hn. exact (Hv0 n text Hn). }
  destruct (region_pipeline fx start r w0) as [w' [u|e]]; exact Hp.
Qed.

Lemma run_regions_written (start : str) (regions : list region) :
  forall (w : W) (t : tally),
    store_written store w ->
    store_written store
      (fst (fold_left (handle_region fx start) regions (w, t))).
Proof.
  induction regions as [|r regions IH]; intros w t Hv; [exact Hv|].
  cbn [fold_left].
  pose proof (handle_region_written start r w t Hv) as H.
  destruct (handle_region fx start (w, t) r) as [w1 t1].
  now apply IH.
Qed.
End Store.

(** In a world whose object operations behave as a store, a run of the
    handler leaves the store as the merge writes it: if every object is a
    header line with rows of one cell per column before the run, so is
    every object after it, whatever the weather service answers and
    whichever regions fail; and such an object is a valid dataset for the
    next merge when none of its cells is over the reader's limit. *)
Theorem lambda_handler_keeps_store_written {W} (fx : effects W)
    (store : W -> str -> option str) (w : W) :
  store_like fx store ->
  store_written store w ->
  store_written store (fst (lambda_handler fx w)).
Proof.
  intros Hs Hv. unfold lambda_handler, run_regions.
  pose proof (run_regions_written fx store Hs (timestamp_of (clock fx w))
                REGIONS w empty_tally Hv) as H.
  destruct (fold_left _ REGIONS (w, empty_tally)) as [w' t]. exact H.
Qed.

Lemma lambda_handler_keeps_store_written_witness :
  store_written (fun (w : option str) (_ : str) => w)
    (fst (lambda_handler online None))
  /\ exists text,
       fst (lambda_handler online None) = Some text
       /\ length (dataset_rows text) = 14%nat.
Proof.
  split.
  - apply (lambda_handler_keeps_store_written online).
    + split; [reflexivity|]. split.
      * intros n text w. exists (Some text). split; [reflexivity|].
        intros n'. now left.
      * split; reflexivity.
    + intros n text H. discriminate.
  - eexists. split; [vm_compute; reflexivity|]. vm_compute. reflexivity.
Defined.
